(** * 1D_LAG: the Eulerian GRP march, its limiter, boundary handling and
      the readers that check the input counts.

    The development embeds
    - [GRP_solver_ALE_source_Undone] (finite_volume/GRP_solver_ALE_source.c),
    - [main] (hydrocode_1D/hydrocode.c), from the point where the initial
      data have been read,
    - the count checks of [STR_FLU_INI] (file_io/_1D_file_in.c) and of
      [flu_var_init] (file_io/file_2D_in.c),
    - the arrays [main] of hydrocode_Radial_Lag/hydrocode.c sets up.

    A C [double] is a binary64 float ([PrimFloat.float]); every C expression
    is written with the same operations in the same order.  Arrays are
    lists read with [!!!] and written with [<[ _ := _ ]>]. *)

From Stdlib Require Import ZArith List Floats Reals Lra Lia Bool.
From stdpp Require Import base list.
Import ListNotations.

(** ** Doubles *)

#[global] Instance double_inhabited : Inhabited float := populate 0%float.

Module CMath.

(** C's [a > b] on doubles. *)
Definition gtb (a b : float) : bool := (b <? a)%float.

(** [fmin] of math.h: a NaN argument is ignored. *)
Definition fmin (x y : float) : float :=
  if is_nan x then y
  else if is_nan y then x
  else if (x <? y)%float then x else y.

Definition fabs (x : float) : float := PrimFloat.abs x.
Definition isfinite (x : float) : bool := is_finite x.
Definition isinf (x : float) : bool := is_infinity x.
Definition INFINITY : float := infinity.

(** The cast [(int)x]: truncation towards zero.  (The cast of a NaN or of
    an infinity is undefined in C; it yields 0 here.) *)
Definition to_int (x : float) : Z :=
  match Prim2SF x with
  | S754_finite s mant e =>
      let a := Z.shiftl (Z.pos mant) e in
      if s then (- a)%Z else a
  | _ => 0%Z
  end.

(** C defines the cast [(int)x] when [x], truncated, is an [int]: a
    number from INT_MIN to INT_MAX.  On these values [to_int] is the
    cast; on the others the program's behaviour is undefined. *)
Definition int_castable (x : float) : Prop :=
  is_finite x = true /\ (- 2 ^ 31 <= to_int x < 2 ^ 31)%Z.

(** A double that is a zero or not a number: what [x - x] is, and what
    it stays when it is divided or multiplied. *)
Definition zero_or_nan (f : spec_float) : Prop :=
  match f with
  | S754_zero _ | S754_nan => True
  | S754_infinity _ | S754_finite _ _ _ => False
  end.

(** The cast [(double)n] of an [int]. *)
Definition of_int (n : Z) : float :=
  if (n <? 0)%Z then PrimFloat.opp (PrimFloat.of_uint63 (Uint63.of_Z (- n)))
  else PrimFloat.of_uint63 (Uint63.of_Z n).

Definition of_nat (n : nat) : float := of_int (Z.of_nat n).

End CMath.

(** ** Arrays *)

(** [A[i][j]] and [A[i][j] = v] on a [double **]. *)
Definition get2 (A : list (list float)) (i j : nat) : float :=
  (A !!! i) !!! j.

Definition set2 (A : list (list float)) (i j : nat) (v : float)
  : list (list float) :=
  <[ i := <[ j := v ]> (A !!! i) ]> A.

(** [for (j = lo; j < lo + n; ++j) body] as an iteration on the state. *)
Fixpoint for_loop {S : Type} (n lo : nat) (body : nat -> S -> S) (s : S) : S :=
  match n with
  | O => s
  | Datatypes.S n' => for_loop n' (Datatypes.S lo) body (body lo s)
  end.

(** ** The limiters *)

Module Limiter.

(** The arithmetic the limiter formulas are written with. *)
Class Arith (A : Type) := {
  zero : A;
  one : A;
  opp : A -> A;
  mul : A -> A -> A;
  abs : A -> A;
  min : A -> A -> A;
  leb : A -> A -> bool;
  ltb : A -> A -> bool
}.

Section Generic.
Context {A : Type} `{Arith A}.

Definition sign (a : A) : A :=
  if ltb zero a then one else if ltb a zero then opp one else zero.

(** Modelled from the spec: [minmod2] is declared in tools.h, which is
    not among the sources.  "minmod2(a,b) = 0 if a*b <= 0, else
    sign(a)*min(|a|,|b|)". *)
Definition minmod2 (a b : A) : A :=
  if leb (mul a b) zero then zero
  else mul (sign a) (min (abs a) (abs b)).

(** Modelled from the spec: [minmod3] is declared in tools.h, which is
    not among the sources.  "minmod3 extends to three arguments
    requiring common sign": zero unless [b] and [c] both share the sign
    of [a], and then the argument of least magnitude. *)
Definition minmod3 (a b c : A) : A :=
  if leb (mul a b) zero then zero
  else if leb (mul a c) zero then zero
  else mul (sign a) (min (abs a) (min (abs b) (abs c))).
End Generic.

Definition Rleb (a b : R) : bool := if Rle_dec a b then true else false.
Definition Rltb (a b : R) : bool := if Rlt_dec a b then true else false.

#[global] Instance real_arith : Arith R := {|
  zero := 0%R; one := 1%R; opp := Ropp; mul := Rmult;
  abs := Rabs; min := Rmin; leb := Rleb; ltb := Rltb |}.

#[global] Instance double_arith : Arith float := {|
  zero := 0%float; one := 1%float; opp := PrimFloat.opp;
  mul := PrimFloat.mul; abs := PrimFloat.abs; min := CMath.fmin;
  leb := PrimFloat.leb; ltb := PrimFloat.ltb |}.

End Limiter.

(** ** The configuration array and the messages of a run *)

(** [double config[N_CONF]]: a slot that was never set holds [INFINITY]. *)
Definition config_array : Type := nat -> float.

Definition config_set (c : config_array) (n : nat) (v : float) : config_array :=
  fun i => if Nat.eqb i n then v else c i.

(** Where a non-physical value was met. *)
Inductive place := Reconstruction | Star | Update.

(** What a run prints or hands to its collaborators, in order. *)
Inductive event :=
| MsgBoundary (bound : Z)              (* "... boudary conditions." *)
| MsgNoBoundary                        (* "No suitable boundary coditions!" *)
| ErrNegative (w : place) (k j : nat)  (* "<0.0 error on [k, j] (t_n, x) - w" *)
| ErrNotFinite (w : place) (k j : nat) (* "NAN or INFinite error on [k, j] ..." *)
| DispPro (pro : float) (step : nat)   (* the progress display *)
| MsgTimeUp (k : nat)                  (* "Time is up at time step k." *)
| MsgCpuCost (sum : float)             (* "The cost of CPU time ..." *)
| MsgBadOrder (order : Z)              (* "NOT appropriate order of the scheme!" *)
| MsgBadFramework                      (* "NOT appropriate coordinate framework!" *)
| FileWrite (m N : nat).               (* [file_1D_write] is called *)

(** ** Functions the march calls and whose bodies are in other files *)

Definition vec3 : Type := float * float * float.

Class Externals := {
  (** [linear_GRP_solver_Edir(dire, mid, rho_L, rho_R, s_rho_L, s_rho_R,
      u_L, u_R, s_u_L, s_u_R, p_L, p_R, s_p_L, s_p_R, gamma, eps)]: the
      pair ([dire], [mid]) it fills in. *)
  linear_GRP_solver_Edir :
    forall (rho_L rho_R s_rho_L s_rho_R u_L u_R s_u_L s_u_R
            p_L p_R s_p_L s_p_R gamma eps : float), vec3 * vec3;
  (** The limiters of tools.h. *)
  minmod2 : float -> float -> float;
  minmod3 : float -> float -> float -> float;
  (** [(double)clock()] as read at the start and at the end of step [k]. *)
  tic : nat -> float;
  toc : nat -> float;
  CLOCKS_PER_SEC : float
}.

(** ** [GRP_solver_ALE_source_Undone] *)

Module GRP.

Local Open Scope float_scope.
Import CMath.

Record cell_var_stru := {
  RHO : list (list float);
  U : list (list float);
  P : list (list float);
  E : list (list float)
}.

(** The constants the function reads from [config] on entry. *)
Record params := {
  t_all : float;   (* config[1] *)
  eps : float;     (* config[4] *)
  N : nat;         (* (int)config[5] *)
  gamma : float;   (* config[6] *)
  CFL : float;     (* config[7] *)
  h : float;       (* config[10] *)
  bound : Z;       (* (int)config[17] *)
  alpha : float    (* config[41] *)
}.

Definition read_params (config : config_array) : params :=
  {| t_all := config 1%nat; eps := config 4%nat;
     N := Z.to_nat (to_int (config 5%nat));
     gamma := config 6%nat; CFL := config 7%nat; h := config 10%nat;
     bound := to_int (config 17%nat); alpha := config 41%nat |}.

(** The ghost values [UL, PL, RHOL, HL] and [UR, PR, RHOR, HR]. *)
Record ghost_val := {
  UL : float; PL : float; RHOL : float; HL : float;
  UR : float; PR : float; RHOR : float; HR : float
}.

(** The ghost slopes [SUL, SPL, SRHOL] and [SUR, SPR, SRHOR]. *)
Record ghost_slope := {
  SUL : float; SPL : float; SRHOL : float;
  SUR : float; SPR : float; SRHOR : float
}.

Record slopes := {
  s_u : list float; s_p : list float; s_rho : list float
}.

(** The values and the temporal derivatives at the interfaces. *)
Record iface := {
  RHO_next : list float; U_next : list float; P_next : list float;
  RHO_t : list float; U_t : list float; P_t : list float
}.

Record flux := { F1 : list float; F2 : list float; F3 : list float }.

(** The memory the caller passes in ([CV], [X], [cpu_time], the global
    [config]), the locals that live across steps, and the output. *)
Record state := {
  CV : cell_var_stru;
  X : list (list float);
  cpu_time : list float;
  config : config_array;
  sl : slopes;
  nx : iface;
  fl : flux;
  gv : ghost_val;
  gs : ghost_slope;
  find_bound : bool;
  time_c : float;
  tau : float;
  cpu_time_sum : float;
  out : list event
}.

(** [int nt = 1]: the row that receives the new values; it never changes. *)
Definition nt : nat := 1.

(** Lines 111-112: [HL = h, SUL = 0.0, ...]; the values are not
    initialised (they are assigned before they are read). *)
Definition ghost_val_init (h : float) : ghost_val :=
  {| UL := 0; PL := 0; RHOL := 0; HL := h;
     UR := 0; PR := 0; RHOR := 0; HR := h |}.

Definition ghost_slope_init : ghost_slope :=
  {| SUL := 0; SPL := 0; SRHOL := 0; SUR := 0; SPR := 0; SRHOR := 0 |}.

(** The first [switch (bound)] of a step (lines 120-176); [None] is the
    [default] branch, which leaves through [return_NULL]. *)
Definition boundary_values (bound : Z) (m : nat) (h : float)
    (cv : cell_var_stru) (X : list (list float))
    (fb : bool) (g : ghost_val) : option (bool * ghost_val * list event) :=
  let firstly := if fb then [] else [MsgBoundary bound] in
  let HLc := get2 X (nt - 1) 1 - get2 X (nt - 1) 0 in
  let HRc := get2 X (nt - 1) m - get2 X (nt - 1) (m - 1) in
  if (bound =? -1)%Z then
    if fb then Some (fb, g, [])
    else Some (true,
               {| UL := get2 (U cv) 0 0; UR := get2 (U cv) 0 (m - 1);
                  PL := get2 (P cv) 0 0; PR := get2 (P cv) 0 (m - 1);
                  RHOL := get2 (RHO cv) 0 0; RHOR := get2 (RHO cv) 0 (m - 1);
                  HL := h; HR := h |},
               firstly)
  else if (bound =? -2)%Z then
    Some (true,
          {| UL := - get2 (U cv) (nt - 1) 0; UR := - get2 (U cv) (nt - 1) (m - 1);
             PL := get2 (P cv) (nt - 1) 0; PR := get2 (P cv) (nt - 1) (m - 1);
             RHOL := get2 (RHO cv) (nt - 1) 0; RHOR := get2 (RHO cv) (nt - 1) (m - 1);
             HL := HLc; HR := HRc |},
          firstly)
  else if (bound =? -4)%Z then
    Some (true,
          {| UL := get2 (U cv) (nt - 1) 0; UR := get2 (U cv) (nt - 1) (m - 1);
             PL := get2 (P cv) (nt - 1) 0; PR := get2 (P cv) (nt - 1) (m - 1);
             RHOL := get2 (RHO cv) (nt - 1) 0; RHOR := get2 (RHO cv) (nt - 1) (m - 1);
             HL := HLc; HR := HRc |},
          firstly)
  else if (bound =? -5)%Z then
    Some (true,
          {| UL := get2 (U cv) (nt - 1) (m - 1); UR := get2 (U cv) (nt - 1) 0;
             PL := get2 (P cv) (nt - 1) (m - 1); PR := get2 (P cv) (nt - 1) 0;
             RHOL := get2 (RHO cv) (nt - 1) (m - 1); RHOR := get2 (RHO cv) (nt - 1) 0;
             HL := HRc; HR := HLc |},
          firstly)
  else if (bound =? -24)%Z then
    Some (true,
          {| UL := - get2 (U cv) (nt - 1) 0; UR := get2 (U cv) (nt - 1) (m - 1);
             PL := get2 (P cv) (nt - 1) 0; PR := get2 (P cv) (nt - 1) (m - 1);
             RHOL := get2 (RHO cv) (nt - 1) 0; RHOR := get2 (RHO cv) (nt - 1) (m - 1);
             HL := HLc; HR := HRc |},
          firstly)
  else None.

(** The second [switch (bound)] of a step (lines 226-239): the ghost
    slopes.  It has the cases -2, -5 and -24 only. *)
Definition boundary_slopes (bound : Z) (m : nat) (s : slopes)
    (g : ghost_slope) : ghost_slope :=
  if (bound =? -2)%Z then
    {| SUL := - (s_u s !!! 0%nat); SUR := - (s_u s !!! (m - 1)%nat);
       SPL := SPL g; SPR := SPR g; SRHOL := SRHOL g; SRHOR := SRHOR g |}
  else if (bound =? -5)%Z then
    {| SUL := s_u s !!! (m - 1)%nat; SUR := s_u s !!! 0%nat;
       SPL := s_p s !!! (m - 1)%nat; SPR := s_p s !!! 0%nat;
       SRHOL := s_rho s !!! (m - 1)%nat; SRHOR := s_rho s !!! 0%nat |}
  else if (bound =? -24)%Z then
    {| SUL := - (s_u s !!! 0%nat); SUR := SUR g;
       SPL := SPL g; SPR := SPR g; SRHOL := SRHOL g; SRHOR := SRHOR g |}
  else g.

Section March.
Context `{Externals}.

(** One turn of the slope loop (lines 179-225). *)
Definition reconstruct_body (k m : nat) (alpha : float)
    (cv : cell_var_stru) (X : list (list float)) (g : ghost_val)
    (j : nat) (s : slopes) : slopes :=
  let '(s_u_L, s_p_L, s_rho_L) :=
    if negb (j =? 0)%nat then
      let h_L := 0.5 * (get2 X (nt - 1) (j + 1) - get2 X (nt - 1) (j - 1)) in
      ((get2 (U cv) (nt - 1) j - get2 (U cv) (nt - 1) (j - 1)) / h_L,
       (get2 (P cv) (nt - 1) j - get2 (P cv) (nt - 1) (j - 1)) / h_L,
       (get2 (RHO cv) (nt - 1) j - get2 (RHO cv) (nt - 1) (j - 1)) / h_L)
    else
      let h_L := 0.5 * (get2 X (nt - 1) (j + 1) - get2 X (nt - 1) j + HL g) in
      ((get2 (U cv) (nt - 1) j - UL g) / h_L,
       (get2 (P cv) (nt - 1) j - PL g) / h_L,
       (get2 (RHO cv) (nt - 1) j - RHOL g) / h_L) in
  let '(s_u_R, s_p_R, s_rho_R) :=
    if (j <? m - 1)%nat then
      let h_R := 0.5 * (get2 X (nt - 1) (j + 2) - get2 X (nt - 1) j) in
      ((get2 (U cv) (nt - 1) (j + 1) - get2 (U cv) (nt - 1) j) / h_R,
       (get2 (P cv) (nt - 1) (j + 1) - get2 (P cv) (nt - 1) j) / h_R,
       (get2 (RHO cv) (nt - 1) (j + 1) - get2 (RHO cv) (nt - 1) j) / h_R)
    else
      let h_R := 0.5 * (get2 X (nt - 1) (j + 1) - get2 X (nt - 1) j + HR g) in
      ((UR g - get2 (U cv) (nt - 1) j) / h_R,
       (PR g - get2 (P cv) (nt - 1) j) / h_R,
       (RHOR g - get2 (RHO cv) (nt - 1) j) / h_R) in
  if (k =? 1)%nat then
    {| s_u := <[ j := minmod2 s_u_L s_u_R ]> (s_u s);
       s_p := <[ j := minmod2 s_p_L s_p_R ]> (s_p s);
       s_rho := <[ j := minmod2 s_rho_L s_rho_R ]> (s_rho s) |}
  else
    {| s_u := <[ j := minmod3 (alpha * s_u_L) (alpha * s_u_R) (s_u s !!! j) ]> (s_u s);
       s_p := <[ j := minmod3 (alpha * s_p_L) (alpha * s_p_R) (s_p s !!! j) ]> (s_p s);
       s_rho := <[ j := minmod3 (alpha * s_rho_L) (alpha * s_rho_R) (s_rho s !!! j) ]> (s_rho s) |}.

Definition reconstruct (k m : nat) (alpha : float) (cv : cell_var_stru)
    (X : list (list float)) (g : ghost_val) (s : slopes) : slopes :=
  for_loop m 0 (reconstruct_body k m alpha cv X g) s.

(** What the interface loop carries from one interface to the next. *)
Record iface_state := {
  h_S_max : float;
  i_time_c : float;
  i_nx : iface;
  i_out : list event
}.

(** The left state of interface [j]: [(h_L, rho_L, u_L, p_L)]
    (lines 247-260). *)
Definition left_state (cv : cell_var_stru) (X : list (list float))
    (g : ghost_val) (gsl : ghost_slope) (s : slopes) (j : nat)
    : float * float * float * float :=
  if negb (j =? 0)%nat then
    let h_L := get2 X (nt - 1) j - get2 X (nt - 1) (j - 1) in
    (h_L,
     get2 (RHO cv) (nt - 1) (j - 1) + 0.5 * h_L * (s_rho s !!! (j - 1)%nat),
     get2 (U cv) (nt - 1) (j - 1) + 0.5 * h_L * (s_u s !!! (j - 1)%nat),
     get2 (P cv) (nt - 1) (j - 1) + 0.5 * h_L * (s_p s !!! (j - 1)%nat))
  else
    let h_L := HL g in
    (h_L, RHOL g + 0.5 * h_L * SRHOL gsl, UL g + 0.5 * h_L * SUL gsl,
     PL g + 0.5 * h_L * SPL gsl).

(** The right state of interface [j]: [(h_R, rho_R, u_R, p_R)]
    (lines 261-274). *)
Definition right_state (m : nat) (cv : cell_var_stru)
    (X : list (list float)) (g : ghost_val) (gsl : ghost_slope)
    (s : slopes) (j : nat) : float * float * float * float :=
  if (j <? m)%nat then
    let h_R := get2 X (nt - 1) (j + 1) - get2 X (nt - 1) j in
    (h_R,
     get2 (RHO cv) (nt - 1) j - 0.5 * h_R * (s_rho s !!! j),
     get2 (U cv) (nt - 1) j - 0.5 * h_R * (s_u s !!! j),
     get2 (P cv) (nt - 1) j - 0.5 * h_R * (s_p s !!! j))
  else
    let h_R := HR g in
    (h_R, RHOR g + 0.5 * h_R * SRHOR gsl, UR g + 0.5 * h_R * SUR gsl,
     PR g + 0.5 * h_R * SPR gsl).

(** The slopes handed to the GRP solver at interface [j] (lines
    291-314): [(s_rho_L, s_u_L, s_p_L)] and [(s_rho_R, s_u_R, s_p_R)]. *)
Definition left_slopes (gsl : ghost_slope) (s : slopes) (j : nat) : vec3 :=
  if negb (j =? 0)%nat
  then (s_rho s !!! (j - 1)%nat, s_u s !!! (j - 1)%nat, s_p s !!! (j - 1)%nat)
  else (SRHOL gsl, SUL gsl, SPL gsl).

Definition right_slopes (m : nat) (gsl : ghost_slope) (s : slopes)
    (j : nat) : vec3 :=
  if (j <? m)%nat then (s_rho s !!! j, s_u s !!! j, s_p s !!! j)
  else (SRHOR gsl, SUR gsl, SPR gsl).

(** The call of the GRP solver at interface [j] (line 317). *)
Definition solve_interface (par : params) (m : nat) (cv : cell_var_stru)
    (X : list (list float)) (g : ghost_val) (gsl : ghost_slope)
    (s : slopes) (j : nat) : vec3 * vec3 :=
  let '(_, rho_L, u_L, p_L) := left_state cv X g gsl s j in
  let '(_, rho_R, u_R, p_R) := right_state m cv X g gsl s j in
  let '(s_rho_L, s_u_L, s_p_L) := left_slopes gsl s j in
  let '(s_rho_R, s_u_R, s_p_R) := right_slopes m gsl s j in
  linear_GRP_solver_Edir rho_L rho_R s_rho_L s_rho_R u_L u_R s_u_L s_u_R
    p_L p_R s_p_L s_p_R (gamma par) (eps par).

(** The test of line 275 and the test of line 280. *)
Definition reconstruction_negative (par : params)
    (rho_L p_L rho_R p_R : float) : bool :=
  (p_L <? eps par) || (p_R <? eps par)
  || (rho_L <? eps par) || (rho_R <? eps par).

Definition reconstruction_not_finite
    (rho_L u_L p_L rho_R u_R p_R : float) : bool :=
  negb (isfinite p_L) || negb (isfinite p_R) || negb (isfinite u_L)
  || negb (isfinite u_R) || negb (isfinite rho_L) || negb (isfinite rho_R).

(** The tests on the star state (lines 319 and 324). *)
Definition star_negative (par : params) (sol : vec3 * vec3) : bool :=
  let '(_, (_, _, mid2)) := sol in mid2 <? eps par.

Definition star_not_finite (sol : vec3 * vec3) : bool :=
  let '(_, (_, mid1, mid2)) := sol in
  negb (isfinite mid1) || negb (isfinite mid2).

(** Lines 330-335: [RHO_next[j] = mid[0]; ... P_t[j] = dire[2]]. *)
Definition store_star (j : nat) (sol : vec3 * vec3) (nxt : iface) : iface :=
  let '((dire0, dire1, dire2), (mid0, mid1, mid2)) := sol in
  {| RHO_next := <[ j := mid0 ]> (RHO_next nxt);
     U_next := <[ j := mid1 ]> (U_next nxt);
     P_next := <[ j := mid2 ]> (P_next nxt);
     RHO_t := <[ j := dire0 ]> (RHO_t nxt);
     U_t := <[ j := dire1 ]> (U_t nxt);
     P_t := <[ j := dire2 ]> (P_t nxt) |}.

(** One turn of the interface loop (lines 241-336); [inr] is a jump to
    [return_NULL], with the output so far. *)
Definition iface_body (par : params) (k m : nat) (cv : cell_var_stru)
    (X : list (list float)) (g : ghost_val) (gsl : ghost_slope)
    (s : slopes) (j : nat) (st : iface_state)
    : iface_state + list event :=
  let '(h_L, rho_L, u_L, p_L) := left_state cv X g gsl s j in
  let '(h_R, rho_R, u_R, p_R) := right_state m cv X g gsl s j in
  if reconstruction_negative par rho_L p_L rho_R p_R then
    inr (i_out st ++ [ErrNegative Reconstruction k j])
  else if reconstruction_not_finite rho_L u_L p_L rho_R u_R p_R then
    inr (i_out st ++ [ErrNotFinite Reconstruction k j])
  else
    let c_L := PrimFloat.sqrt (gamma par * p_L / rho_L) in
    let c_R := PrimFloat.sqrt (gamma par * p_R / rho_R) in
    let hs1 := fmin (h_S_max st) (h_L / (fabs u_L + fabs c_L)) in
    let hs2 := fmin hs1 (h_R / (fabs u_R + fabs c_R)) in
    let sol := solve_interface par m cv X g gsl s j in
    let neg := star_negative par sol in
    let nan := star_not_finite sol in
    inl {| h_S_max := hs2;
           i_time_c := if neg || nan then t_all par else i_time_c st;
           i_nx := store_star j sol (i_nx st);
           i_out := i_out st
                    ++ (if neg then [ErrNegative Star k j] else [])
                    ++ (if nan then [ErrNotFinite Star k j] else []) |}.

(** [for (j = lo; j < lo + n; ++j)] with a body that may jump out. *)
Fixpoint for_loop_exit {S Err : Type} (n lo : nat)
    (body : nat -> S -> S + Err) (s : S) : S + Err :=
  match n with
  | O => inl s
  | Datatypes.S n' =>
      match body lo s with
      | inl s' => for_loop_exit n' (Datatypes.S lo) body s'
      | inr e => inr e
      end
  end.

Definition iface_loop (par : params) (k m : nat) (cv : cell_var_stru)
    (X : list (list float)) (g : ghost_val) (gsl : ghost_slope)
    (s : slopes) (st : iface_state) : iface_state + list event :=
  for_loop_exit (m + 1) 0 (iface_body par k m cv X g gsl s) st.

(** Lines 340-345: the time step of this turn. [tau] is the value the
    local holds on entry ([config[16]] at the first step). *)
Definition time_step (par : params) (config : config_array)
    (hs time_c tau : float) : float :=
  if isfinite (t_all par) || negb (isfinite (config 16%nat))
     || (config 16%nat <=? 0.0) then
    let tau1 := CFL par * hs in
    if gtb (time_c + tau1) (t_all par - eps par)
    then t_all par - time_c else tau1
  else tau.

(** What the flux loop changes. *)
Record flux_state := {
  f_nx : iface;
  f_fl : flux;
  f_X : list (list float)
}.

(** One turn of the flux loop (lines 348-364). *)
Definition flux_body (gamma tau : float) (j : nat) (st : flux_state)
    : flux_state :=
  let rho1 := RHO_next (f_nx st) !!! j + 0.5 * tau * (RHO_t (f_nx st) !!! j) in
  let u1 := U_next (f_nx st) !!! j + 0.5 * tau * (U_t (f_nx st) !!! j) in
  let p1 := P_next (f_nx st) !!! j + 0.5 * tau * (P_t (f_nx st) !!! j) in
  let f1 := rho1 * u1 in
  let f2 := f1 * u1 + p1 in
  let f3 := (gamma / (gamma - 1.0)) * p1 + 0.5 * f1 * u1 in
  let f3' := f3 * u1 in
  let rho2 := rho1 + 0.5 * tau * (RHO_t (f_nx st) !!! j) in
  let u2 := u1 + 0.5 * tau * (U_t (f_nx st) !!! j) in
  let p2 := p1 + 0.5 * tau * (P_t (f_nx st) !!! j) in
  {| f_nx := {| RHO_next := <[ j := rho2 ]> (RHO_next (f_nx st));
                U_next := <[ j := u2 ]> (U_next (f_nx st));
                P_next := <[ j := p2 ]> (P_next (f_nx st));
                RHO_t := RHO_t (f_nx st);
                U_t := U_t (f_nx st);
                P_t := P_t (f_nx st) |};
     f_fl := {| F1 := <[ j := f1 ]> (F1 (f_fl st));
                F2 := <[ j := f2 ]> (F2 (f_fl st));
                F3 := <[ j := f3' ]> (F3 (f_fl st)) |};
     f_X := set2 (f_X st) nt j (get2 (f_X st) (nt - 1) j) |}.

Definition flux_loop (gamma tau : float) (m : nat) (st : flux_state)
    : flux_state :=
  for_loop (m + 1) 0 (flux_body gamma tau) st.

(** What the update loop changes. *)
Record update_state := {
  u_cv : cell_var_stru;
  u_time_c : float;
  u_sl : slopes;
  u_out : list event
}.

(** Lines 373-379: the new values [(rho, u, E, p)] of cell [j]. *)
Definition updated_cell (par : params) (nu : float) (f : flux)
    (cv : cell_var_stru) (j : nat) : float * float * float * float :=
  let rho_n := get2 (RHO cv) (nt - 1) j
               - nu * (F1 f !!! (j + 1)%nat - F1 f !!! j) in
  let Mom := get2 (RHO cv) (nt - 1) j * get2 (U cv) (nt - 1) j
             - nu * (F2 f !!! (j + 1)%nat - F2 f !!! j) in
  let Ene := get2 (RHO cv) (nt - 1) j * get2 (E cv) (nt - 1) j
             - nu * (F3 f !!! (j + 1)%nat - F3 f !!! j) in
  let u_n := Mom / rho_n in
  let e_n := Ene / rho_n in
  let p_n := (Ene - 0.5 * Mom * u_n) * (gamma par - 1.0) in
  (rho_n, u_n, e_n, p_n).

(** The tests on the new values (lines 381 and 386). *)
Definition update_negative (par : params)
    (c : float * float * float * float) : bool :=
  let '(rho_n, _, _, p_n) := c in (p_n <? eps par) || (rho_n <? eps par).

Definition update_not_finite (c : float * float * float * float) : bool :=
  let '(rho_n, u_n, _, p_n) := c in
  negb (isfinite p_n) || negb (isfinite u_n) || negb (isfinite rho_n).

(** Lines 373-378: the stores into row [nt]. *)
Definition store_cell (j : nat) (c : float * float * float * float)
    (cv : cell_var_stru) : cell_var_stru :=
  let '(rho_n, u_n, e_n, p_n) := c in
  {| RHO := set2 (RHO cv) nt j rho_n;
     U := set2 (U cv) nt j u_n;
     P := set2 (P cv) nt j p_n;
     E := set2 (E cv) nt j e_n |}.

(** One turn of the update loop (lines 367-396).  The values the C code
    reads back from [RHO[nt][j]] and [U[nt][j]] are the ones it has just
    stored there. *)
Definition update_body (par : params) (k : nat) (nu : float)
    (nxt : iface) (f : flux) (X : list (list float))
    (j : nat) (st : update_state) : update_state :=
  let c := updated_cell par nu f (u_cv st) j in
  let neg := update_negative par c in
  let nan := update_not_finite c in
  let dx := get2 X nt (j + 1) - get2 X nt j in
  {| u_cv := store_cell j c (u_cv st);
     u_time_c := if neg || nan then t_all par else u_time_c st;
     u_sl := {| s_u := <[ j := (U_next nxt !!! (j + 1)%nat - U_next nxt !!! j) / dx ]> (s_u (u_sl st));
                s_p := <[ j := (P_next nxt !!! (j + 1)%nat - P_next nxt !!! j) / dx ]> (s_p (u_sl st));
                s_rho := <[ j := (RHO_next nxt !!! (j + 1)%nat - RHO_next nxt !!! j) / dx ]> (s_rho (u_sl st)) |};
     u_out := u_out st
              ++ (if neg then [ErrNegative Update k j] else [])
              ++ (if nan then [ErrNotFinite Update k j] else []) |}.

Definition update_loop (par : params) (k m : nat) (nu : float)
    (nxt : iface) (f : flux) (X : list (list float))
    (st : update_state) : update_state :=
  for_loop m 0 (update_body par k nu nxt f X) st.

(** One turn of the last loop (lines 416-422). *)
Definition copy_back_body (j : nat) (cv : cell_var_stru) : cell_var_stru :=
  {| RHO := set2 (RHO cv) (nt - 1) j (get2 (RHO cv) nt j);
     U := set2 (U cv) (nt - 1) j (get2 (U cv) nt j);
     E := set2 (E cv) (nt - 1) j (get2 (E cv) nt j);
     P := set2 (P cv) (nt - 1) j (get2 (P cv) nt j) |}.

Definition copy_back (m : nat) (cv : cell_var_stru) : cell_var_stru :=
  for_loop m 0 copy_back_body cv.

(** The test that ends the march (line 409). *)
Definition time_is_up (par : params) (time_c : float) : bool :=
  gtb time_c (t_all par - eps par) || isinf time_c.

(** How one turn of the main loop ends. *)
Inductive outcome :=
| Continue (s : state)     (* the next turn follows *)
| Break (s : state)        (* [break]: the prints after the loop follow *)
| Return_NULL (s : state). (* [goto return_NULL] *)

Definition with_out (s : state) (o : list event) : state :=
  {| CV := CV s; X := X s; cpu_time := cpu_time s; config := config s;
     sl := sl s; nx := nx s; fl := fl s; gv := gv s; gs := gs s;
     find_bound := find_bound s; time_c := time_c s; tau := tau s;
     cpu_time_sum := cpu_time_sum s; out := o |}.

(** The rest of a turn once the interface loop is through (lines
    338-422): time step, fluxes, update, timing, progress, and either
    [break] or the copy of the new row onto the old one. *)
Definition finish_step (par : params) (m k : nat) (s : state)
    (fb : bool) (g : ghost_val) (gsl : ghost_slope) (s1 : slopes)
    (i : iface_state) : outcome :=
  let tau1 := time_step par (config s) (h_S_max i) (i_time_c i) (tau s) in
  let nu := tau1 / h par in
  let f := flux_loop (gamma par) tau1 m
             {| f_nx := i_nx i; f_fl := fl s; f_X := X s |} in
  let u := update_loop par k m nu (f_nx f) (f_fl f) (f_X f)
             {| u_cv := CV s; u_time_c := i_time_c i;
                u_sl := s1; u_out := i_out i |} in
  let cpu := (toc k - tic k) / CLOCKS_PER_SEC in
  let time_c' := u_time_c u + tau1 in
  let pro := if isfinite (t_all par)
             then time_c' * 100.0 / t_all par
             else of_nat k * 100.0 / of_nat (N par) in
  let s' (cv : cell_var_stru) (cfg : config_array) :=
    {| CV := cv; X := f_X f;
       cpu_time := <[ nt := cpu ]> (cpu_time s);
       config := cfg;
       sl := u_sl u; nx := f_nx f; fl := f_fl f;
       gv := g; gs := gsl; find_bound := fb;
       time_c := time_c'; tau := tau1;
       cpu_time_sum := cpu_time_sum s + cpu;
       out := u_out u ++ [DispPro pro k] |} in
  if time_is_up par time_c'
  then Break (s' (u_cv u) (config_set (config s) 5 (of_nat k)))
  else Continue (s' (copy_back m (u_cv u)) (config s)).

(** One turn of the main loop (lines 115-423), step [k]. *)
Definition step (par : params) (m k : nat) (s : state) : outcome :=
  match boundary_values (bound par) m (h par) (CV s) (X s)
          (find_bound s) (gv s) with
  | None => Return_NULL (with_out s (out s ++ [MsgNoBoundary]))
  | Some (fb, g, msgs) =>
      let s1 := reconstruct k m (alpha par) (CV s) (X s) g (sl s) in
      let gsl := boundary_slopes (bound par) m s1 (gs s) in
      match iface_loop par k m (CV s) (X s) g gsl s1
              {| h_S_max := INFINITY; i_time_c := time_c s;
                 i_nx := nx s; i_out := out s ++ msgs |} with
      | inr o => Return_NULL (with_out s o)
      | inl i => finish_step par m k s fb g gsl s1 i
      end
  end.

(** How the function is left. *)
Inductive ending := TimeUp | Jumped.

(** The prints after the main loop (lines 425-426), [k] being the value
    of the loop counter there. *)
Definition after_loop (k : nat) (s : state) : state :=
  with_out s (out s ++ [MsgTimeUp k; MsgCpuCost (cpu_time_sum s)]).

(** [for (k = ...; k <= N; ++k)] with [n] turns left. *)
Fixpoint main_loop (par : params) (m n k : nat) (s : state)
    : ending * state :=
  match n with
  | O => (TimeUp, after_loop k s)
  | Datatypes.S n' =>
      match step par m k s with
      | Continue s' => main_loop par m n' (Datatypes.S k) s'
      | Break s' => (TimeUp, after_loop k s')
      | Return_NULL s' => (Jumped, s')
      end
  end.

(** The locals on entry: the slopes come from [calloc]; the other
    arrays come from [malloc] and are written before they are read. *)
Definition initial_state (m : nat) (cv : cell_var_stru)
    (X : list (list float)) (cpu_time : list float)
    (config : config_array) : state :=
  let z := replicate m 0 in
  let z1 := replicate (m + 1) 0 in
  {| CV := cv; X := X; cpu_time := cpu_time; config := config;
     sl := {| s_u := z; s_p := z; s_rho := z |};
     nx := {| RHO_next := z1; U_next := z1; P_next := z1;
              RHO_t := z1; U_t := z1; P_t := z1 |};
     fl := {| F1 := z1; F2 := z1; F3 := z1 |};
     gv := ghost_val_init (config 10%nat);
     gs := ghost_slope_init;
     find_bound := false;
     time_c := 0.0;
     tau := config 16%nat;
     cpu_time_sum := 0.0;
     out := [] |}.

Definition GRP_solver_ALE_source_Undone (m : nat) (cv : cell_var_stru)
    (X : list (list float)) (cpu_time : list float)
    (config : config_array) : ending * state :=
  let par := read_params config in
  main_loop par m (N par) 1 (initial_state m cv X cpu_time config).

End March.

End GRP.

(** ** [main] of hydrocode_1D *)

Module Hydrocode1D.

Local Open Scope float_scope.
Import CMath GRP.

(** [argv[4]] as the two [strcmp] tests read it. *)
Inductive framework := LAG | EUL | Unknown.

(** The initial data [initialize_1D] returns. *)
Record flu_var := {
  FV_RHO : list float;
  FV_U : list float;
  FV_P : list float
}.

(** What a march leaves behind when it returns: the cell arrays and
    [cpu_time] it was passed, the global [config], and its output. *)
Record marched := {
  m_CV : cell_var_stru;
  m_cpu_time : list float;
  m_config : config_array;
  m_out : list event
}.

(** How a call of a function whose body is in another file ends: it
    returns, leaving [a], or it calls [exit]. *)
Inductive ended (A : Type) :=
| Returned (a : A)
| Exited (status : Z) (out : list event).
Arguments Returned {A} a.
Arguments Exited {A} status out.

(** The four marches [main] calls; their bodies are in other files.  The
    arguments are those of the calls of lines 228, 231, 248 and 251,
    [(m, CV, X, cpu_time, N, time_plot)] for the Lagrangian marches and
    [(m, CV, cpu_time, N, time_plot)] for the Eulerian ones, and the
    global [config]; a Lagrangian march also leaves the grid [X]. *)
Class Marches := {
  Godunov_solver_LAG_source :
    nat -> cell_var_stru -> list (list float) -> list float -> nat ->
    list float -> config_array -> ended (marched * list (list float));
  GRP_solver_LAG_source :
    nat -> cell_var_stru -> list (list float) -> list float -> nat ->
    list float -> config_array -> ended (marched * list (list float));
  Godunov_solver_EUL_source :
    nat -> cell_var_stru -> list float -> nat -> list float ->
    config_array -> ended marched;
  GRP_solver_EUL_source :
    nat -> cell_var_stru -> list float -> nat -> list float ->
    config_array -> ended marched
}.

(** What a run leaves: the exit status, the arrays, the output.  When a
    march calls [exit] the status is the one it gives, and the arrays are
    recorded as [main] passed them. *)
Record run := {
  retval : Z;
  r_CV : cell_var_stru;
  r_X : list (list float);
  r_cpu_time : list float;
  r_config : config_array;
  r_out : list event
}.

(** [CV_INIT_MEM(v, N)]: row 0 is the initial data, the rows
    [1 .. N-1] are fresh ones of [m] doubles. *)
Definition CV_INIT_MEM (v0 : list float) (m N : nat) : list (list float) :=
  v0 :: replicate (N - 1) (replicate m 0).

(** Lines 217-218: [X[0][j] = h * j] for [j = 0 .. m]. *)
Definition init_X0 (h : float) (m : nat) (X : list (list float))
    : list (list float) :=
  for_loop (m + 1) 0 (fun j X => set2 X 0 j (h * of_nat j)) X.

(** Lines 219-220: the energy of the initial data. *)
Definition init_E0 (gamma : float) (m : nat) (cv : cell_var_stru)
    : cell_var_stru :=
  for_loop m 0
    (fun j cv =>
       {| RHO := RHO cv; U := U cv; P := P cv;
          E := set2 (E cv) 0 j
                 (0.5 * get2 (U cv) 0 j * get2 (U cv) 0 j
                  + get2 (P cv) 0 j / (gamma - 1.0) / get2 (RHO cv) 0 j) |})
    cv.

(** Lines 242-244: [X[k][j] = X[0][j]] for [k = 1 .. N-1], [j = 0 .. m]. *)
Definition copy_X0 (m N : nat) (X : list (list float)) : list (list float) :=
  for_loop (N - 1) 1
    (fun k X => for_loop (m + 1) 0 (fun j X => set2 X k j (get2 X 0 j)) X) X.

Section Main.
Context `{Marches}.

(** The arrays [main] has built when it reaches line 222: [cpu_time],
    the grid with row 0 set, the cells with their energy. *)
Definition main_cells (config : config_array) (FV0 : flu_var) (N : nat)
    : cell_var_stru :=
  let m := Z.to_nat (to_int (config 3%nat)) in
  init_E0 (config 6%nat) m
    {| RHO := CV_INIT_MEM (FV_RHO FV0) m N;
       U := CV_INIT_MEM (FV_U FV0) m N;
       P := CV_INIT_MEM (FV_P FV0) m N;
       E := replicate N (replicate m 0) |}.

Definition main_grid (config : config_array) (N : nat) : list (list float) :=
  let m := Z.to_nat (to_int (config 3%nat)) in
  init_X0 (config 10%nat) m (replicate N (replicate (m + 1) 0)).

(** [main] from line 165 on: [config], [FV0], [N] and [time_plot] are
    what [initialize_1D] has set up, [N] being the number of stored rows,
    and every allocation succeeds. *)
Definition main (config : config_array) (FV0 : flu_var) (N : nat)
    (time_plot : list float) (argv4 : framework) : run :=
  let m := Z.to_nat (to_int (config 3%nat)) in
  let order := to_int (config 9%nat) in
  let cpu_time := replicate N 0 in
  let X0 := main_grid config N in
  let cv0 := main_cells config FV0 N in
  let written (r : marched) (X : list (list float)) :=
    {| retval := 0%Z; r_CV := m_CV r; r_X := X; r_cpu_time := m_cpu_time r;
       r_config := m_config r; r_out := m_out r ++ [FileWrite m N] |} in
  let left (cfg : config_array) (X : list (list float)) (status : Z)
      (o : list event) :=
    {| retval := status; r_CV := cv0; r_X := X; r_cpu_time := cpu_time;
       r_config := cfg; r_out := o |} in
  match argv4 with
  | LAG =>
      let cfg := config_set config 8 1.0 in
      if (order =? 1)%Z then
        match Godunov_solver_LAG_source m cv0 X0 cpu_time N time_plot cfg with
        | Returned (r, X) => written r X
        | Exited status o => left cfg X0 status o
        end
      else if (order =? 2)%Z then
        match GRP_solver_LAG_source m cv0 X0 cpu_time N time_plot cfg with
        | Returned (r, X) => written r X
        | Exited status o => left cfg X0 status o
        end
      else left cfg X0 4%Z [MsgBadOrder order]
  | EUL =>
      let cfg := config_set config 8 0.0 in
      let X1 := copy_X0 m N X0 in
      if (order =? 1)%Z then
        match Godunov_solver_EUL_source m cv0 cpu_time N time_plot cfg with
        | Returned r => written r X1
        | Exited status o => left cfg X1 status o
        end
      else if (order =? 2)%Z then
        match GRP_solver_EUL_source m cv0 cpu_time N time_plot cfg with
        | Returned r => written r X1
        | Exited status o => left cfg X1 status o
        end
      else left cfg X1 4%Z [MsgBadOrder order]
  | Unknown => left config X0 4%Z [MsgBadFramework]
  end.

End Main.

End Hydrocode1D.

(** ** The count checks of the readers *)

Module FileIn.

Import CMath.

(** What [flu_var_count] / [flu_var_count_line] and [flu_var_read] report
    on a data file that could be opened. *)
Record data_file := {
  line : Z;            (* lines counted *)
  column : Z;          (* numbers on a line; 1D files: the whole count *)
  read_fails : bool    (* [flu_var_read] returns non-zero *)
}.

(** A reader either goes on with the new [config] or calls [exit]. *)
Inductive reading :=
| Read (config : config_array)
| Exit (status : Z).

(** [STR_FLU_INI(sfv)] of _1D_file_in.c on a file that, when it can be
    opened, holds [column f] numbers. *)
Definition STR_FLU_INI_1D (config : config_array) (file : option data_file)
    : reading :=
  match file with
  | None => Exit 1
  | Some f =>
      let num_cell := column f in
      if (num_cell <? 1)%Z then Exit 2
      else
        let check :=
          if isinf (config 3%nat)
          then Read (config_set config 3 (of_int num_cell))
          else if negb (num_cell =? to_int (config 3%nat))%Z then Exit 2
          else Read config in
        match check with
        | Exit st => Exit st
        | Read config' => if read_fails f then Exit 2 else Read config'
        end
  end.

(** A sequence of reads, stopping at the first [exit]. *)
Fixpoint read_all (rd : config_array -> option data_file -> reading)
    (config : config_array) (files : list (option data_file)) : reading :=
  match files with
  | [] => Read config
  | f :: rest =>
      match rd config f with
      | Read config' => read_all rd config' rest
      | Exit st => Exit st
      end
  end.

(** [_1D_initialize]: the files of RHO, U and P, in this order, after
    [configurate] has filled [config]. *)
Definition _1D_initialize (config : config_array)
    (rho u p : option data_file) : reading :=
  read_all STR_FLU_INI_1D config [rho; u; p].

(** [flu_var_init] of file_2D_in.c, on an open file. *)
Definition flu_var_init (config : config_array) (f : data_file) : reading :=
  let num_cell := (line f * column f)%Z in
  if (num_cell <? 1)%Z then Exit 2
  else
    let c3 := if isinf (config 3%nat)
              then config_set config 3 (of_int num_cell) else config in
    let c13 := if isinf (c3 13%nat)
               then config_set c3 13 (of_int (column f)) else c3 in
    let check :=
      if isinf (c13 14%nat)
      then Read (config_set c13 14 (of_int (line f)))
      else if negb (num_cell =? to_int (c13 3%nat))%Z
              || negb (column f =? to_int (c13 13%nat))%Z
              || negb (line f =? to_int (c13 14%nat))%Z
      then Exit 2
      else Read c13 in
    match check with
    | Exit st => Exit st
    | Read config' => if read_fails f then Exit 2 else Read config'
    end.

(** [STR_FLU_INI(sfv, 1)] of file_2D_in.c. *)
Definition STR_FLU_INI_2D (config : config_array) (file : option data_file)
    : reading :=
  match file with
  | None => Exit 1
  | Some f => flu_var_init config f
  end.

(** [initialize_2D] without the multi-fluid switches: RHO, U, V, P. *)
Definition initialize_2D (config : config_array)
    (rho u v p : option data_file) : reading :=
  read_all STR_FLU_INI_2D config [rho; u; v; p].

End FileIn.

(** ** The specification's wording of what the march computes *)

Module Spec.

Import CMath GRP.
Local Open Scope float_scope.

(** Section 4.3: "s_L = (v_j - v_{j-1})/Dx_L, s_R = (v_{j+1} - v_j)/Dx_R,
    boundaries substituting the ghost".  [v] is the row of one variable,
    [x] the row of interface positions; the distances are taken between
    cell centres, a ghost cell having the width [HL] or [HR]. *)
Definition Dx_L (x : list float) (HL : float) (j : nat) : float :=
  if (j =? 0)%nat then 0.5 * (x !!! (j + 1)%nat - x !!! j + HL)
  else 0.5 * (x !!! (j + 1)%nat - x !!! (j - 1)%nat).

Definition Dx_R (m : nat) (x : list float) (HR : float) (j : nat) : float :=
  if (j <? m - 1)%nat then 0.5 * (x !!! (j + 2)%nat - x !!! j)
  else 0.5 * (x !!! (j + 1)%nat - x !!! j + HR).

Definition s_L (v : list float) (ghost : float) (x : list float)
    (HL : float) (j : nat) : float :=
  (v !!! j - (if (j =? 0)%nat then ghost else v !!! (j - 1)%nat))
  / Dx_L x HL j.

Definition s_R (m : nat) (v : list float) (ghost : float) (x : list float)
    (HR : float) (j : nat) : float :=
  ((if (j <? m - 1)%nat then v !!! (j + 1)%nat else ghost) - v !!! j)
  / Dx_R m x HR j.

(** Section 4.3: minmod2 of the two differences at the first step,
    minmod3 of the scaled differences and the carried slope later. *)
Definition limited_slope `{Externals} (k : nat) (alpha sl sr prev : float)
    : float :=
  if (k =? 1)%nat then minmod2 sl sr
  else minmod3 (alpha * sl) (alpha * sr) prev.

(** Section 4.7, S2: "min over interfaces of Dx/(|u|+c)", with
    c = sqrt(gamma p / rho), over the two reconstructed states of every
    interface. *)
Definition ratio (gamma : float) (st : float * float * float * float)
    : float :=
  let '(dx, rho, u, p) := st in
  dx / (fabs u + fabs (PrimFloat.sqrt (gamma * p / rho))).

Definition min_ratio `{Externals} (gamma : float) (m : nat)
    (cv : cell_var_stru) (X : list (list float)) (g : ghost_val)
    (gsl : ghost_slope) (s : slopes) : float :=
  fold_left fmin
    (flat_map (fun j => [ratio gamma (left_state cv X g gsl s j);
                         ratio gamma (right_state m cv X g gsl s j)])
              (seq 0 (m + 1)))
    INFINITY.

(** Section 4.5: the star state (rho, u, p) advanced by
    0.5 Dt times its time derivative. *)
Definition advance (tau : float) (d v : vec3) : vec3 :=
  let '(d0, d1, d2) := d in
  let '(v0, v1, v2) := v in
  (v0 + 0.5 * tau * d0, v1 + 0.5 * tau * d1, v2 + 0.5 * tau * d2).

(** Section 4.5: "F1 = rho u; F2 = F1 u + p;
    F3 = u (gamma/(gamma-1) p + 1/2 F1 u)". *)
Definition fluxes (gamma : float) (hat : vec3) : vec3 :=
  let '(rho, u, p) := hat in
  let F1 := rho * u in
  (F1, F1 * u + p, u * (gamma / (gamma - 1.0) * p + 0.5 * F1 * u)).

(** The entries of one interface in the arrays of the march. *)
Definition next_at (nxt : iface) (j : nat) : vec3 :=
  (RHO_next nxt !!! j, U_next nxt !!! j, P_next nxt !!! j).

Definition deriv_at (nxt : iface) (j : nat) : vec3 :=
  (RHO_t nxt !!! j, U_t nxt !!! j, P_t nxt !!! j).

Definition flux_at (f : flux) (j : nat) : vec3 :=
  (F1 f !!! j, F2 f !!! j, F3 f !!! j).

(** The arrays have [n] entries each. *)
Definition iface_sized (n : nat) (nxt : iface) : Prop :=
  length (RHO_next nxt) = n /\ length (U_next nxt) = n
  /\ length (P_next nxt) = n /\ length (RHO_t nxt) = n
  /\ length (U_t nxt) = n /\ length (P_t nxt) = n.

Definition flux_sized (n : nat) (f : flux) : Prop :=
  length (F1 f) = n /\ length (F2 f) = n /\ length (F3 f) = n.

(** Line 363 on its own: [X[nt][j] = X[nt-1][j]] for [j = 0 .. m]. *)
Definition grid_copy (m : nat) (X : list (list float)) : list (list float) :=
  for_loop (m + 1) 0 (fun j X => set2 X nt j (get2 X (nt - 1) j)) X.

(** The star state of interface [j] is flagged (line 319 or line 324). *)
Definition star_flagged `{Externals} (par : params) (m : nat)
    (cv : cell_var_stru) (X : list (list float)) (g : ghost_val)
    (gsl : ghost_slope) (s : slopes) (j : nat) : bool :=
  star_negative par (solve_interface par m cv X g gsl s j)
  || star_not_finite (solve_interface par m cv X g gsl s j).

(** What the two star tests print at interface [j] of step [k]. *)
Definition star_messages `{Externals} (par : params) (k m : nat)
    (cv : cell_var_stru) (X : list (list float)) (g : ghost_val)
    (gsl : ghost_slope) (s : slopes) (j : nat) : list event :=
  (if star_negative par (solve_interface par m cv X g gsl s j)
   then [ErrNegative Star k j] else [])
  ++ (if star_not_finite (solve_interface par m cv X g gsl s j)
      then [ErrNotFinite Star k j] else []).

(** The update of cell [j] is flagged (line 381 or line 386). *)
Definition update_flagged (par : params) (nu : float) (f : flux)
    (cv : cell_var_stru) (j : nat) : bool :=
  update_negative par (updated_cell par nu f cv j)
  || update_not_finite (updated_cell par nu f cv j).

(** The old rows of two cell arrays are the same. *)
Definition same_old_rows (cv cv' : cell_var_stru) : Prop :=
  RHO cv' !!! (nt - 1)%nat = RHO cv !!! (nt - 1)%nat
  /\ U cv' !!! (nt - 1)%nat = U cv !!! (nt - 1)%nat
  /\ P cv' !!! (nt - 1)%nat = P cv !!! (nt - 1)%nat
  /\ E cv' !!! (nt - 1)%nat = E cv !!! (nt - 1)%nat.

(** The pieces of [finish_step] by name: the time step of the turn, the
    result of its flux loop and the result of its update loop. *)
Definition step_tau (par : params) (s : state) (i : iface_state) : float :=
  time_step par (config s) (h_S_max i) (i_time_c i) (tau s).

Definition step_flux (par : params) (m : nat) (s : state) (i : iface_state)
    : flux_state :=
  flux_loop (gamma par) (step_tau par s i) m
    {| f_nx := i_nx i; f_fl := fl s; f_X := X s |}.

Definition step_update (par : params) (m k : nat) (s : state) (s1 : slopes)
    (i : iface_state) : update_state :=
  update_loop par k m (step_tau par s i / h par)
    (f_nx (step_flux par m s i)) (f_fl (step_flux par m s i))
    (f_X (step_flux par m s i))
    {| u_cv := CV s; u_time_c := i_time_c i; u_sl := s1; u_out := i_out i |}.

(** What the progress display shows at the end of step [k]. *)
Definition progress (par : params) (k : nat) (time_c : float) : float :=
  if isfinite (t_all par) then time_c * 100.0 / t_all par
  else of_nat k * 100.0 / of_nat (N par).

(** A turn of the interface loop that passes the reconstruction tests. *)
Definition iface_turn `{Externals} (par : params) (k m : nat)
    (cv : cell_var_stru) (X : list (list float)) (g : ghost_val)
    (gsl : ghost_slope) (s : slopes) (j : nat) (st : iface_state)
    : iface_state :=
  {| h_S_max := fmin (fmin (h_S_max st)
                        (ratio (gamma par) (left_state cv X g gsl s j)))
                     (ratio (gamma par) (right_state m cv X g gsl s j));
     i_time_c := if star_flagged par m cv X g gsl s j
                 then t_all par else i_time_c st;
     i_nx := store_star j (solve_interface par m cv X g gsl s j) (i_nx st);
     i_out := i_out st ++ star_messages par k m cv X g gsl s j |}.

(** What the switch never writes is still zero: the pressure and density
    ghost slopes unless the tag is Periodic, the right velocity ghost
    slope unless it is Periodic or Reflective, the left one unless it is
    Periodic, Reflective or Reflective+Free. *)
Definition unwritten_zero (bound : Z) (g : ghost_slope) : Prop :=
  (bound <> (-5)%Z ->
   SPL g = 0 /\ SPR g = 0 /\ SRHOL g = 0 /\ SRHOR g = 0)
  /\ (bound <> (-5)%Z -> bound <> (-2)%Z -> SUR g = 0)
  /\ (bound <> (-5)%Z -> bound <> (-2)%Z -> bound <> (-24)%Z -> SUL g = 0).

Definition slopes_sized (m : nat) (s : slopes) : Prop :=
  length (s_u s) = m /\ length (s_p s) = m /\ length (s_rho s) = m.

(** The arrays of a state have the sizes they were allocated with. *)
Definition sized (m : nat) (s : state) : Prop :=
  slopes_sized m (sl s) /\ iface_sized (m + 1) (nx s)
  /\ flux_sized (m + 1) (fl s).

(** The states the march passes through: [reaches par m k s k' s'] when
    the turns [k, ..., k'-1] lead from [s] to [s'], each ending without
    [break] and without a jump. *)
Inductive reaches `{Externals} (par : params) (m : nat)
    : nat -> state -> nat -> state -> Prop :=
| reaches_here (k : nat) (s : state) : reaches par m k s k s
| reaches_next (k : nat) (s : state) (k' : nat) (s' s'' : state) :
    reaches par m k s k' s' ->
    step par m k' s' = Continue s'' ->
    reaches par m k s (Datatypes.S k') s''.

(** The slope of one variable after its turn [j]. *)
Definition turn `{Externals} (k m : nat) (alpha : float) (v : list float)
    (vL vR : float) (x : list float) (g : ghost_val)
    (j : nat) (prev : float) : float :=
  limited_slope k alpha (s_L v vL x (HL g) j) (s_R m v vR x (HR g) j) prev.

(** The two arguments the limiter is given for cell [j] of the row [v]
    are finite numbers: the two difference quotients at the first step,
    the quotients scaled by [alpha] later. *)
Definition limiter_arguments_finite (k m : nat) (alpha : float)
    (v : list float) (vL vR : float) (x : list float) (g : ghost_val)
    (j : nat) : Prop :=
  let sl := s_L v vL x (HL g) j in
  let sr := s_R m v vR x (HR g) j in
  if (k =? 1)%nat then is_finite sl = true /\ is_finite sr = true
  else is_finite (alpha * sl) = true /\ is_finite (alpha * sr) = true.

(** The same for u, p and rho in the two edge cells, [0] and [m - 1]. *)
Definition edge_arguments_finite (k m : nat) (alpha : float)
    (cv : cell_var_stru) (X : list (list float)) (g : ghost_val) : Prop :=
  forall j, j = 0%nat \/ j = (m - 1)%nat ->
    limiter_arguments_finite k m alpha (U cv !!! 0%nat) (UL g) (UR g)
      (X !!! 0%nat) g j
    /\ limiter_arguments_finite k m alpha (P cv !!! 0%nat) (PL g) (PR g)
         (X !!! 0%nat) g j
    /\ limiter_arguments_finite k m alpha (RHO cv !!! 0%nat) (RHOL g) (RHOR g)
         (X !!! 0%nat) g j.

(** Section 4.3: "minmod2(a,b) = 0 if a*b <= 0", and the same first test
    in minmod3, as a property of the limiters the march is linked with. *)
Definition limiters_vanish `{Externals} : Prop :=
  (forall a b : float, (a * b <=? 0) = true -> minmod2 a b = 0)
  /\ (forall a b c : float, (a * b <=? 0) = true -> minmod3 a b c = 0).

(** The shape of an array: [N] rows of [w] entries. *)
Definition shaped (N w : nat) (A : list (list float)) : Prop :=
  length A = N /\ forall k, (k < N)%nat -> length (A !!! k) = w.

End Spec.

(** ** Sample instances and data, for running the definitions *)

Module Sample.

Import CMath GRP.
Local Open Scope float_scope.

(** Two stand-ins for [linear_GRP_solver_Edir], which is in another file:
    one returns the mean of the two sides with zero time derivatives, the
    other the vacuum answer (zero star pressure). *)
Definition mean_solver (rho_L rho_R s_rho_L s_rho_R u_L u_R s_u_L s_u_R
    p_L p_R s_p_L s_p_R gamma eps : float) : vec3 * vec3 :=
  ((0, 0, 0),
   (0.5 * (rho_L + rho_R), 0.5 * (u_L + u_R), 0.5 * (p_L + p_R))).

Definition vacuum_solver (rho_L rho_R s_rho_L s_rho_R u_L u_R s_u_L s_u_R
    p_L p_R s_p_L s_p_R gamma eps : float) : vec3 * vec3 :=
  ((0, 0, 0), (0, 0.5 * (u_L + u_R), 0)).

Definition with_solver
    (solver : float -> float -> float -> float -> float -> float -> float ->
              float -> float -> float -> float -> float -> float -> float ->
              vec3 * vec3) : Externals :=
  {| linear_GRP_solver_Edir := solver;
     minmod2 := Limiter.minmod2;
     minmod3 := Limiter.minmod3;
     tic := fun k => 0;
     toc := fun k => 1;
     CLOCKS_PER_SEC := 1000000 |}.

Definition ext_mean : Externals := with_solver mean_solver.
Definition ext_vacuum : Externals := with_solver vacuum_solver.

(** A configuration: end time 0.25, threshold 2^-30, at most 10 steps,
    gamma 1.5, CFL 0.5, cell width 0.5, no fixed time step, the given
    boundary tag, alpha 1.5, two cells, second order. *)
Definition sample_config (bound : float) : config_array :=
  fun n =>
    match n with
    | 1%nat => 0.25
    | 3%nat => 2
    | 4%nat => 0x1p-30
    | 5%nat => 10
    | 6%nat => 1.5
    | 7%nat => 0.5
    | 9%nat => 2
    | 10%nat => 0.5
    | 17%nat => bound
    | 41%nat => 1.5
    | _ => infinity
    end.

(** Two cells of a shock tube, two stored rows. *)
Definition tube : cell_var_stru :=
  {| RHO := [[1; 0.125]; [0; 0]];
     U := [[0; 0]; [0; 0]];
     P := [[1; 0.125]; [0; 0]];
     E := [[2; 2]; [0; 0]] |}.

Definition grid : list (list float) := [[0; 0.5; 1]; [0; 0.5; 1]].

Definition tube_state (bound : float) : state :=
  initial_state 2 tube grid [0; 0] (sample_config bound).

(** The same configuration with no end time and the fixed time step 0.25. *)
Definition fixed_step_config (bound : float) : config_array :=
  config_set (config_set (sample_config bound) 1 infinity) 16 0.25.

Definition fixed_step_state (bound : float) : state :=
  initial_state 2 tube grid [0; 0] (fixed_step_config bound).

(** Stand-ins for the marches of the other files: they return at once
    and leave everything as it was. *)
Definition idle_marches : Hydrocode1D.Marches :=
  let idle (cv : cell_var_stru) (cpu : list float) (cfg : config_array) :=
    {| Hydrocode1D.m_CV := cv; Hydrocode1D.m_cpu_time := cpu;
       Hydrocode1D.m_config := cfg; Hydrocode1D.m_out := [] |} in
  {| Hydrocode1D.Godunov_solver_LAG_source :=
       fun m cv X cpu N tp cfg => Hydrocode1D.Returned (idle cv cpu cfg, X);
     Hydrocode1D.GRP_solver_LAG_source :=
       fun m cv X cpu N tp cfg => Hydrocode1D.Returned (idle cv cpu cfg, X);
     Hydrocode1D.Godunov_solver_EUL_source :=
       fun m cv cpu N tp cfg => Hydrocode1D.Returned (idle cv cpu cfg);
     Hydrocode1D.GRP_solver_EUL_source :=
       fun m cv cpu N tp cfg => Hydrocode1D.Returned (idle cv cpu cfg) |}.

(** The initial data of the two cells of [tube]. *)
Definition tube_data : Hydrocode1D.flu_var :=
  {| Hydrocode1D.FV_RHO := [1; 0.125];
     Hydrocode1D.FV_U := [0; 0];
     Hydrocode1D.FV_P := [1; 0.125] |}.

(** No end time and the fixed time step 4: the first update overshoots. *)
Definition overshoot_config (bound : float) : config_array :=
  config_set (config_set (sample_config bound) 1 infinity) 16 4.

Definition overshoot_state (bound : float) : state :=
  initial_state 2 tube grid [0; 0] (overshoot_config bound).

(** The tube with no pressure in its second cell. *)
Definition broken_tube : cell_var_stru :=
  {| RHO := [[1; 0.125]; [0; 0]];
     U := [[0; 0]; [0; 0]];
     P := [[1; 0]; [0; 0]];
     E := [[2; 0]; [0; 0]] |}.

(** A 2-D configuration that fixes 200 cells in 10 columns and leaves the
    number of lines open, and two data files: 20 lines of 5 numbers, and
    20 lines of 10 numbers. *)
Definition config_200_by_10 : config_array :=
  fun n =>
    match n with
    | 3%nat => 200
    | 13%nat => 10
    | _ => infinity
    end.

Definition file_20_by_5 : FileIn.data_file :=
  {| FileIn.line := 20; FileIn.column := 5; FileIn.read_fails := false |}.

Definition file_20_by_10 : FileIn.data_file :=
  {| FileIn.line := 20; FileIn.column := 10; FileIn.read_fails := false |}.

(** One interface with star state (1, 1, 1) and time derivative
    (1, 1, 1). *)
Definition one_interface : flux_state :=
  {| f_nx := {| RHO_next := [1]; U_next := [1]; P_next := [1];
                RHO_t := [1]; U_t := [1]; P_t := [1] |};
     f_fl := {| F1 := [0]; F2 := [0]; F3 := [0] |};
     f_X := [[0]; [0]] |}.



(** The sample configuration with the threshold 2^-60, which the end time
    0.25 absorbs: 0.25 - 2^-60 = 0.25 in doubles. *)
Definition tiny_eps_config (bound : float) : config_array :=
  config_set (sample_config bound) 4 0x1p-60.

End Sample.

(** ** Rows of cells, and what the tests of an interface give *)

Module Rows.

Import CMath GRP Spec.
Local Open Scope float_scope.

(** The values [(rho, u, E, p)] of cell [j] in row [r]. *)
Definition cell_at (cv : cell_var_stru) (r j : nat)
    : float * float * float * float :=
  (get2 (RHO cv) r j, get2 (U cv) r j, get2 (E cv) r j, get2 (P cv) r j).

(** The four arrays have [N] rows of [m] cells. *)
Definition cells_shaped (N m : nat) (cv : cell_var_stru) : Prop :=
  shaped N m (RHO cv) /\ shaped N m (U cv)
  /\ shaped N m (P cv) /\ shaped N m (E cv).

(** The rows from [r0] on are the same in two arrays, and so is the
    number of rows. *)
Definition same_rows_from (r0 : nat) (A A' : list (list float)) : Prop :=
  length A' = length A
  /\ forall r, (r0 <= r)%nat -> A' !!! r = A !!! r.

(** What the tests of lines 275 and 280 print at interface [j] of step
    [k], if one of them fires. *)
Definition reconstruction_error (par : params) (k m : nat)
    (cv : cell_var_stru) (X : list (list float)) (g : ghost_val)
    (gsl : ghost_slope) (s : slopes) (j : nat) : option event :=
  let '(_, rho_L, u_L, p_L) := left_state cv X g gsl s j in
  let '(_, rho_R, u_R, p_R) := right_state m cv X g gsl s j in
  if reconstruction_negative par rho_L p_L rho_R p_R
  then Some (ErrNegative Reconstruction k j)
  else if reconstruction_not_finite rho_L u_L p_L rho_R u_R p_R
  then Some (ErrNotFinite Reconstruction k j)
  else None.

(** What the two tests on the new values print for cell [j] of step
    [k] (lines 381-390). *)
Definition update_messages (par : params) (k : nat) (nu : float) (f : flux)
    (cv : cell_var_stru) (j : nat) : list event :=
  (if update_negative par (updated_cell par nu f cv j)
   then [ErrNegative Update k j] else [])
  ++ (if update_not_finite (updated_cell par nu f cv j)
      then [ErrNotFinite Update k j] else []).

(** The state a turn of the main loop leaves, however it ends. *)
Definition state_of (o : outcome) : state :=
  match o with Continue s | Break s | Return_NULL s => s end.

(** Every entry of [cpu_time] but entry [nt] is the same. *)
Definition same_but_nt (c c' : list float) : Prop :=
  length c' = length c /\ forall i, i <> nt -> c' !!! i = c !!! i.

End Rows.

(** ** The arrays of [main] of hydrocode_Radial_Lag *)

Module Radial.

Import CMath GRP.
Local Open Scope float_scope.

(** [memmove(dst + off, src, n * sizeof(double))]. *)
Definition memmove_at (dst : list float) (off : nat) (src : list float)
    (n : nat) : list float :=
  take off dst ++ take n src ++ drop (off + n) dst.

(** [CV_INIT_FV_RESET_MEM(v, N)]: [N] fresh rows of [Md = Ncell + 2]
    doubles, the [Ncell] initial values moved into row 0 from entry 1
    on. *)
Definition CV_INIT_FV_RESET_MEM (v0 : list float) (Ncell N : nat)
    : list (list float) :=
  let Md := (Ncell + 2)%nat in
  let rows := replicate N (replicate Md 0) in
  <[ 0%nat := memmove_at (rows !!! 0%nat) 1 v0 Ncell ]> rows.

(** The initial data of the radial program: [flu_var] of var_struc.h,
    which with MULTIFLUID_BASICS has the ratio of specific heats of every
    cell as well. *)
Record flu_var := {
  FV_RHO : list float;
  FV_U : list float;
  FV_P : list float;
  FV_gamma : list float
}.

(** [CV.gamma] under MULTIFLUID_BASICS (lines 233-239): the array of the
    macro, in which every later row is then made the row 0 itself.  The
    rows are one array in the program and equal lists here. *)
Definition CV_gamma (g0 : list float) (Ncell N : nat) : list (list float) :=
  let G := CV_INIT_FV_RESET_MEM g0 Ncell N in
  for_loop (N - 1) 1 (fun k G => <[ k := G !!! 0%nat ]> G) G.

(** The loop [for (j = 1; j <= Ncell; ++j) CV.E[0][j] = ...] (lines
    258-264): with MULTIFLUID_BASICS, the default, [gamma] is first set
    to [CV.gamma[0][j]]; without it [gamma] is [config[6]] for every
    cell. *)
Definition init_E0 (MULTIFLUID_BASICS : bool) (gamma : float)
    (G : list (list float)) (Ncell : nat) (cv : cell_var_stru)
    : cell_var_stru :=
  for_loop Ncell 1
    (fun j cv =>
       let gamma := if MULTIFLUID_BASICS then get2 G 0 j else gamma in
       {| RHO := RHO cv; U := U cv; P := P cv;
          E := set2 (E cv) 0 j
                 (0.5 * get2 (U cv) 0 j * get2 (U cv) 0 j
                  + get2 (P cv) 0 j / (gamma - 1.0) / get2 (RHO cv) 0 j) |})
    cv.

(** The arrays [main] has when it calls the march: [U], [P] and [RHO]
    from the macro, [E] from [malloc] and the loop, and [CV.gamma], which
    exists with MULTIFLUID_BASICS only. *)
Definition initial_cells (MULTIFLUID_BASICS : bool) (gamma : float)
    (Ncell N : nat) (FV0 : flu_var) : cell_var_stru * list (list float) :=
  let G := if MULTIFLUID_BASICS then CV_gamma (FV_gamma FV0) Ncell N
           else [] in
  (init_E0 MULTIFLUID_BASICS gamma G Ncell
     {| U := CV_INIT_FV_RESET_MEM (FV_U FV0) Ncell N;
        P := CV_INIT_FV_RESET_MEM (FV_P FV0) Ncell N;
        RHO := CV_INIT_FV_RESET_MEM (FV_RHO FV0) Ncell N;
        E := replicate N (replicate (Ncell + 2) 0) |},
   G).

(** Two cells with the ratios 1.5 and 3. *)
Definition two_fluids : flu_var :=
  {| FV_RHO := [1; 0.125]; FV_U := [0; 0]; FV_P := [1; 0.125];
     FV_gamma := [1.5; 3] |}.

End Radial.

(** ** The counts of a data file against [config] *)

Module Counts.

Import CMath FileIn.

(** The counts are those of a file: not negative, and their product is
    an [int]. *)
Definition counts_in_range (f : data_file) : Prop :=
  (0 <= line f)%Z /\ (0 <= column f)%Z /\ (line f * column f < 2 ^ 31)%Z.

(** The file has the lines, the columns and the cells [config] holds. *)
Definition agrees (f : data_file) (config : config_array) : Prop :=
  line f = to_int (config 14%nat)
  /\ column f = to_int (config 13%nat)
  /\ (line f * column f)%Z = to_int (config 3%nat).

End Counts.

(** ** More sample data *)

Module Sample2.

Import CMath GRP Spec Rows.
Local Open Scope float_scope.

(** The first step of the sample tube with free boundaries and the mean
    solver: it goes on to a second step. *)
Definition tube_step : state :=
  state_of (@step Sample.ext_mean (read_params (Sample.sample_config (-4)))
              2 1 (Sample.tube_state (-4))).

(** What the first switch of the second step gives there. *)
Definition tube_step_boundary : option (bool * ghost_val * list event) :=
  boundary_values (-4) 2 0.5 (CV tube_step) (X tube_step)
    (find_bound tube_step) (gv tube_step).

(** The same with the tag -1. *)
Definition initial_step : state :=
  state_of (@step Sample.ext_mean (read_params (Sample.sample_config (-1)))
              2 1 (Sample.tube_state (-1))).

Definition initial_step_boundary : option (bool * ghost_val * list event) :=
  boundary_values (-1) 2 0.5 (CV initial_step) (X initial_step)
    (find_bound initial_step) (gv initial_step).

(** The first step with an update that overshoots: the march breaks. *)
Definition overshoot_step : state :=
  state_of (@step Sample.ext_mean
              (read_params (Sample.overshoot_config (-4)))
              2 1 (Sample.overshoot_state (-4))).

(** The ghost values of the free boundary of the sample tube. *)
Definition tube_ghost : ghost_val :=
  {| UL := 0; PL := 1; RHOL := 1; HL := 0.5;
     UR := 0; PR := 0.125; RHOR := 0.125; HR := 0.5 |}.

(** The tube without pressure in its second cell, before its first step. *)
Definition broken_state : state :=
  initial_state 2 Sample.broken_tube Sample.grid [0; 0]
    (Sample.sample_config (-4)).

Definition broken_ghost : ghost_val :=
  {| UL := 0; PL := 1; RHOL := 1; HL := 0.5;
     UR := 0; PR := 0; RHOR := 0.125; HR := 0.5 |}.

(** A configuration with nothing set, and a file of 100 numbers on one
    line. *)
Definition unset_config : config_array := fun _ => infinity.

Definition file_100 : FileIn.data_file :=
  {| FileIn.line := 1; FileIn.column := 100; FileIn.read_fails := false |}.

Definition zero_slopes : slopes :=
  {| s_u := [0; 0]; s_p := [0; 0]; s_rho := [0; 0] |}.

End Sample2.

(** * Part II: properties *)

(** ** Tactics and loop lemmas *)

(** Closes [x <> y] for two doubles that evaluate to different values. *)
Ltac float_neq :=
  let Heq := fresh "Heq" in
  intro Heq;
  match type of Heq with
  | ?a = ?b =>
      let Hb := fresh "Hb" in
      assert (Hb : PrimFloat.eqb a a = PrimFloat.eqb a b)
        by (f_equal; exact Heq);
      vm_compute in Hb; discriminate Hb
  end.

Module LoopFacts.

Lemma for_loop_inv {S : Type} (Inv : nat -> S -> Prop)
    (body : nat -> S -> S) :
  forall (n lo : nat) (s : S),
    Inv lo s ->
    (forall j s', lo <= j < lo + n -> Inv j s' -> Inv (Datatypes.S j) (body j s')) ->
    Inv (lo + n) (for_loop n lo body s).
Proof.
  induction n as [|n IH]; intros lo s H0 Hstep; simpl.
  - replace (lo + 0) with lo by lia. exact H0.
  - replace (lo + Datatypes.S n) with (Datatypes.S lo + n) by lia.
    apply IH.
    + apply Hstep; [lia | exact H0].
    + intros j s' Hj. apply Hstep. lia.
Qed.

(** A loop that rewrites cell [i] of a list from the old cell [i]. *)
Lemma for_loop_pointwise {A : Type} `{Inhabited A} (f : nat -> A -> A) :
  forall (n lo : nat) (l : list A) (j : nat),
    lo + n <= length l ->
    for_loop n lo (fun i l' => <[ i := f i (l' !!! i) ]> l') l !!! j
    = if decide (lo <= j < lo + n) then f j (l !!! j) else l !!! j.
Proof.
  induction n as [|n IH]; intros lo l j Hlen; simpl.
  - destruct (decide (lo <= j < lo + 0)); [lia | reflexivity].
  - rewrite IH by (rewrite length_insert; lia).
    destruct (decide (Datatypes.S lo <= j < Datatypes.S lo + n)) as [Hin|Hout].
    + rewrite list_lookup_total_insert_ne by lia.
      destruct (decide (lo <= j < lo + Datatypes.S n)); [reflexivity | lia].
    + destruct (decide (lo <= j < lo + Datatypes.S n)) as [Hin'|Hout'].
      * assert (j = lo) by lia. subst j.
        apply list_lookup_total_insert_eq. lia.
      * apply list_lookup_total_insert_ne. lia.
Qed.

(** A loop that stores a value of its own into cell [i]. *)
Lemma for_loop_store {A : Type} `{Inhabited A} (v : nat -> A)
    (n lo : nat) (l : list A) (j : nat) :
  lo + n <= length l ->
  for_loop n lo (fun i l' => <[ i := v i ]> l') l !!! j
  = if decide (lo <= j < lo + n) then v j else l !!! j.
Proof.
  intros Hlen. exact (for_loop_pointwise (fun i _ => v i) n lo l j Hlen).
Qed.

Lemma for_loop_pointwise_length {A : Type} `{Inhabited A}
    (f : nat -> A -> A) :
  forall (n lo : nat) (l : list A),
    length (for_loop n lo (fun i l' => <[ i := f i (l' !!! i) ]> l') l)
    = length l.
Proof.
  induction n as [|n IH]; intros lo l; simpl; [reflexivity|].
  rewrite IH. apply length_insert.
Qed.

Lemma get2_set2_eq (A : list (list float)) (i j : nat) (v : float) :
  i < length A -> j < length (A !!! i) -> get2 (set2 A i j v) i j = v.
Proof.
  intros Hi Hj. unfold get2, set2.
  rewrite list_lookup_total_insert_eq by exact Hi.
  apply list_lookup_total_insert_eq. exact Hj.
Qed.

Lemma row_set2_ne (A : list (list float)) (i i' j : nat) (v : float) :
  i <> i' -> set2 A i j v !!! i' = A !!! i'.
Proof.
  intros Hne. unfold set2. apply list_lookup_total_insert_ne. exact Hne.
Qed.

Lemma get2_set2_row_ne (A : list (list float)) (i i' j j' : nat) (v : float) :
  i <> i' -> get2 (set2 A i j v) i' j' = get2 A i' j'.
Proof.
  intros Hne. unfold get2. rewrite row_set2_ne by exact Hne. reflexivity.
Qed.

Lemma get2_set2_col_ne (A : list (list float)) (i j j' : nat) (v : float) :
  j <> j' -> get2 (set2 A i j v) i j' = get2 A i j'.
Proof.
  intros Hne. unfold get2, set2.
  destruct (decide (i < length A)) as [Hi|Hi].
  - rewrite list_lookup_total_insert_eq by exact Hi.
    apply list_lookup_total_insert_ne. exact Hne.
  - rewrite list_insert_ge by lia. reflexivity.
Qed.

Lemma length_set2 (A : list (list float)) (i j : nat) (v : float) :
  length (set2 A i j v) = length A.
Proof. unfold set2. apply length_insert. Qed.

Lemma row_length_set2 (A : list (list float)) (i i' j : nat) (v : float) :
  length (set2 A i j v !!! i') = length (A !!! i').
Proof.
  unfold set2. destruct (decide (i = i')) as [->|Hne].
  - destruct (decide (i' < length A)) as [Hi|Hi].
    + rewrite list_lookup_total_insert_eq by exact Hi. apply length_insert.
    + rewrite list_insert_ge by lia. reflexivity.
  - rewrite list_lookup_total_insert_ne by exact Hne. reflexivity.
Qed.

End LoopFacts.

(** ** The limiters (C9) *)

Module LimiterFacts.

Import Limiter.
Local Open Scope R_scope.

Lemma sign_mul_abs (a : R) : sign a * Rabs a = a.
Proof.
  unfold sign; cbn. unfold Rltb.
  destruct (Rlt_dec 0 a) as [Hp|Hp].
  - rewrite Rabs_right by lra. lra.
  - destruct (Rlt_dec a 0) as [Hn|Hn].
    + rewrite Rabs_left by lra. lra.
    + assert (a = 0) by lra. subst. rewrite Rabs_R0. lra.
Qed.

Lemma minmod2_same (a : R) : minmod2 a a = a.
Proof.
  unfold minmod2; cbn. unfold Rleb.
  destruct (Rle_dec (a * a) 0) as [Hle|Hle].
  - assert (0 <= a * a) by apply Rle_0_sqr. nra.
  - rewrite Rmin_left by lra. apply sign_mul_abs.
Qed.

Lemma minmod2_opposite (a : R) : minmod2 a (- a) = 0.
Proof.
  unfold minmod2; cbn. unfold Rleb.
  destruct (Rle_dec (a * - a) 0) as [Hle|Hle]; [reflexivity|].
  exfalso. apply Hle. assert (0 <= a * a) by apply Rle_0_sqr. nra.
Qed.

Lemma minmod3_same (a : R) : minmod3 a a a = a.
Proof.
  unfold minmod3; cbn. unfold Rleb.
  destruct (Rle_dec (a * a) 0) as [Hle|Hle].
  - assert (0 <= a * a) by apply Rle_0_sqr. nra.
  - rewrite (Rmin_left (Rabs a) (Rabs a)) by lra.
    rewrite (Rmin_left (Rabs a) (Rabs a)) by lra. apply sign_mul_abs.
Qed.

(** C9: for every real [a], minmod2(a,a) = a, minmod2(a,-a) = 0 and
    minmod3(a,a,a) = a, for the limiters as the specification defines
    them (zero unless the arguments share a sign, else the sign times
    the least magnitude). *)
Theorem limiter_idempotence (a : R) :
  minmod2 a a = a /\ minmod2 a (- a) = 0 /\ minmod3 a a a = a.
Proof.
  split; [apply minmod2_same|].
  split; [apply minmod2_opposite | apply minmod3_same].
Qed.

End LimiterFacts.

(** ** Boundary handling and slope reconstruction (C6, C3) *)

Module BoundaryFacts.

Import CMath GRP.
Local Open Scope float_scope.

(** The second switch, tag by tag: under Reflective (-2) the two ghost
    velocity slopes are the negated slopes of the adjacent cells; under
    Periodic (-5) the ghost slopes of the three variables are those of the
    opposite edge; under Free (-4) and Initial (-1) the switch leaves the
    ghost slopes as they are, which is zero from their initialisation;
    Reflective+Free (-24) negates on the left only. *)
Lemma boundary_slopes_by_type (m : nat) (s : slopes) (g : ghost_slope) :
  (SUL (boundary_slopes (-2) m s g) = - (s_u s !!! 0%nat)
   /\ SUR (boundary_slopes (-2) m s g) = - (s_u s !!! (m - 1)%nat))
  /\ boundary_slopes (-5) m s g
     = {| SUL := s_u s !!! (m - 1)%nat; SUR := s_u s !!! 0%nat;
          SPL := s_p s !!! (m - 1)%nat; SPR := s_p s !!! 0%nat;
          SRHOL := s_rho s !!! (m - 1)%nat; SRHOR := s_rho s !!! 0%nat |}
  /\ boundary_slopes (-4) m s ghost_slope_init
     = {| SUL := 0; SPL := 0; SRHOL := 0; SUR := 0; SPR := 0; SRHOR := 0 |}
  /\ boundary_slopes (-1) m s ghost_slope_init
     = {| SUL := 0; SPL := 0; SRHOL := 0; SUR := 0; SPR := 0; SRHOR := 0 |}
  /\ boundary_slopes (-24) m s g
     = {| SUL := - (s_u s !!! 0%nat); SUR := SUR g;
          SPL := SPL g; SPR := SPR g; SRHOL := SRHOL g; SRHOR := SRHOR g |}.
Proof. repeat split. Qed.

(** Under Free and Initial the ghost slopes are not touched at all. *)
Lemma boundary_slopes_free_initial (bound : Z) (m : nat) (s : slopes)
    (g : ghost_slope) :
  bound = (-4)%Z \/ bound = (-1)%Z -> boundary_slopes bound m s g = g.
Proof. intros [-> | ->]; reflexivity. Qed.

End BoundaryFacts.

Module ReconstructFacts.

Import CMath GRP Spec LoopFacts.
Local Open Scope float_scope.

Lemma for_loop_ext {S : Type} (body body' : nat -> S -> S) :
  (forall j s, body j s = body' j s) ->
  forall n lo s, for_loop n lo body s = for_loop n lo body' s.
Proof.
  intros Hext. induction n as [|n IH]; intros lo s; simpl; [reflexivity|].
  rewrite Hext. apply IH.
Qed.

(** A loop on three slope arrays that treats each array on its own. *)
Lemma for_loop_slopes (bu bp br : nat -> list float -> list float) :
  forall n lo s,
    for_loop n lo
      (fun j s => {| s_u := bu j (s_u s); s_p := bp j (s_p s);
                     s_rho := br j (s_rho s) |}) s
    = {| s_u := for_loop n lo bu (s_u s);
         s_p := for_loop n lo bp (s_p s);
         s_rho := for_loop n lo br (s_rho s) |}.
Proof.
  induction n as [|n IH]; intros lo s; simpl.
  - destruct s; reflexivity.
  - rewrite IH. reflexivity.
Qed.

Section WithExternals.
Context `{Externals}.

Lemma reconstruct_body_turn (k m : nat) (alpha : float)
    (cv : cell_var_stru) (X : list (list float)) (g : ghost_val)
    (j : nat) (s : slopes) :
  reconstruct_body k m alpha cv X g j s
  = {| s_u := <[ j := turn k m alpha (U cv !!! 0%nat) (UL g) (UR g)
                        (X !!! 0%nat) g j (s_u s !!! j) ]> (s_u s);
       s_p := <[ j := turn k m alpha (P cv !!! 0%nat) (PL g) (PR g)
                        (X !!! 0%nat) g j (s_p s !!! j) ]> (s_p s);
       s_rho := <[ j := turn k m alpha (RHO cv !!! 0%nat) (RHOL g) (RHOR g)
                          (X !!! 0%nat) g j (s_rho s !!! j) ]> (s_rho s) |}.
Proof.
  unfold reconstruct_body, turn, limited_slope, s_L, s_R, Dx_L, Dx_R, get2.
  change (nt - 1)%nat with 0%nat.
  destruct (j =? 0)%nat; destruct (j <? m - 1)%nat; destruct (k =? 1)%nat;
    reflexivity.
Qed.

(** The slope loop, cell by cell, on slope arrays of [m] entries. *)
Lemma reconstruct_at (k m : nat) (alpha : float)
    (cv : cell_var_stru) (X : list (list float)) (g : ghost_val)
    (s : slopes) (j : nat) :
  (j < m)%nat ->
  length (s_u s) = m -> length (s_p s) = m -> length (s_rho s) = m ->
  let s' := reconstruct k m alpha cv X g s in
  let x := X !!! 0%nat in
  let quot (v : list float) (vL vR : float) :=
    (s_L v vL x (HL g) j, s_R m v vR x (HR g) j) in
  let lim (q : float * float) (prev : float) :=
    if (k =? 1)%nat then minmod2 (fst q) (snd q)
    else minmod3 (alpha * fst q) (alpha * snd q) prev in
  s_u s' !!! j = lim (quot (U cv !!! 0%nat) (UL g) (UR g)) (s_u s !!! j)
  /\ s_p s' !!! j = lim (quot (P cv !!! 0%nat) (PL g) (PR g)) (s_p s !!! j)
  /\ s_rho s' !!! j
     = lim (quot (RHO cv !!! 0%nat) (RHOL g) (RHOR g)) (s_rho s !!! j).
Proof.
  intros Hj Hu Hp Hr. cbv zeta. unfold reconstruct.
  rewrite (for_loop_ext _ _ (reconstruct_body_turn k m alpha cv X g)).
  rewrite (for_loop_slopes
             (fun j l => <[ j := turn k m alpha (U cv !!! 0%nat) (UL g) (UR g)
                                   (X !!! 0%nat) g j (l !!! j) ]> l)
             (fun j l => <[ j := turn k m alpha (P cv !!! 0%nat) (PL g) (PR g)
                                   (X !!! 0%nat) g j (l !!! j) ]> l)
             (fun j l => <[ j := turn k m alpha (RHO cv !!! 0%nat) (RHOL g) (RHOR g)
                                   (X !!! 0%nat) g j (l !!! j) ]> l)).
  cbn [s_u s_p s_rho].
  rewrite !for_loop_pointwise by lia.
  destruct (decide (0 <= j < 0 + m)%nat) as [_|Hn]; [|lia].
  unfold turn, limited_slope. cbn [fst snd]. repeat split.
Qed.

End WithExternals.

End ReconstructFacts.

(** ** Doubles: multiplication commutes *)

Module FloatFacts.

Local Open Scope float_scope.

Lemma SFmul_comm (x y : spec_float) :
  SFmul prec emax x y = SFmul prec emax y x.
Proof.
  destruct x as [sx|sx| |sx mx ex], y as [sy|sy| |sy my ey]; simpl;
    try reflexivity; try (rewrite xorb_comm; reflexivity).
  rewrite xorb_comm, Pos.mul_comm, Z.add_comm. reflexivity.
Qed.

Lemma mul_comm (x y : float) : x * y = y * x.
Proof.
  apply Prim2SF_inj. rewrite !mul_spec. apply SFmul_comm.
Qed.

Lemma finite_cases (x : float) :
  is_finite x = true ->
  (exists s, Prim2SF x = S754_zero s)
  \/ (exists s m e, Prim2SF x = S754_finite s m e).
Proof.
  unfold is_finite, is_nan, is_infinity.
  rewrite !FloatAxioms.eqb_spec, abs_spec.
  destruct (Prim2SF x) as [s|s| |s m e] eqn:E.
  - intros _. left. exists s. reflexivity.
  - cbn. rewrite orb_true_r. discriminate.
  - cbn. discriminate.
  - intros _. right. exists s, m, e. reflexivity.
Qed.

Lemma SFltb_zero_sign (y : spec_float) (s s' : bool) :
  SFltb y (S754_zero s) = SFltb y (S754_zero s').
Proof. destruct y; reflexivity. Qed.

(** For a finite [x], [x + (x - x)] compares as [x] does. *)
Lemma ltb_add_sub_self (x y : float) :
  is_finite x = true -> (y <? x + (x - x)) = (y <? x).
Proof.
  intros Hfin. rewrite !ltb_spec, add_spec, sub_spec.
  destruct (finite_cases x Hfin) as [[s ->] | (s & m & e & ->)].
  - destruct s; cbn; apply SFltb_zero_sign.
  - unfold SF64sub, SFsub. cbv zeta. rewrite Z.sub_diag.
    cbn [binary_normalize]. reflexivity.
Qed.

End FloatFacts.

(** ** The interface loop *)

Module IfaceFacts.

Import CMath GRP Spec LoopFacts.
Local Open Scope float_scope.

Lemma for_loop_exit_inl {S Err : Type} (body : nat -> S -> S + Err)
    (turn : nat -> S -> S) :
  (forall j s s', body j s = inl s' -> s' = turn j s) ->
  forall n lo s r,
    for_loop_exit n lo body s = inl r -> r = for_loop n lo turn s.
Proof.
  intros Hturn. induction n as [|n IH]; intros lo s r; simpl.
  - intros [= <-]. reflexivity.
  - destruct (body lo s) as [s'|e] eqn:Hb; [|discriminate].
    intros Hr. apply Hturn in Hb. subst s'. apply IH. exact Hr.
Qed.

Lemma seq_snoc (lo n : nat) : seq lo (Datatypes.S n) = seq lo n ++ [(lo + n)%nat].
Proof. rewrite <- Nat.add_1_r. rewrite seq_app. reflexivity. Qed.

Section WithExternals.
Context `{Externals}.
Variables (par : params) (k m : nat) (cv : cell_var_stru)
  (X : list (list float)) (g : ghost_val) (gsl : ghost_slope)
  (s : slopes).

Lemma iface_body_turn (j : nat) (st st' : iface_state) :
  iface_body par k m cv X g gsl s j st = inl st' ->
  st' = iface_turn par k m cv X g gsl s j st.
Proof.
  unfold iface_body, iface_turn, star_flagged, star_messages, ratio.
  destruct (left_state cv X g gsl s j) as [[[hL rL] uL] pL].
  destruct (right_state m cv X g gsl s j) as [[[hR rR] uR] pR].
  destruct (reconstruction_negative par rL pL rR pR); [discriminate|].
  destruct (reconstruction_not_finite rL uL pL rR uR pR); [discriminate|].
  intros [= <-]. reflexivity.
Qed.

Lemma iface_loop_turns (st i : iface_state) :
  iface_loop par k m cv X g gsl s st = inl i ->
  i = for_loop (m + 1) 0 (iface_turn par k m cv X g gsl s) st.
Proof.
  unfold iface_loop. apply for_loop_exit_inl. apply iface_body_turn.
Qed.

(** The least ratio: the loop folds [fmin] over both sides of every
    interface. *)
Lemma turns_h_S_max (st : iface_state) (n : nat) :
  h_S_max (for_loop n 0 (iface_turn par k m cv X g gsl s) st)
  = fold_left fmin
      (flat_map (fun j => [ratio (gamma par) (left_state cv X g gsl s j);
                           ratio (gamma par) (right_state m cv X g gsl s j)])
                (seq 0 n))
      (h_S_max st).
Proof.
  change n with (0 + n)%nat at 1.
  apply (for_loop_inv
           (fun j st' =>
              h_S_max st'
              = fold_left fmin
                  (flat_map (fun j => [ratio (gamma par) (left_state cv X g gsl s j);
                                       ratio (gamma par) (right_state m cv X g gsl s j)])
                            (seq 0 j))
                  (h_S_max st))).
  - reflexivity.
  - intros j st' _ IH. rewrite seq_snoc, flat_map_app, fold_left_app.
    rewrite <- IH. reflexivity.
Qed.

(** The time: set to [t_all] as soon as one star state is flagged, and
    never set back. *)
Lemma turns_time_c (st : iface_state) (n : nat) :
  i_time_c (for_loop n 0 (iface_turn par k m cv X g gsl s) st)
  = if existsb (star_flagged par m cv X g gsl s) (seq 0 n)
    then t_all par else i_time_c st.
Proof.
  change n with (0 + n)%nat at 1.
  apply (for_loop_inv
           (fun j st' =>
              i_time_c st'
              = if existsb (star_flagged par m cv X g gsl s) (seq 0 j)
                then t_all par else i_time_c st)).
  - reflexivity.
  - intros j st' _ IH. rewrite seq_snoc, existsb_app. simpl.
    rewrite orb_false_r. cbn [iface_turn i_time_c]. rewrite IH.
    destruct (star_flagged par m cv X g gsl s j);
      [rewrite orb_true_r; reflexivity | rewrite orb_false_r; reflexivity].
Qed.

(** The output: the star messages of the interfaces, in order. *)
Lemma turns_out (st : iface_state) (n : nat) :
  i_out (for_loop n 0 (iface_turn par k m cv X g gsl s) st)
  = i_out st ++ flat_map (star_messages par k m cv X g gsl s) (seq 0 n).
Proof.
  change n with (0 + n)%nat at 1.
  apply (for_loop_inv
           (fun j st' =>
              i_out st'
              = i_out st
                ++ flat_map (star_messages par k m cv X g gsl s) (seq 0 j))).
  - simpl. rewrite app_nil_r. reflexivity.
  - intros j st' _ IH. rewrite seq_snoc, flat_map_app. simpl.
    rewrite app_nil_r. cbn [iface_turn i_out]. rewrite IH.
    rewrite <- app_assoc. reflexivity.
Qed.

Lemma store_star_sized (n j : nat) (sol : vec3 * vec3) (nxt : iface) :
  iface_sized n nxt -> iface_sized n (store_star j sol nxt).
Proof.
  destruct sol as [[[d0 d1] d2] [[v0 v1] v2]].
  unfold iface_sized, store_star; cbn.
  rewrite !length_insert. tauto.
Qed.

Lemma store_star_at (n j : nat) (sol : vec3 * vec3) (nxt : iface) :
  iface_sized n nxt -> (j < n)%nat ->
  (deriv_at (store_star j sol nxt) j, next_at (store_star j sol nxt) j) = sol.
Proof.
  destruct sol as [[[d0 d1] d2] [[v0 v1] v2]].
  unfold iface_sized, store_star, deriv_at, next_at; cbn.
  intros (H1 & H2 & H3 & H4 & H5 & H6) Hj.
  rewrite !list_lookup_total_insert_eq by lia. reflexivity.
Qed.

Lemma store_star_other (i j : nat) (sol : vec3 * vec3) (nxt : iface) :
  i <> j ->
  deriv_at (store_star j sol nxt) i = deriv_at nxt i
  /\ next_at (store_star j sol nxt) i = next_at nxt i.
Proof.
  destruct sol as [[[d0 d1] d2] [[v0 v1] v2]].
  unfold store_star, deriv_at, next_at; cbn. intros Hne.
  rewrite !list_lookup_total_insert_ne by lia. split; reflexivity.
Qed.

(** The arrays: entry [j] holds what the solver returned for
    interface [j]. *)
Lemma turns_store (st : iface_state) (n : nat) :
  iface_sized (m + 1) (i_nx st) -> (n <= m + 1)%nat ->
  let i := for_loop n 0 (iface_turn par k m cv X g gsl s) st in
  iface_sized (m + 1) (i_nx i)
  /\ forall j, (j < n)%nat ->
       (deriv_at (i_nx i) j, next_at (i_nx i) j)
       = solve_interface par m cv X g gsl s j.
Proof.
  intros Hsz Hn. cbv zeta. change n with (0 + n)%nat at 1 2.
  apply (for_loop_inv
           (fun j' st' =>
              iface_sized (m + 1) (i_nx st')
              /\ forall j, (j < j')%nat ->
                   (deriv_at (i_nx st') j, next_at (i_nx st') j)
                   = solve_interface par m cv X g gsl s j)).
  - split; [exact Hsz | intros j Hj; lia].
  - intros j' st' Hj' [IHsz IH]. cbn [iface_turn i_nx]. split.
    + apply store_star_sized. exact IHsz.
    + intros j Hj. destruct (decide (j = j')) as [->|Hne].
      * apply (store_star_at (m + 1)); [exact IHsz | lia].
      * destruct (store_star_other j j'
                    (solve_interface par m cv X g gsl s j') (i_nx st') Hne)
          as [-> ->].
        apply IH. lia.
Qed.

End WithExternals.

End IfaceFacts.

(** ** The flux loop (C1) *)

Module FluxFacts.

Import CMath GRP Spec LoopFacts IfaceFacts.
Local Open Scope float_scope.

(** The fluxes as the code multiplies them out. *)
Lemma fluxes_code (gamma : float) (rho u p : float) :
  fluxes gamma (rho, u, p)
  = (rho * u, rho * u * u + p,
     (gamma / (gamma - 1.0) * p + 0.5 * (rho * u) * u) * u).
Proof.
  unfold fluxes. rewrite (FloatFacts.mul_comm u). reflexivity.
Qed.

Lemma flux_body_sized (gamma tau : float) (n j : nat) (st : flux_state) :
  iface_sized n (f_nx st) /\ flux_sized n (f_fl st) ->
  iface_sized n (f_nx (flux_body gamma tau j st))
  /\ flux_sized n (f_fl (flux_body gamma tau j st)).
Proof.
  unfold iface_sized, flux_sized, flux_body; cbn.
  rewrite !length_insert. tauto.
Qed.

Lemma flux_body_at (gamma tau : float) (n j : nat) (st : flux_state) :
  iface_sized n (f_nx st) -> flux_sized n (f_fl st) -> (j < n)%nat ->
  let hat := advance tau (deriv_at (f_nx st) j) (next_at (f_nx st) j) in
  flux_at (f_fl (flux_body gamma tau j st)) j = fluxes gamma hat
  /\ next_at (f_nx (flux_body gamma tau j st)) j
     = advance tau (deriv_at (f_nx st) j) hat.
Proof.
  intros (H1 & H2 & H3 & H4 & H5 & H6) (G1 & G2 & G3) Hj. cbv zeta.
  unfold advance, deriv_at, next_at. rewrite fluxes_code.
  unfold flux_at, flux_body; cbn.
  rewrite !list_lookup_total_insert_eq by lia. split; reflexivity.
Qed.

Lemma flux_body_other (gamma tau : float) (i j : nat) (st : flux_state) :
  i <> j ->
  flux_at (f_fl (flux_body gamma tau j st)) i = flux_at (f_fl st) i
  /\ next_at (f_nx (flux_body gamma tau j st)) i = next_at (f_nx st) i.
Proof.
  intros Hne. unfold flux_at, next_at, flux_body; cbn.
  rewrite !list_lookup_total_insert_ne by lia. split; reflexivity.
Qed.

Lemma flux_body_deriv (gamma tau : float) (i j : nat) (st : flux_state) :
  deriv_at (f_nx (flux_body gamma tau j st)) i = deriv_at (f_nx st) i.
Proof. reflexivity. Qed.

(** The flux loop, interface by interface: the fluxes of [j] come from
    the entry state advanced once, and the stored state is advanced
    twice. *)
Lemma flux_loop_at (gamma tau : float) (m : nat) (st : flux_state) :
  iface_sized (m + 1) (f_nx st) -> flux_sized (m + 1) (f_fl st) ->
  forall j, (j <= m)%nat ->
    let hat := advance tau (deriv_at (f_nx st) j) (next_at (f_nx st) j) in
    flux_at (f_fl (flux_loop gamma tau m st)) j = fluxes gamma hat
    /\ next_at (f_nx (flux_loop gamma tau m st)) j
       = advance tau (deriv_at (f_nx st) j) hat.
Proof.
  intros Hsz Hfz. unfold flux_loop.
  assert (Hinv :
    (fun n st' =>
       (iface_sized (m + 1) (f_nx st') /\ flux_sized (m + 1) (f_fl st'))
       /\ (forall j, deriv_at (f_nx st') j = deriv_at (f_nx st) j)
       /\ (forall j, (n <= j)%nat -> next_at (f_nx st') j = next_at (f_nx st) j)
       /\ (forall j, (j < n)%nat ->
             flux_at (f_fl st') j
             = fluxes gamma (advance tau (deriv_at (f_nx st) j) (next_at (f_nx st) j))
             /\ next_at (f_nx st') j
                = advance tau (deriv_at (f_nx st) j)
                    (advance tau (deriv_at (f_nx st) j) (next_at (f_nx st) j))))
      (0 + (m + 1))%nat (for_loop (m + 1) 0 (flux_body gamma tau) st)).
  { apply for_loop_inv.
    - repeat split; try tauto; try apply Hsz; try apply Hfz; intros; lia.
    - intros n st' Hn (Hs & Hd & Hge & Hlt). split; [|split; [|split]].
      + apply flux_body_sized. exact Hs.
      + intros j. rewrite flux_body_deriv. apply Hd.
      + intros j Hj.
        destruct (flux_body_other gamma tau j n st') as [_ ->]; [lia|].
        apply Hge. lia.
      + intros j Hj. destruct (decide (j = n)) as [->|Hne].
        * destruct (flux_body_at gamma tau (m + 1) n st') as [E1 E2];
            [tauto | tauto | lia |].
          rewrite E1, E2, Hd, Hge by lia. split; reflexivity.
        * destruct (flux_body_other gamma tau j n st' Hne) as [-> ->].
          apply Hlt. lia. }
  intros j Hj. cbv zeta. apply Hinv. lia.
Qed.

End FluxFacts.

Module FluxClaims.

Import CMath GRP Spec LoopFacts IfaceFacts FluxFacts.
Local Open Scope float_scope.

(** The interface loop followed by the flux loop, interface by interface,
    on arrays of [m + 1] entries. *)
Lemma flux_loop_from_star `{Externals} (par : params) (k m : nat)
    (cv : cell_var_stru) (X : list (list float)) (g : ghost_val)
    (gsl : ghost_slope) (s : slopes) (st i : iface_state)
    (tau : float) (fl0 : flux) (X0 : list (list float)) (j : nat) :
  iface_loop par k m cv X g gsl s st = inl i ->
  iface_sized (m + 1) (i_nx st) -> flux_sized (m + 1) fl0 ->
  (j <= m)%nat ->
  let dire := fst (solve_interface par m cv X g gsl s j) in
  let mid := snd (solve_interface par m cv X g gsl s j) in
  let hat := advance tau dire mid in
  let st' := flux_loop (gamma par) tau m
               {| f_nx := i_nx i; f_fl := fl0; f_X := X0 |} in
  flux_at (f_fl st') j = fluxes (gamma par) hat
  /\ next_at (f_nx st') j = advance tau dire hat.
Proof.
  intros Hloop Hsz Hfz Hj. cbv zeta.
  apply iface_loop_turns in Hloop. subst i.
  destruct (turns_store par k m cv X g gsl s st (m + 1) Hsz (Nat.le_refl _))
    as [Hsz' Hat].
  specialize (Hat j ltac:(lia)).
  destruct (flux_loop_at (gamma par) tau m
              {| f_nx := i_nx (for_loop (m + 1) 0 (iface_turn par k m cv X g gsl s) st);
                 f_fl := fl0; f_X := X0 |} Hsz' Hfz j Hj) as [E1 E2].
  cbn [f_nx f_fl] in E1, E2. rewrite E1, E2. rewrite <- Hat. cbn [fst snd].
  split; reflexivity.
Qed.

(** One interface with star state (1, 1, 1), time derivative (1, 1, 1)
    and time step 1: the flux is taken at 1.5 and the state the loop
    stores is 2, the star state advanced by two half steps and not by
    one. *)
Lemma half_step_is_added_twice :
  RHO_next (f_nx (flux_loop 1.5 1 0 Sample.one_interface)) !!! 0%nat = 2
  /\ F1 (f_fl (flux_loop 1.5 1 0 Sample.one_interface)) !!! 0%nat = 1.5 * 1.5
  /\ next_at (f_nx (flux_loop 1.5 1 0 Sample.one_interface)) 0
     <> advance 1 (deriv_at (f_nx Sample.one_interface) 0)
          (next_at (f_nx Sample.one_interface) 0).
Proof.
  split; [vm_compute; reflexivity|]. split; [vm_compute; reflexivity|].
  intros Heq. apply (f_equal (fun v : vec3 => fst (fst v))) in Heq.
  revert Heq. float_neq.
Qed.

End FluxClaims.

(** ** The time step (C2) *)

Module TimeStepFacts.

Import CMath GRP Spec LoopFacts IfaceFacts.
Local Open Scope float_scope.

Section WithExternals.
Context `{Externals}.

(** A turn that is not left through [return_NULL] went through the two
    switches and the interface loop. *)
Lemma step_finished (par : params) (m k : nat) (s s' : state) :
  step par m k s = Continue s' \/ step par m k s = Break s' ->
  exists fb g msgs i,
    boundary_values (bound par) m (h par) (CV s) (X s) (find_bound s) (gv s)
    = Some (fb, g, msgs)
    /\ iface_loop par k m (CV s) (X s) g
         (boundary_slopes (bound par) m
            (reconstruct k m (alpha par) (CV s) (X s) g (sl s)) (gs s))
         (reconstruct k m (alpha par) (CV s) (X s) g (sl s))
         {| h_S_max := INFINITY; i_time_c := time_c s;
            i_nx := nx s; i_out := out s ++ msgs |} = inl i
    /\ step par m k s
       = finish_step par m k s fb g
           (boundary_slopes (bound par) m
              (reconstruct k m (alpha par) (CV s) (X s) g (sl s)) (gs s))
           (reconstruct k m (alpha par) (CV s) (X s) g (sl s)) i.
Proof.
  unfold step.
  destruct (boundary_values (bound par) m (h par) (CV s) (X s)
              (find_bound s) (gv s)) as [[[fb g] msgs]|];
    [|intros [Hc|Hb]; discriminate].
  cbv zeta.
  destruct (iface_loop par k m (CV s) (X s) g _ _ _) as [i|o] eqn:Hi;
    [|intros [Hc|Hb]; discriminate].
  intros _. exists fb, g, msgs, i. repeat split. exact Hi.
Qed.

Lemma finish_step_tau (par : params) (m k : nat) (s s' : state)
    (fb : bool) (g : ghost_val) (gsl : ghost_slope) (s1 : slopes)
    (i : iface_state) :
  finish_step par m k s fb g gsl s1 i = Continue s'
  \/ finish_step par m k s fb g gsl s1 i = Break s' ->
  tau s' = time_step par (config s) (h_S_max i) (i_time_c i) (tau s).
Proof.
  unfold finish_step. destruct (time_is_up par _);
    intros [Hc|Hb]; try discriminate.
  - injection Hb as <-. reflexivity.
  - injection Hc as <-. reflexivity.
Qed.

(** The time step of one turn, from the state the turn starts in. *)
Lemma step_time_step (par : params) (m k : nat) (s s' : state)
    (fb : bool) (g : ghost_val) (msgs : list event) :
  boundary_values (bound par) m (h par) (CV s) (X s) (find_bound s) (gv s)
  = Some (fb, g, msgs) ->
  step par m k s = Continue s' \/ step par m k s = Break s' ->
  let s1 := reconstruct k m (alpha par) (CV s) (X s) g (sl s) in
  let gsl := boundary_slopes (bound par) m s1 (gs s) in
  let hs := min_ratio (gamma par) m (CV s) (X s) g gsl s1 in
  let t := if existsb (star_flagged par m (CV s) (X s) g gsl s1) (seq 0 (m + 1))
           then t_all par else time_c s in
  tau s'
  = if isfinite (t_all par) || negb (isfinite (config s 16%nat))
       || (config s 16%nat <=? 0.0)
    then if gtb (t + CFL par * hs) (t_all par - eps par)
         then t_all par - t else CFL par * hs
    else tau s.
Proof.
  intros Hbv Hstep. cbv zeta.
  destruct (step_finished par m k s s' Hstep)
    as (fb' & g' & msgs' & i & Hbv' & Hloop & Hfin).
  rewrite Hbv in Hbv'. injection Hbv' as <- <- <-.
  rewrite Hfin in Hstep. rewrite (finish_step_tau _ _ _ _ _ _ _ _ _ _ Hstep).
  apply iface_loop_turns in Hloop. subst i.
  rewrite turns_h_S_max, turns_time_c. reflexivity.
Qed.

(** The ghost slopes a turn leaves are the ones of its second switch. *)
Lemma step_ghost_slopes (par : params) (m k : nat) (s s' : state)
    (fb : bool) (g : ghost_val) (msgs : list event) :
  boundary_values (bound par) m (h par) (CV s) (X s) (find_bound s) (gv s)
  = Some (fb, g, msgs) ->
  step par m k s = Continue s' \/ step par m k s = Break s' ->
  gs s' = boundary_slopes (bound par) m
            (reconstruct k m (alpha par) (CV s) (X s) g (sl s)) (gs s).
Proof.
  intros Hbv Hstep.
  destruct (step_finished par m k s s' Hstep)
    as (fb' & g' & msgs' & i & Hbv' & _ & Hfin).
  rewrite Hbv in Hbv'. injection Hbv' as <- <- <-.
  rewrite Hfin in Hstep. unfold finish_step in Hstep.
  destruct (time_is_up par _); destruct Hstep as [Hc|Hb]; try discriminate.
  - injection Hb as <-. reflexivity.
  - injection Hc as <-. reflexivity.
Qed.

(** Under Free and Initial the ghost slopes stay what they were on entry
    to the march, that is zero. *)
Lemma free_initial_ghost_slopes_stay (par : params) (m k : nat)
    (s s' : state) :
  bound par = (-4)%Z \/ bound par = (-1)%Z ->
  step par m k s = Continue s' \/ step par m k s = Break s' ->
  gs s' = gs s.
Proof.
  intros Hb Hstep.
  destruct (step_finished par m k s s' Hstep)
    as (fb & g & msgs & i & Hbv & _ & _).
  rewrite (step_ghost_slopes par m k s s' fb g msgs Hbv Hstep).
  apply BoundaryFacts.boundary_slopes_free_initial. exact Hb.
Qed.

End WithExternals.

End TimeStepFacts.

(** ** The grid (C10) *)

Module GridFacts.

Import CMath GRP Spec LoopFacts IfaceFacts TimeStepFacts Hydrocode1D.
Local Open Scope float_scope.

(** A loop on a record whose one component evolves on its own. *)
Lemma for_loop_component {S T : Type} (proj : S -> T) (body : nat -> S -> S)
    (bt : nat -> T -> T) :
  (forall j s, proj (body j s) = bt j (proj s)) ->
  forall n lo s, proj (for_loop n lo body s) = for_loop n lo bt (proj s).
Proof.
  intros Hb. induction n as [|n IH]; intros lo s; simpl; [reflexivity|].
  rewrite IH, Hb. reflexivity.
Qed.

Lemma set2_same (A : list (list float)) (i j : nat) :
  set2 A i j (get2 A i j) = A.
Proof.
  unfold set2, get2.
  destruct (decide (i < length A)%nat) as [Hi|Hi];
    [|apply list_insert_ge; lia].
  apply list_insert_id.
  destruct (decide (j < length (A !!! i))%nat) as [Hj|Hj].
  - rewrite (list_insert_id (A !!! i) j ((A !!! i) !!! j)).
    + apply list_lookup_lookup_total_lt. exact Hi.
    + apply list_lookup_lookup_total_lt. exact Hj.
  - rewrite list_insert_ge by lia.
    apply list_lookup_lookup_total_lt. exact Hi.
Qed.

(** The flux loop touches [X] through line 363 only. *)
Lemma flux_loop_X (gamma tau : float) (m : nat) (st : flux_state) :
  f_X (flux_loop gamma tau m st) = grid_copy m (f_X st).
Proof.
  unfold flux_loop, grid_copy.
  apply (for_loop_component f_X (flux_body gamma tau)
           (fun j X => set2 X nt j (get2 X (nt - 1) j))).
  reflexivity.
Qed.

(** Where the new row already equals the old one, the copy changes nothing. *)
Lemma grid_copy_fixed (m : nat) (X : list (list float)) :
  (forall j, (j <= m)%nat -> get2 X nt j = get2 X (nt - 1) j) ->
  grid_copy m X = X.
Proof.
  intros Heq. unfold grid_copy.
  apply (for_loop_inv (fun (_ : nat) X' => X' = X)
           (fun j X => set2 X nt j (get2 X (nt - 1) j)) (m + 1) 0 X);
    [reflexivity|].
  intros j X' Hj ->. rewrite <- Heq by lia. apply set2_same.
Qed.

Section WithExternals.
Context `{Externals}.

Lemma finish_step_X (par : params) (m k : nat) (s s' : state)
    (fb : bool) (g : ghost_val) (gsl : ghost_slope) (s1 : slopes)
    (i : iface_state) :
  finish_step par m k s fb g gsl s1 i = Continue s'
  \/ finish_step par m k s fb g gsl s1 i = Break s' ->
  X s' = grid_copy m (X s).
Proof.
  unfold finish_step. destruct (time_is_up par _);
    intros [Hc|Hb]; try discriminate.
  - injection Hb as <-. cbn [X]. apply flux_loop_X.
  - injection Hc as <-. cbn [X]. apply flux_loop_X.
Qed.

(** A turn writes [X] only by copying row [nt-1] onto row [nt]. *)
Lemma step_X (par : params) (m k : nat) (s : state) :
  match step par m k s with
  | Continue s' | Break s' => X s' = grid_copy m (X s)
  | Return_NULL s' => X s' = X s
  end.
Proof.
  destruct (step par m k s) as [s'|s'|s'] eqn:Hstep.
  - destruct (step_finished par m k s s' (or_introl Hstep))
      as (fb & g & msgs & i & _ & _ & Hfin).
    rewrite Hfin in Hstep. apply (finish_step_X _ _ _ _ _ _ _ _ _ _ (or_introl Hstep)).
  - destruct (step_finished par m k s s' (or_intror Hstep))
      as (fb & g & msgs & i & _ & _ & Hfin).
    rewrite Hfin in Hstep. apply (finish_step_X _ _ _ _ _ _ _ _ _ _ (or_intror Hstep)).
  - unfold step in Hstep.
    destruct (boundary_values _ _ _ _ _ _ _) as [[[fb g] msgs]|].
    + cbv zeta in Hstep.
      destruct (iface_loop _ _ _ _ _ _ _ _ _) as [i|o].
      * unfold finish_step in Hstep. destruct (time_is_up par _); discriminate.
      * injection Hstep as <-. reflexivity.
    + injection Hstep as <-. reflexivity.
Qed.

(** The whole march leaves a grid alone whose row [nt] equals row [nt-1]. *)
Lemma main_loop_X (par : params) (m : nat) :
  forall n k s,
    grid_copy m (X s) = X s ->
    X (snd (main_loop par m n k s)) = X s.
Proof.
  induction n as [|n IH]; intros k s Hfix; simpl; [reflexivity|].
  pose proof (step_X par m k s) as HX.
  destruct (step par m k s) as [s'|s'|s']; simpl.
  - rewrite IH; rewrite HX, Hfix; [reflexivity | exact Hfix].
  - rewrite HX. exact Hfix.
  - exact HX.
Qed.

End WithExternals.

(** The grid [main] sets up. *)

Lemma set2_out_of_range (A : list (list float)) (i j : nat) (v : float) :
  (length A <= i)%nat -> set2 A i j v = A.
Proof. intros Hi. unfold set2. apply list_insert_ge. exact Hi. Qed.

Lemma grid_copy_no_row (m : nat) (X : list (list float)) :
  (length X <= nt)%nat -> grid_copy m X = X.
Proof.
  intros Hlen. unfold grid_copy.
  apply (for_loop_inv (fun (_ : nat) X' => X' = X)
           (fun j X => set2 X nt j (get2 X (nt - 1) j)) (m + 1) 0 X);
    [reflexivity|].
  intros j X' Hj ->. apply set2_out_of_range. exact Hlen.
Qed.

Lemma shaped_set2 (N w : nat) (A : list (list float)) (i j : nat) (v : float) :
  shaped N w A -> shaped N w (set2 A i j v).
Proof.
  intros [HN Hw]. split.
  - rewrite length_set2. exact HN.
  - intros k Hk. rewrite row_length_set2. apply Hw. exact Hk.
Qed.

Lemma shaped_replicate (N w : nat) : shaped N w (replicate N (replicate w 0)).
Proof.
  split.
  - apply length_replicate.
  - intros k Hk. rewrite lookup_total_replicate_2 by exact Hk.
    apply length_replicate.
Qed.

Lemma init_X0_spec (h : float) (m N : nat) (A : list (list float)) :
  shaped N (m + 1) A -> (1 <= N)%nat ->
  shaped N (m + 1) (init_X0 h m A)
  /\ forall j, (j <= m)%nat -> get2 (init_X0 h m A) 0 j = h * of_nat j.
Proof.
  intros Hsh HN. unfold init_X0.
  assert (Hinv :
    (fun n A' => shaped N (m + 1) A'
                 /\ forall j, (j < n)%nat -> get2 A' 0 j = h * of_nat j)
      (0 + (m + 1))%nat
      (for_loop (m + 1) 0 (fun j X => set2 X 0 j (h * of_nat j)) A)).
  { apply for_loop_inv.
    - split; [exact Hsh | intros j Hj; lia].
    - intros n A' Hn [Hsh' IH]. split; [apply shaped_set2; exact Hsh'|].
      intros j Hj. destruct (decide (j = n)) as [->|Hne].
      + destruct Hsh' as [HN' Hw']. apply get2_set2_eq; [lia|].
        rewrite Hw' by lia. lia.
      + rewrite get2_set2_col_ne by lia. apply IH. lia. }
  destruct Hinv as [Hsh' Hat]. split; [exact Hsh'|].
  intros j Hj. apply Hat. lia.
Qed.

Lemma init_X0_shaped (h : float) (m N : nat) (A : list (list float)) :
  shaped N (m + 1) A -> shaped N (m + 1) (init_X0 h m A).
Proof.
  intros Hsh. unfold init_X0.
  apply (for_loop_inv (fun (_ : nat) A' => shaped N (m + 1) A')
           (fun j X => set2 X 0 j (h * of_nat j)) (m + 1) 0 A Hsh).
  intros j A' _ Hsh'. now apply shaped_set2.
Qed.

(** The inner loop of lines 242-244 for one row [k >= 1]. *)
Lemma copy_row_spec (m N k : nat) (A : list (list float)) :
  shaped N (m + 1) A -> (1 <= k < N)%nat ->
  let A' := for_loop (m + 1) 0 (fun j X => set2 X k j (get2 X 0 j)) A in
  shaped N (m + 1) A'
  /\ (forall i, i <> k -> A' !!! i = A !!! i)
  /\ forall j, (j <= m)%nat -> get2 A' k j = get2 A 0 j.
Proof.
  intros Hsh Hk. cbv zeta.
  assert (Hinv :
    (fun n A' => shaped N (m + 1) A'
                 /\ (forall i, i <> k -> A' !!! i = A !!! i)
                 /\ forall j, (j < n)%nat -> get2 A' k j = get2 A 0 j)
      (0 + (m + 1))%nat
      (for_loop (m + 1) 0 (fun j X => set2 X k j (get2 X 0 j)) A)).
  { apply for_loop_inv.
    - split; [exact Hsh|]. split; [reflexivity | intros j Hj; lia].
    - intros n A' Hn (Hsh' & Hrows & IH).
      split; [apply shaped_set2; exact Hsh'|]. split.
      + intros i Hi. rewrite row_set2_ne by congruence. apply Hrows. exact Hi.
      + intros j Hj. destruct (decide (j = n)) as [->|Hne].
        * destruct Hsh' as [HN' Hw'].
          rewrite get2_set2_eq; [|lia|rewrite Hw' by lia; lia].
          unfold get2. rewrite Hrows by lia. reflexivity.
        * rewrite get2_set2_col_ne by lia. apply IH. lia. }
  destruct Hinv as (Hsh' & Hrows & Hat). split; [exact Hsh'|].
  split; [exact Hrows|]. intros j Hj. apply Hat. lia.
Qed.

Lemma copy_X0_spec (m N : nat) (A : list (list float)) :
  shaped N (m + 1) A ->
  shaped N (m + 1) (copy_X0 m N A)
  /\ copy_X0 m N A !!! 0%nat = A !!! 0%nat
  /\ forall k j, (1 <= k < N)%nat -> (j <= m)%nat ->
       get2 (copy_X0 m N A) k j = get2 A 0 j.
Proof.
  intros Hsh. unfold copy_X0.
  assert (Hinv :
    (fun n A' => shaped N (m + 1) A'
                 /\ A' !!! 0%nat = A !!! 0%nat
                 /\ forall k j, (1 <= k < n)%nat -> (j <= m)%nat ->
                      get2 A' k j = get2 A 0 j)
      (1 + (N - 1))%nat
      (for_loop (N - 1) 1
         (fun k X => for_loop (m + 1) 0 (fun j X => set2 X k j (get2 X 0 j)) X)
         A)).
  { apply for_loop_inv.
    - split; [exact Hsh|]. split; [reflexivity | intros k j Hk; lia].
    - intros n A' Hn (Hsh' & H0 & IH).
      destruct (copy_row_spec m N n A' Hsh' ltac:(lia)) as (Hsh2 & Hrows & Hat).
      split; [exact Hsh2|]. split.
      + rewrite Hrows by lia. exact H0.
      + intros k j Hk Hj. destruct (decide (k = n)) as [->|Hne].
        * rewrite Hat by exact Hj. unfold get2. rewrite H0. reflexivity.
        * unfold get2. rewrite Hrows by exact Hne. apply IH; lia. }
  destruct Hinv as (Hsh' & H0 & Hat). split; [exact Hsh'|].
  split; [exact H0|]. intros k j Hk Hj. apply Hat; lia.
Qed.

Section Main.
Context `{Externals} `{Marches}.

(** C10: in an Eulerian run the grid never moves.  [main] sets
    X[0][j] = h * j and copies row 0 to every stored row (lines 217-218
    and 242-244), and it passes X to neither Eulerian march (lines 248
    and 251): whatever the order and whatever the march does, every
    stored row is row 0 and row 0 is j * h, for j = 0..m.  The march of
    GRP_solver_ALE_source.c, which is passed X, writes it in each step
    only by copying row nt-1 to row nt (line 363), so that run on the
    grid of [main] it leaves that grid as it is. *)
Theorem grid_never_moves (config : config_array) (FV0 : flu_var) (N : nat)
    (time_plot : list float) :
  int_castable (config 3%nat) -> int_castable (config 9%nat) ->
  let m := Z.to_nat (to_int (config 3%nat)) in
  let r := main config FV0 N time_plot EUL in
  (forall k j, (k < N)%nat -> (j <= m)%nat ->
     get2 (r_X r) k j = get2 (r_X r) 0 j
     /\ get2 (r_X r) 0 j = of_nat j * config 10%nat)
  /\ (forall (par : params) (k : nat) (s : state),
        match step par m k s with
        | Continue s' | Break s' => X s' = grid_copy m (X s)
        | Return_NULL s' => X s' = X s
        end)
  /\ (forall (cv : cell_var_stru) (cpu : list float) (cfg : config_array),
        X (snd (GRP_solver_ALE_source_Undone m cv (r_X r) cpu cfg)) = r_X r).
Proof.
  intros _ _ m r.
  set (X0 := init_X0 (config 10%nat) m (replicate N (replicate (m + 1) 0))).
  set (X1 := copy_X0 m N X0).
  assert (HX : r_X r = X1).
  { subst r. unfold main. fold m. unfold main_grid. fold m. fold X0. fold X1.
    destruct (to_int (config 9%nat) =? 1)%Z;
      [destruct (Godunov_solver_EUL_source _ _ _ _ _ _); reflexivity|].
    destruct (to_int (config 9%nat) =? 2)%Z;
      [destruct (GRP_solver_EUL_source _ _ _ _ _ _); reflexivity|].
    reflexivity. }
  rewrite HX. clearbody r. clear HX r.
  assert (Hall : forall k j, (k < N)%nat -> (j <= m)%nat ->
                   get2 X1 k j = get2 X1 0 j
                   /\ get2 X1 0 j = of_nat j * config 10%nat).
  { intros k j Hk Hj.
    destruct (init_X0_spec (config 10%nat) m N _ (shaped_replicate N (m + 1))
                ltac:(lia)) as [Hsh0 Hat0]. fold X0 in Hsh0, Hat0.
    destruct (copy_X0_spec m N X0 Hsh0) as (Hsh1 & Hrow0 & Hcopy).
    fold X1 in Hsh1, Hrow0, Hcopy.
    split.
    - destruct (decide (k = 0)%nat) as [->|Hne]; [reflexivity|].
      rewrite Hcopy by lia. unfold get2. rewrite Hrow0. reflexivity.
    - unfold get2. rewrite Hrow0. rewrite FloatFacts.mul_comm. apply Hat0.
      exact Hj. }
  split; [exact Hall|]. split; [intros par k s; apply step_X|].
  intros cv cpu cfg.
  assert (Hfix : grid_copy m X1 = X1).
  { destruct (decide (N <= nt)%nat) as [Hsmall|Hbig].
    - apply grid_copy_no_row.
      pose proof (init_X0_shaped (config 10%nat) m N _
                    (shaped_replicate N (m + 1))) as Hsh0. fold X0 in Hsh0.
      destruct (copy_X0_spec m N X0 Hsh0) as ([Hlen _] & _).
      fold X1 in Hlen. rewrite Hlen. exact Hsmall.
    - apply grid_copy_fixed. intros j Hj. unfold nt in *.
      transitivity (get2 X1 0 j); [apply Hall; lia|reflexivity]. }
  unfold GRP_solver_ALE_source_Undone.
  rewrite main_loop_X by exact Hfix. reflexivity.
Qed.

End Main.

(** The run of the sample tube, with two stored rows. *)
Lemma grid_never_moves_witness :
  let H := Sample.ext_mean in
  let r := @main Sample.idle_marches (Sample.sample_config (-4))
             Sample.tube_data 2 [0; 0] EUL in
  (forall k j, (k < 2)%nat -> (j <= 2)%nat ->
     get2 (r_X r) k j = get2 (r_X r) 0 j
     /\ get2 (r_X r) 0 j = of_nat j * 0.5)
  /\ (forall (par : params) (k : nat) (s : state),
        match step par 2 k s with
        | Continue s' | Break s' => X s' = grid_copy 2 (X s)
        | Return_NULL s' => X s' = X s
        end)
  /\ (forall (cv : cell_var_stru) (cpu : list float) (cfg : config_array),
        X (snd (GRP_solver_ALE_source_Undone 2 cv (r_X r) cpu cfg)) = r_X r).
Proof.
  cbv zeta.
  apply (@grid_never_moves Sample.ext_mean Sample.idle_marches
           (Sample.sample_config (-4)) Sample.tube_data 2 [0; 0]);
    split; vm_compute; try reflexivity; split; congruence.
Defined.

End GridFacts.

(** ** The update loop and the end of a turn *)

Module UpdateFacts.

Import CMath GRP Spec LoopFacts IfaceFacts TimeStepFacts.
Local Open Scope float_scope.

Lemma same_old_rows_refl (cv : cell_var_stru) : same_old_rows cv cv.
Proof. repeat split. Qed.

Lemma store_cell_old_rows (j : nat) (c : float * float * float * float)
    (cv0 cv : cell_var_stru) :
  same_old_rows cv0 cv -> same_old_rows cv0 (store_cell j c cv).
Proof.
  destruct c as [[[rho_n u_n] e_n] p_n].
  unfold same_old_rows, store_cell; cbn [RHO U P E].
  change (nt - 1)%nat with 0%nat. intros (H1 & H2 & H3 & H4).
  rewrite !row_set2_ne by (unfold nt; lia). tauto.
Qed.

Lemma updated_cell_old_rows (par : params) (nu : float) (f : flux)
    (cv0 cv : cell_var_stru) (j : nat) :
  same_old_rows cv0 cv ->
  updated_cell par nu f cv j = updated_cell par nu f cv0 j.
Proof.
  intros (H1 & H2 & H3 & H4). unfold updated_cell, get2.
  rewrite H1, H2, H4. reflexivity.
Qed.

(** The update loop never touches row [nt-1], and the time it leaves is the
    end time as soon as one cell has been flagged. *)
Lemma update_loop_spec (par : params) (k m : nat) (nu : float)
    (nxt : iface) (f : flux) (X : list (list float)) (st : update_state) :
  let u := update_loop par k m nu nxt f X st in
  same_old_rows (u_cv st) (u_cv u)
  /\ u_time_c u
     = if existsb (update_flagged par nu f (u_cv st)) (seq 0 m)
       then t_all par else u_time_c st.
Proof.
  cbv zeta. unfold update_loop.
  apply (for_loop_inv
           (fun n st' =>
              same_old_rows (u_cv st) (u_cv st')
              /\ u_time_c st'
                 = if existsb (update_flagged par nu f (u_cv st)) (seq 0 n)
                   then t_all par else u_time_c st)
           (update_body par k nu nxt f X) m 0 st).
  - split; [apply same_old_rows_refl | reflexivity].
  - intros n st' _ [Hrows Htime]. split.
    + cbn [update_body u_cv]. apply store_cell_old_rows. exact Hrows.
    + rewrite seq_snoc, existsb_app. cbn [existsb Nat.add].
      rewrite orb_false_r. unfold update_body. cbn [u_time_c].
      rewrite (updated_cell_old_rows par nu f (u_cv st) (u_cv st') n Hrows).
      rewrite Htime. fold (update_flagged par nu f (u_cv st) n).
      destruct (update_flagged par nu f (u_cv st) n);
        [rewrite orb_true_r | rewrite orb_false_r]; reflexivity.
Qed.


(** The slopes the update loop leaves for the next step: the difference
    quotients of the interface values at the new time. *)
Lemma update_loop_slopes (par : params) (k m : nat) (nu : float)
    (nxt : iface) (f : flux) (X : list (list float)) (st : update_state)
    (j : nat) :
  (j < m)%nat ->
  length (s_u (u_sl st)) = m -> length (s_p (u_sl st)) = m ->
  length (s_rho (u_sl st)) = m ->
  let u := update_loop par k m nu nxt f X st in
  let dx := get2 X nt (j + 1) - get2 X nt j in
  s_u (u_sl u) !!! j = (U_next nxt !!! (j + 1)%nat - U_next nxt !!! j) / dx
  /\ s_p (u_sl u) !!! j = (P_next nxt !!! (j + 1)%nat - P_next nxt !!! j) / dx
  /\ s_rho (u_sl u) !!! j
     = (RHO_next nxt !!! (j + 1)%nat - RHO_next nxt !!! j) / dx.
Proof.
  intros Hj Hu Hp Hr. cbv zeta. unfold update_loop.
  pose (vu := fun j : nat =>
          (U_next nxt !!! (j + 1)%nat - U_next nxt !!! j)
          / (get2 X nt (j + 1) - get2 X nt j)).
  pose (vp := fun j : nat =>
          (P_next nxt !!! (j + 1)%nat - P_next nxt !!! j)
          / (get2 X nt (j + 1) - get2 X nt j)).
  pose (vr := fun j : nat =>
          (RHO_next nxt !!! (j + 1)%nat - RHO_next nxt !!! j)
          / (get2 X nt (j + 1) - get2 X nt j)).
  rewrite (GridFacts.for_loop_component u_sl (update_body par k nu nxt f X)
             (fun j s => {| s_u := (fun i l => <[ i := vu i ]> l) j (s_u s);
                            s_p := (fun i l => <[ i := vp i ]> l) j (s_p s);
                            s_rho := (fun i l => <[ i := vr i ]> l) j (s_rho s) |}))
    by reflexivity.
  rewrite (ReconstructFacts.for_loop_slopes
             (fun i l => <[ i := vu i ]> l) (fun i l => <[ i := vp i ]> l)
             (fun i l => <[ i := vr i ]> l)).
  cbn [s_u s_p s_rho u_sl].
  rewrite !for_loop_store by lia.
  destruct (decide (0 <= j < 0 + m)%nat) as [_|Hn]; [|lia].
  repeat split.
Qed.

Section WithExternals.
Context `{Externals}.



End WithExternals.

End UpdateFacts.

(** ** Cancellation and the exit status (C5, C4, C7) *)

Module CancelFacts.

Import CMath GRP Spec LoopFacts IfaceFacts TimeStepFacts UpdateFacts Hydrocode1D.
Local Open Scope float_scope.

Section WithExternals.
Context `{Externals}.



(** With a finite end time that the threshold does not vanish against, and
    a proposed time step that does not fall below the threshold, the end
    test holds after a flag: the clamp makes the time step
    [t_all - t_all], and [t_all + (t_all - t_all)] compares as [t_all]. *)
Lemma end_test_after_flag (par : params) (config : config_array)
    (hs tau : float) :
  isfinite (t_all par) = true ->
  gtb (t_all par) (t_all par - eps par) = true ->
  gtb (t_all par + CFL par * hs) (t_all par - eps par) = true ->
  time_is_up par (t_all par + time_step par config hs (t_all par) tau) = true.
Proof.
  intros Hfin Heps Hpos. unfold time_step.
  unfold isfinite in Hfin. unfold isfinite. rewrite Hfin. cbn [orb].
  rewrite Hpos. unfold time_is_up, gtb.
  rewrite FloatFacts.ltb_add_sub_self by exact Hfin.
  unfold gtb in Heps. rewrite Heps. reflexivity.
Qed.




End WithExternals.



(** With a threshold that the end time absorbs the flag does not stop the
    march either: the star states of step 1 are flagged, the end test
    0.25 > 0.25 - 2^-60 fails, and steps 2 and 3 are made. *)
Lemma absorbed_threshold_march_goes_on :
  let H := Sample.ext_vacuum in
  let config := config_set (Sample.tiny_eps_config (-4)) 5 3 in
  out (snd (GRP_solver_ALE_source_Undone 2 Sample.tube Sample.grid [0; 0]
              config))
  = [MsgBoundary (-4);
     ErrNegative Star 1 0; ErrNegative Star 1 1; ErrNegative Star 1 2;
     DispPro 100 1;
     ErrNegative Star 2 0; ErrNegative Star 2 1; ErrNegative Star 2 2;
     DispPro 100 2;
     ErrNegative Star 3 0; ErrNegative Star 3 1; ErrNegative Star 3 2;
     DispPro 100 3;
     MsgTimeUp 4; MsgCpuCost (1 / 1000000 + 1 / 1000000 + 1 / 1000000)].
Proof. vm_compute. reflexivity. Qed.

Section Main.
Context `{Externals} `{Marches}.




End Main.





End CancelFacts.

(** ** The count checks of the readers (C8) *)

Module FileInFacts.

Import CMath FileIn.

(** The 1-D reader: a file whose count differs from the one already in
    config[3] ends the run with status 2. *)
Lemma STR_FLU_INI_1D_unequal (config : config_array) (f : data_file) :
  isinf (config 3%nat) = false ->
  column f <> to_int (config 3%nat) ->
  STR_FLU_INI_1D config (Some f) = Exit 2.
Proof.
  intros Hset Hne. unfold STR_FLU_INI_1D.
  destruct (column f <? 1)%Z; [reflexivity|].
  rewrite Hset. rewrite (proj2 (Z.eqb_neq _ _) Hne). reflexivity.
Qed.

(** The 2-D reader: while config[14] is not set, no count is compared. *)
Lemma flu_var_init_unchecked (config : config_array) (f : data_file) :
  isinf (config 14%nat) = true ->
  (1 <= line f * column f)%Z ->
  read_fails f = false ->
  exists config', flu_var_init config f = Read config'.
Proof.
  intros H14 Hnum Hread. unfold flu_var_init.
  destruct (line f * column f <? 1)%Z eqn:Hlt; [apply Z.ltb_lt in Hlt; lia|].
  set (c3 := if isinf (config 3%nat)
             then config_set config 3 (of_int (line f * column f))
             else config).
  set (c13 := if isinf (c3 13%nat)
              then config_set c3 13 (of_int (column f)) else c3).
  assert (E3 : c3 14%nat = config 14%nat).
  { subst c3. destruct (isinf (config 3%nat)); reflexivity. }
  assert (E13 : c13 14%nat = config 14%nat).
  { subst c13. destruct (isinf (c3 13%nat)); [|exact E3].
    unfold config_set. cbn [Nat.eqb]. exact E3. }
  rewrite E13, H14, Hread. eexists. reflexivity.
Qed.

(** C8 fails in the 2-D reader: with 200 cells in 10 columns configured
    and the number of lines left open, a first file of 20 lines of 5
    numbers is accepted, and so are three files of 20 lines of 10 numbers
    after it: [initialize_2D] returns although the first file disagrees in
    count and in columns with the configuration and with the other files. *)
Lemma first_file_is_not_compared :
  match initialize_2D Sample.config_200_by_10
          (Some Sample.file_20_by_5) (Some Sample.file_20_by_10)
          (Some Sample.file_20_by_10) (Some Sample.file_20_by_10) with
  | Read config' =>
      to_int (config' 3%nat) = 200%Z /\ to_int (config' 13%nat) = 10%Z
      /\ to_int (config' 14%nat) = 20%Z
  | Exit _ => False
  end.
Proof. vm_compute. repeat split. Qed.

(** The same files in the 1-D reader's way of checking end the run. *)
Lemma first_file_1D_is_compared :
  STR_FLU_INI_1D Sample.config_200_by_10
    (Some {| line := 1; column := 100; read_fails := false |}) = Exit 2.
Proof. vm_compute. reflexivity. Qed.

End FileInFacts.

(** ** The ghost slopes along the march (C6) *)

Module GhostSlopeFacts.

Import CMath GRP Spec TimeStepFacts.
Local Open Scope float_scope.

Lemma unwritten_zero_init (bound : Z) : unwritten_zero bound ghost_slope_init.
Proof. repeat split. Qed.

Lemma boundary_slopes_unwritten (bound : Z) (m : nat) (s : slopes)
    (g : ghost_slope) :
  unwritten_zero bound g -> unwritten_zero bound (boundary_slopes bound m s g).
Proof.
  intros (Hp & Hr & Hl). unfold boundary_slopes.
  destruct (Z.eqb_spec bound (-2)) as [->|H2].
  - split; [|split]; [intros _; cbn; apply Hp; discriminate | congruence..].
  - destruct (Z.eqb_spec bound (-5)) as [->|H5].
    + split; [|split]; congruence.
    + destruct (Z.eqb_spec bound (-24)) as [->|H24].
      * split; [|split];
          [intros _; cbn; apply Hp; discriminate
          |intros _ _; cbn; apply Hr; discriminate
          |congruence].
      * split; [|split]; assumption.
Qed.

Section WithExternals.
Context `{Externals}.

Lemma reaches_unwritten_zero (par : params) (m k : nat) (s : state)
    (k' : nat) (s' : state) :
  reaches par m k s k' s' ->
  unwritten_zero (bound par) (gs s) -> unwritten_zero (bound par) (gs s').
Proof.
  induction 1 as [k s|k s k' s' s'' Hreach IH Hstep]; intros Hz; [exact Hz|].
  destruct (step_finished par m k' s' s'' (or_introl Hstep))
    as (fb & g & msgs & i & Hbv & _ & _).
  rewrite (step_ghost_slopes par m k' s' s'' fb g msgs Hbv (or_introl Hstep)).
  apply boundary_slopes_unwritten. apply IH. exact Hz.
Qed.

End WithExternals.

End GhostSlopeFacts.

(** ** What holds in every state the march reaches *)

Module MarchInvariants.

Import CMath GRP Spec LoopFacts IfaceFacts FluxFacts TimeStepFacts UpdateFacts.
Local Open Scope float_scope.

Section WithExternals.
Context `{Externals}.

Lemma reconstruct_sized (k m : nat) (alpha : float) (cv : cell_var_stru)
    (X : list (list float)) (g : ghost_val) (s : slopes) :
  slopes_sized m s -> slopes_sized m (reconstruct k m alpha cv X g s).
Proof.
  intros Hs. unfold reconstruct.
  apply (for_loop_inv (fun (_ : nat) s' => slopes_sized m s')
           (reconstruct_body k m alpha cv X g) m 0 s Hs).
  intros j s' _ (Hu & Hp & Hr).
  rewrite ReconstructFacts.reconstruct_body_turn.
  unfold slopes_sized; cbn [s_u s_p s_rho]. rewrite !length_insert. tauto.
Qed.

Lemma update_loop_sized (par : params) (k m : nat) (nu : float)
    (nxt : iface) (f : flux) (X : list (list float)) (st : update_state) :
  slopes_sized m (u_sl st) ->
  slopes_sized m (u_sl (update_loop par k m nu nxt f X st)).
Proof.
  intros Hs. unfold update_loop.
  apply (for_loop_inv (fun (_ : nat) st' => slopes_sized m (u_sl st'))
           (update_body par k nu nxt f X) m 0 st Hs).
  intros j st' _ (Hu & Hp & Hr).
  unfold slopes_sized, update_body; cbn [u_sl s_u s_p s_rho].
  rewrite !length_insert. tauto.
Qed.

Lemma flux_loop_sized (gamma tau : float) (m : nat) (st : flux_state) :
  iface_sized (m + 1) (f_nx st) /\ flux_sized (m + 1) (f_fl st) ->
  iface_sized (m + 1) (f_nx (flux_loop gamma tau m st))
  /\ flux_sized (m + 1) (f_fl (flux_loop gamma tau m st)).
Proof.
  intros Hs. unfold flux_loop.
  apply (for_loop_inv
           (fun (_ : nat) st' =>
              iface_sized (m + 1) (f_nx st') /\ flux_sized (m + 1) (f_fl st'))
           (flux_body gamma tau) (m + 1) 0 st Hs).
  intros j st' _ Hs'. apply flux_body_sized. exact Hs'.
Qed.

Lemma initial_state_sized (m : nat) (cv : cell_var_stru)
    (X : list (list float)) (cpu : list float) (config : config_array) :
  sized m (initial_state m cv X cpu config).
Proof.
  unfold sized, slopes_sized, iface_sized, flux_sized, initial_state; cbn.
  rewrite !length_replicate. repeat split.
Qed.

(** What a turn that goes on to the next one leaves in the state. *)
Lemma continue_fields (par : params) (m k : nat) (s s' : state) :
  step par m k s = Continue s' ->
  config s' = config s
  /\ exists fb g msgs i,
       boundary_values (bound par) m (h par) (CV s) (X s) (find_bound s) (gv s)
       = Some (fb, g, msgs)
       /\ iface_loop par k m (CV s) (X s) g
            (boundary_slopes (bound par) m
               (reconstruct k m (alpha par) (CV s) (X s) g (sl s)) (gs s))
            (reconstruct k m (alpha par) (CV s) (X s) g (sl s))
            {| h_S_max := INFINITY; i_time_c := time_c s;
               i_nx := nx s; i_out := out s ++ msgs |} = inl i
       /\ tau s' = step_tau par s i
       /\ sl s' = u_sl (step_update par m k s
                          (reconstruct k m (alpha par) (CV s) (X s) g (sl s)) i)
       /\ nx s' = f_nx (step_flux par m s i)
       /\ fl s' = f_fl (step_flux par m s i).
Proof.
  intros Hstep.
  destruct (step_finished par m k s s' (or_introl Hstep))
    as (fb & g & msgs & i & Hbv & Hloop & Hfin).
  rewrite Hfin in Hstep. unfold finish_step in Hstep.
  destruct (time_is_up par _); [discriminate|]. injection Hstep as <-.
  split; [reflexivity|]. exists fb, g, msgs, i. repeat split; assumption.
Qed.

(** What a turn that is carried through leaves in the state. *)
Lemma finished_fields (par : params) (m k : nat) (s s' : state)
    (fb : bool) (g : ghost_val) (msgs : list event) :
  boundary_values (bound par) m (h par) (CV s) (X s) (find_bound s) (gv s)
  = Some (fb, g, msgs) ->
  step par m k s = Continue s' \/ step par m k s = Break s' ->
  exists i,
    iface_loop par k m (CV s) (X s) g
      (boundary_slopes (bound par) m
         (reconstruct k m (alpha par) (CV s) (X s) g (sl s)) (gs s))
      (reconstruct k m (alpha par) (CV s) (X s) g (sl s))
      {| h_S_max := INFINITY; i_time_c := time_c s;
         i_nx := nx s; i_out := out s ++ msgs |} = inl i
    /\ tau s' = step_tau par s i
    /\ nx s' = f_nx (step_flux par m s i)
    /\ fl s' = f_fl (step_flux par m s i).
Proof.
  intros Hbv Hstep.
  destruct (step_finished par m k s s' Hstep)
    as (fb' & g' & msgs' & i & Hbv' & Hloop & Hfin).
  rewrite Hbv in Hbv'. injection Hbv' as <- <- <-.
  rewrite Hfin in Hstep. unfold finish_step in Hstep.
  exists i. split; [exact Hloop|].
  destruct (time_is_up par _); destruct Hstep as [Hc|Hb]; try discriminate.
  - injection Hb as <-. repeat split.
  - injection Hc as <-. repeat split.
Qed.

Lemma reaches_sized (par : params) (m k : nat) (s : state) (k' : nat)
    (s' : state) :
  reaches par m k s k' s' -> sized m s -> sized m s'.
Proof.
  induction 1 as [k s|k s k' s' s'' Hreach IH Hstep]; intros Hs; [exact Hs|].
  specialize (IH Hs). destruct IH as (Hsl & Hnx & Hfl).
  destruct (continue_fields par m k' s' s'' Hstep)
    as (_ & fb & g & msgs & i & _ & Hloop & _ & Esl & Enx & Efl).
  unfold sized. rewrite Esl, Enx, Efl.
  apply iface_loop_turns in Hloop.
  assert (Hi : iface_sized (m + 1) (i_nx i)).
  { subst i. apply (turns_store par k' m (CV s') (X s') g _ _ _ (m + 1));
      [exact Hnx | lia]. }
  destruct (flux_loop_sized (gamma par) (step_tau par s' i) m
              {| f_nx := i_nx i; f_fl := fl s'; f_X := X s' |}
              (conj Hi Hfl)) as [Hnx' Hfl'].
  split; [|split; [exact Hnx' | exact Hfl']].
  unfold step_update. apply update_loop_sized. cbn [u_sl].
  apply reconstruct_sized. exact Hsl.
Qed.

(** Along the march [config] is not written, and with no finite end time
    and a finite positive config[16] the time step stays config[16]. *)
Lemma reaches_fixed_tau (par : params) (m k : nat) (s : state) (k' : nat)
    (s' : state) :
  reaches par m k s k' s' ->
  config s' = config s
  /\ (isfinite (t_all par) || negb (isfinite (config s 16%nat))
      || (config s 16%nat <=? 0.0) = false ->
      tau s = config s 16%nat -> tau s' = config s 16%nat).
Proof.
  induction 1 as [k s|k s k' s' s'' Hreach IH Hstep].
  - split; [reflexivity | intros _ Ht; exact Ht].
  - destruct IH as [Hcfg Htau].
    destruct (continue_fields par m k' s' s'' Hstep)
      as (Hcfg' & fb & g & msgs & i & _ & _ & Ht & _).
    split; [rewrite Hcfg'; exact Hcfg|].
    intros Hmode Hinit. rewrite Ht. unfold step_tau, time_step.
    rewrite Hcfg, Hmode. apply Htau; assumption.
Qed.

End WithExternals.

End MarchInvariants.

(** ** The ghost slopes, boundary type by boundary type *)

Module GhostSlopeClaims.

Import CMath GRP Spec TimeStepFacts FloatFacts GhostSlopeFacts.
Import MarchInvariants.
Local Open Scope float_scope.

Lemma sub_self (x : float) : zero_or_nan (Prim2SF (x - x)).
Proof.
  rewrite sub_spec. destruct (Prim2SF x) as [s|s| |s m e].
  - destruct s; exact I.
  - destruct s; exact I.
  - exact I.
  - unfold SF64sub, SFsub. cbv zeta. rewrite Z.sub_diag. exact I.
Qed.

Lemma div_zero_or_nan (a d : float) :
  zero_or_nan (Prim2SF a) -> zero_or_nan (Prim2SF (a / d)).
Proof.
  rewrite div_spec.
  destruct (Prim2SF a) as [s|s| |s m e]; intros Ha; try contradiction;
    destruct (Prim2SF d) as [s'|s'| |s' m' e']; exact I.
Qed.

Lemma mul_zero_or_nan (alpha a : float) :
  zero_or_nan (Prim2SF a) -> zero_or_nan (Prim2SF (alpha * a)).
Proof.
  rewrite mul_spec.
  destruct (Prim2SF a) as [s|s| |s m e]; intros Ha; try contradiction;
    destruct (Prim2SF alpha) as [s'|s'| |s' m' e']; exact I.
Qed.

Lemma finite_zero (a : float) :
  zero_or_nan (Prim2SF a) -> is_finite a = true ->
  exists s, Prim2SF a = S754_zero s.
Proof.
  intros Ha Hfin.
  destruct (finite_cases a Hfin) as [Hz | (s & m & e & E)]; [exact Hz|].
  rewrite E in Ha. contradiction.
Qed.

(** The product of a zero and a finite double is a zero. *)
Lemma mul_zero_leb (a b : float) (s : bool) :
  Prim2SF a = S754_zero s -> is_finite b = true -> (a * b <=? 0) = true.
Proof.
  intros Ea Hb. rewrite leb_spec, mul_spec, Ea.
  destruct (finite_cases b Hb) as [[s' ->] | (s' & m & e & ->)];
    reflexivity.
Qed.

Section WithExternals.
Context `{Externals}.

(** A limiter that returns 0 when the product of its first two arguments
    is not positive returns 0 when one of them is a difference quotient
    of a value with itself. *)
Lemma limited_slope_zero (k : nat) (alpha a b prev : float) :
  limiters_vanish ->
  zero_or_nan (Prim2SF a) \/ zero_or_nan (Prim2SF b) ->
  (if (k =? 1)%nat then is_finite a = true /\ is_finite b = true
   else is_finite (alpha * a) = true /\ is_finite (alpha * b) = true) ->
  limited_slope k alpha a b prev = 0.
Proof.
  intros [H2 H3] Hz. unfold limited_slope.
  destruct (k =? 1)%nat; intros [Ha Hb].
  - apply H2. destruct Hz as [Hz|Hz].
    + destruct (finite_zero a Hz Ha) as [s Ea].
      exact (mul_zero_leb a b s Ea Hb).
    + destruct (finite_zero b Hz Hb) as [s Eb].
      rewrite mul_comm. exact (mul_zero_leb b a s Eb Ha).
  - apply H3. destruct Hz as [Hz|Hz].
    + destruct (finite_zero _ (mul_zero_or_nan alpha a Hz) Ha) as [s Ea].
      exact (mul_zero_leb _ _ s Ea Hb).
    + destruct (finite_zero _ (mul_zero_or_nan alpha b Hz) Hb) as [s Eb].
      rewrite mul_comm. exact (mul_zero_leb _ _ s Eb Ha).
Qed.

(** The slope of the left edge cell when the left ghost value is the
    value of that cell. *)
Lemma left_edge_slope_zero (k m : nat) (alpha : float) (v : list float)
    (vL vR : float) (x : list float) (g : ghost_val) (prev : float) :
  limiters_vanish ->
  vL = v !!! 0%nat ->
  limiter_arguments_finite k m alpha v vL vR x g 0 ->
  limited_slope k alpha (s_L v vL x (HL g) 0) (s_R m v vR x (HR g) 0) prev
  = 0.
Proof.
  intros Hlim -> Hfin. apply limited_slope_zero; [exact Hlim| |exact Hfin].
  left. unfold s_L. cbn [Nat.eqb]. apply div_zero_or_nan, sub_self.
Qed.

(** The slope of the right edge cell when the right ghost value is the
    value of that cell. *)
Lemma right_edge_slope_zero (k m : nat) (alpha : float) (v : list float)
    (vL vR : float) (x : list float) (g : ghost_val) (prev : float) :
  limiters_vanish ->
  vR = v !!! (m - 1)%nat ->
  limiter_arguments_finite k m alpha v vL vR x g (m - 1) ->
  limited_slope k alpha (s_L v vL x (HL g) (m - 1))
    (s_R m v vR x (HR g) (m - 1)) prev
  = 0.
Proof.
  intros Hlim -> Hfin. apply limited_slope_zero; [exact Hlim| |exact Hfin].
  right. unfold s_R. rewrite Nat.ltb_irrefl. apply div_zero_or_nan, sub_self.
Qed.

(** C6: in every step of a march that is carried through, [s1] being the
    slopes the step has reconstructed, the ghost slopes are: under
    Reflective (-2) the negated velocity slopes of the adjacent cells, and
    zero for p and rho; under Periodic (-5) the slopes of the opposite
    edge for u, p and rho; under Initial (-1) zero; under Free (-4) zero,
    which is the slope of the edge cell: the Free ghost value is the value
    of the edge cell, so that one of the two difference quotients of that
    cell is a zero, and a limiter that returns 0 when the product of its
    first two arguments is not positive gives the slope 0, the arguments
    of the limiter being finite; under Reflective+Free (-24) the negated
    velocity slope on the left and zero elsewhere, the zero on the right
    being the slope of the right edge cell in the same way. *)
Theorem ghost_slopes_by_type (m : nat) (cv : cell_var_stru)
    (X : list (list float)) (cpu : list float) (config : config_array)
    (k : nat) (s s' : state) (fb : bool) (g : ghost_val)
    (msgs : list event) :
  let par := read_params config in
  reaches par m 1 (initial_state m cv X cpu config) k s ->
  boundary_values (bound par) m (h par) (CV s) (GRP.X s) (find_bound s) (gv s)
  = Some (fb, g, msgs) ->
  step par m k s = Continue s' \/ step par m k s = Break s' ->
  let s1 := reconstruct k m (alpha par) (CV s) (GRP.X s) g (sl s) in
  (bound par = (-2)%Z ->
   gs s' = {| SUL := - (s_u s1 !!! 0%nat); SUR := - (s_u s1 !!! (m - 1)%nat);
              SPL := 0; SPR := 0; SRHOL := 0; SRHOR := 0 |})
  /\ (bound par = (-5)%Z ->
      gs s' = {| SUL := s_u s1 !!! (m - 1)%nat; SUR := s_u s1 !!! 0%nat;
                 SPL := s_p s1 !!! (m - 1)%nat; SPR := s_p s1 !!! 0%nat;
                 SRHOL := s_rho s1 !!! (m - 1)%nat;
                 SRHOR := s_rho s1 !!! 0%nat |})
  /\ (bound par = (-4)%Z \/ bound par = (-1)%Z ->
      gs s' = {| SUL := 0; SPL := 0; SRHOL := 0;
                 SUR := 0; SPR := 0; SRHOR := 0 |})
  /\ (bound par = (-24)%Z ->
      gs s' = {| SUL := - (s_u s1 !!! 0%nat); SUR := 0;
                 SPL := 0; SPR := 0; SRHOL := 0; SRHOR := 0 |})
  /\ (bound par = (-4)%Z -> (1 <= m)%nat -> limiters_vanish ->
      edge_arguments_finite k m (alpha par) (CV s) (GRP.X s) g ->
      gs s' = {| SUL := s_u s1 !!! 0%nat; SUR := s_u s1 !!! (m - 1)%nat;
                 SPL := s_p s1 !!! 0%nat; SPR := s_p s1 !!! (m - 1)%nat;
                 SRHOL := s_rho s1 !!! 0%nat;
                 SRHOR := s_rho s1 !!! (m - 1)%nat |})
  /\ (bound par = (-24)%Z -> (1 <= m)%nat -> limiters_vanish ->
      edge_arguments_finite k m (alpha par) (CV s) (GRP.X s) g ->
      SUR (gs s') = s_u s1 !!! (m - 1)%nat
      /\ SPR (gs s') = s_p s1 !!! (m - 1)%nat
      /\ SRHOR (gs s') = s_rho s1 !!! (m - 1)%nat).
Proof.
  intros par Hreach Hbv Hstep s1.
  pose proof (reaches_unwritten_zero par m 1 _ k s Hreach
                (unwritten_zero_init (bound par))) as (Hp & Hr & Hl).
  destruct (reaches_sized par m 1 _ k s Hreach (initial_state_sized _ _ _ _ _))
    as ((Lu & Lp & Lr) & _).
  assert (Hat : forall j, (j < m)%nat ->
            s_u s1 !!! j
            = limited_slope k (alpha par)
                (s_L (U (CV s) !!! 0%nat) (UL g) (GRP.X s !!! 0%nat) (HL g) j)
                (s_R m (U (CV s) !!! 0%nat) (UR g) (GRP.X s !!! 0%nat)
                   (HR g) j)
                (s_u (sl s) !!! j)
            /\ s_p s1 !!! j
               = limited_slope k (alpha par)
                   (s_L (P (CV s) !!! 0%nat) (PL g) (GRP.X s !!! 0%nat)
                      (HL g) j)
                   (s_R m (P (CV s) !!! 0%nat) (PR g) (GRP.X s !!! 0%nat)
                      (HR g) j)
                   (s_p (sl s) !!! j)
            /\ s_rho s1 !!! j
               = limited_slope k (alpha par)
                   (s_L (RHO (CV s) !!! 0%nat) (RHOL g) (GRP.X s !!! 0%nat)
                      (HL g) j)
                   (s_R m (RHO (CV s) !!! 0%nat) (RHOR g) (GRP.X s !!! 0%nat)
                      (HR g) j)
                   (s_rho (sl s) !!! j)).
  { intros j Hj.
    exact (ReconstructFacts.reconstruct_at k m (alpha par) (CV s) (GRP.X s) g
             (sl s) j Hj Lu Lp Lr). }
  rewrite (step_ghost_slopes par m k s s' fb g msgs Hbv Hstep). fold s1.
  clearbody s1. revert Hbv Hp Hr Hl.
  generalize (bound par). intros b Hbv Hp Hr Hl.
  destruct (gs s) as [sul spl srhol sur spr srhor].
  cbn [SUL SPL SRHOL SUR SPR SRHOR] in Hp, Hr, Hl.
  split; [|split; [|split; [|split; [|split]]]].
  - intros ->. destruct Hp as (-> & -> & -> & ->); [discriminate|].
    reflexivity.
  - intros ->. reflexivity.
  - intros Hb.
    destruct Hp as (-> & -> & -> & ->);
      [destruct Hb as [-> | ->]; discriminate|].
    rewrite Hr, Hl by (destruct Hb as [-> | ->]; discriminate).
    destruct Hb as [-> | ->]; reflexivity.
  - intros ->. destruct Hp as (-> & -> & -> & ->); [discriminate|].
    rewrite Hr by discriminate. reflexivity.
  - intros -> Hm Hlim Hfin.
    destruct Hp as (-> & -> & -> & ->); [discriminate|].
    rewrite Hr, Hl by discriminate.
    unfold boundary_values in Hbv. cbn [Z.eqb Pos.eqb] in Hbv.
    change (nt - 1)%nat with 0%nat in Hbv.
    injection Hbv as _ Hg _.
    assert (EL : UL g = get2 (U (CV s)) 0 0
                 /\ PL g = get2 (P (CV s)) 0 0
                 /\ RHOL g = get2 (RHO (CV s)) 0 0)
      by (rewrite <- Hg; repeat split).
    assert (ER : UR g = get2 (U (CV s)) 0 (m - 1)
                 /\ PR g = get2 (P (CV s)) 0 (m - 1)
                 /\ RHOR g = get2 (RHO (CV s)) 0 (m - 1))
      by (rewrite <- Hg; repeat split).
    clear Hg. destruct EL as (EL1 & EL2 & EL3), ER as (ER1 & ER2 & ER3).
    destruct (Hat 0%nat ltac:(lia)) as (A1 & A2 & A3).
    destruct (Hat (m - 1)%nat ltac:(lia)) as (B1 & B2 & B3).
    destruct (Hfin 0%nat (or_introl eq_refl)) as (F1 & F2 & F3).
    destruct (Hfin (m - 1)%nat (or_intror eq_refl)) as (G1 & G2 & G3).
    rewrite (left_edge_slope_zero _ _ _ _ _ _ _ _ _ Hlim EL1 F1) in A1.
    rewrite (left_edge_slope_zero _ _ _ _ _ _ _ _ _ Hlim EL2 F2) in A2.
    rewrite (left_edge_slope_zero _ _ _ _ _ _ _ _ _ Hlim EL3 F3) in A3.
    rewrite (right_edge_slope_zero _ _ _ _ _ _ _ _ _ Hlim ER1 G1) in B1.
    rewrite (right_edge_slope_zero _ _ _ _ _ _ _ _ _ Hlim ER2 G2) in B2.
    rewrite (right_edge_slope_zero _ _ _ _ _ _ _ _ _ Hlim ER3 G3) in B3.
    rewrite A1, A2, A3, B1, B2, B3. reflexivity.
  - intros -> Hm Hlim Hfin.
    destruct Hp as (-> & -> & -> & ->); [discriminate|].
    rewrite Hr by discriminate.
    unfold boundary_values in Hbv. cbn [Z.eqb Pos.eqb] in Hbv.
    change (nt - 1)%nat with 0%nat in Hbv.
    injection Hbv as _ Hg _.
    assert (ER : UR g = get2 (U (CV s)) 0 (m - 1)
                 /\ PR g = get2 (P (CV s)) 0 (m - 1)
                 /\ RHOR g = get2 (RHO (CV s)) 0 (m - 1))
      by (rewrite <- Hg; repeat split).
    clear Hg. destruct ER as (ER1 & ER2 & ER3).
    destruct (Hat (m - 1)%nat ltac:(lia)) as (B1 & B2 & B3).
    destruct (Hfin (m - 1)%nat (or_intror eq_refl)) as (G1 & G2 & G3).
    rewrite (right_edge_slope_zero _ _ _ _ _ _ _ _ _ Hlim ER1 G1) in B1.
    rewrite (right_edge_slope_zero _ _ _ _ _ _ _ _ _ Hlim ER2 G2) in B2.
    rewrite (right_edge_slope_zero _ _ _ _ _ _ _ _ _ Hlim ER3 G3) in B3.
    cbn [boundary_slopes Z.eqb Pos.eqb SUR SPR SRHOR].
    rewrite B1, B2, B3. repeat split.
Qed.

End WithExternals.

Lemma sample_limiters_vanish : @limiters_vanish Sample.ext_mean.
Proof.
  split; intros; cbn [minmod2 minmod3 Sample.ext_mean Sample.with_solver];
    unfold Limiter.minmod2, Limiter.minmod3;
    cbn [Limiter.leb Limiter.mul Limiter.zero Limiter.double_arith];
    rewrite H; reflexivity.
Qed.

(** The first step of the sample tube under the Free tag: the ghost
    slopes are the slopes of the two edge cells. *)
Lemma ghost_slopes_by_type_witness :
  let H := Sample.ext_mean in
  let par := read_params (Sample.sample_config (-4)) in
  let g := {| UL := 0; PL := 1; RHOL := 1; HL := 0.5;
              UR := 0; PR := 0.125; RHOR := 0.125; HR := 0.5 |} in
  let s1 := reconstruct 1 2 1.5 Sample.tube Sample.grid g
              {| s_u := [0; 0]; s_p := [0; 0]; s_rho := [0; 0] |} in
  exists s',
    step par 2 1 (Sample.tube_state (-4)) = Continue s'
    /\ gs s' = {| SUL := s_u s1 !!! 0%nat; SUR := s_u s1 !!! 1%nat;
                  SPL := s_p s1 !!! 0%nat; SPR := s_p s1 !!! 1%nat;
                  SRHOL := s_rho s1 !!! 0%nat; SRHOR := s_rho s1 !!! 1%nat |}.
Proof.
  cbv zeta.
  destruct (@step Sample.ext_mean (read_params (Sample.sample_config (-4))) 2 1
              (Sample.tube_state (-4))) as [s'| |] eqn:Hstep;
    [|vm_compute in Hstep; discriminate Hstep
     |vm_compute in Hstep; discriminate Hstep].
  exists s'. split; [reflexivity|].
  apply (@ghost_slopes_by_type Sample.ext_mean 2 Sample.tube Sample.grid
           [0; 0] (Sample.sample_config (-4)) 1 (Sample.tube_state (-4)) s'
           true
           {| UL := 0; PL := 1; RHOL := 1; HL := 0.5;
              UR := 0; PR := 0.125; RHOR := 0.125; HR := 0.5 |}
           [MsgBoundary (-4)]).
  - apply reaches_here.
  - vm_compute. reflexivity.
  - left. exact Hstep.
  - reflexivity.
  - lia.
  - exact sample_limiters_vanish.
  - intros j [-> | ->]; vm_compute; repeat split.
Defined.

End GhostSlopeClaims.

(** ** The time step along the march (C2) *)

Module TimeStepClaims.

Import CMath GRP Spec LoopFacts IfaceFacts TimeStepFacts MarchInvariants.
Local Open Scope float_scope.

(** C2, as the code has it: in every step of the march that is carried
    through, with [hs] the least of Dx/(|u| + |c|), c = sqrt(gamma p / rho),
    over the left and the right reconstructed state of every interface
    0..m, and [t] the current time (the end time once a star state of this
    step has been flagged): when the end time is finite, or config[16] is
    not a finite positive number, the time step is CFL * hs, replaced by
    t_all - t when t + CFL * hs > t_all - eps; otherwise the time step is
    config[16]. *)
Theorem proposed_time_step `{Externals} (m : nat) (cv : cell_var_stru)
    (X : list (list float)) (cpu : list float) (config : config_array)
    (k : nat) (s s' : state) (fb : bool) (g : ghost_val)
    (msgs : list event) :
  let par := read_params config in
  reaches par m 1 (initial_state m cv X cpu config) k s ->
  boundary_values (bound par) m (h par) (CV s) (GRP.X s) (find_bound s) (gv s)
  = Some (fb, g, msgs) ->
  step par m k s = Continue s' \/ step par m k s = Break s' ->
  let s1 := reconstruct k m (alpha par) (CV s) (GRP.X s) g (sl s) in
  let gsl := boundary_slopes (bound par) m s1 (gs s) in
  let hs := min_ratio (gamma par) m (CV s) (GRP.X s) g gsl s1 in
  let t := if existsb (star_flagged par m (CV s) (GRP.X s) g gsl s1)
                (seq 0 (m + 1))
           then t_all par else time_c s in
  tau s'
  = if isfinite (t_all par) || negb (isfinite (config 16%nat))
       || (config 16%nat <=? 0.0)
    then if gtb (t + CFL par * hs) (t_all par - eps par)
         then t_all par - t else CFL par * hs
    else config 16%nat.
Proof.
  intros par Hreach Hbv Hstep. cbv zeta.
  destruct (reaches_fixed_tau par m 1 _ k s Hreach) as [Hcfg Htau].
  cbn [initial_state GRP.config GRP.tau] in Hcfg, Htau.
  rewrite (step_time_step par m k s s' fb g msgs Hbv Hstep). rewrite Hcfg.
  destruct (isfinite (t_all par) || negb (isfinite (config 16%nat))
            || (config 16%nat <=? 0.0)) eqn:Hmode; [reflexivity|].
  apply Htau; reflexivity.
Qed.

(** The first step of the sample tube under the Free tag. *)
Lemma proposed_time_step_witness :
  exists s',
    @step Sample.ext_mean (read_params (Sample.sample_config (-4))) 2 1
      (Sample.tube_state (-4)) = Continue s'
    /\ tau s' = 0.5 * @min_ratio Sample.ext_mean 1.5 2 Sample.tube Sample.grid
                       {| UL := 0; PL := 1; RHOL := 1; HL := 0.5;
                          UR := 0; PR := 0.125; RHOR := 0.125; HR := 0.5 |}
                       ghost_slope_init
                       (@reconstruct Sample.ext_mean 1 2 1.5 Sample.tube
                          Sample.grid
                          {| UL := 0; PL := 1; RHOL := 1; HL := 0.5;
                             UR := 0; PR := 0.125; RHOR := 0.125; HR := 0.5 |}
                          {| s_u := [0; 0]; s_p := [0; 0]; s_rho := [0; 0] |}).
Proof.
  destruct (@step Sample.ext_mean (read_params (Sample.sample_config (-4))) 2 1
              (Sample.tube_state (-4))) as [s'| |] eqn:Hstep;
    [|vm_compute in Hstep; discriminate Hstep
     |vm_compute in Hstep; discriminate Hstep].
  exists s'. split; [reflexivity|].
  pose proof (@proposed_time_step Sample.ext_mean 2 Sample.tube Sample.grid
                [0; 0] (Sample.sample_config (-4)) 1
                (Sample.tube_state (-4)) s' true
                {| UL := 0; PL := 1; RHOL := 1; HL := 0.5;
                   UR := 0; PR := 0.125; RHOR := 0.125; HR := 0.5 |}
                [MsgBoundary (-4)] (reaches_here _ _ _ _) eq_refl
                (or_introl Hstep)) as Htau.
  cbv zeta in Htau. rewrite Htau. vm_compute. reflexivity.
Defined.

(** With no end time and config[16] = 0.25 the time step of the first step
    is 0.25, whatever CFL * hs is. *)
Lemma fixed_time_step_is_not_the_CFL_step :
  match @step Sample.ext_mean (read_params (Sample.fixed_step_config (-4))) 2 1
          (Sample.fixed_step_state (-4)) with
  | Continue s' =>
      tau s' = 0.25
      /\ tau s' <> 0.5 * @min_ratio Sample.ext_mean 1.5 2 Sample.tube Sample.grid
                          (gv s') (gs s')
                          (@reconstruct Sample.ext_mean 1 2 1.5 Sample.tube
                             Sample.grid (gv s')
                             {| s_u := [0; 0]; s_p := [0; 0]; s_rho := [0; 0] |})
  | _ => False
  end.
Proof.
  vm_compute. split; [reflexivity | float_neq].
Qed.

End TimeStepClaims.

(** ** Slopes and fluxes along the march (C3, C1) *)

Module MarchClaims.

Import CMath GRP Spec LoopFacts IfaceFacts FluxFacts TimeStepFacts.
Import MarchInvariants.
Local Open Scope float_scope.

Section WithExternals.
Context `{Externals}.

(** C3: in every step [k] of the march, for every cell [j] and each of u,
    p and rho, the reconstructed slope is, at the first step, minmod2 of
    the left and right difference quotients s_L and s_R and, at a later
    step, minmod3 of alpha s_L, alpha s_R and the slope carried over from
    the step before; the ghost value replaces the missing neighbour at
    the two ends. *)
Theorem reconstructed_slope (m : nat) (cv : cell_var_stru)
    (X : list (list float)) (cpu : list float) (config : config_array)
    (k : nat) (s : state) (g : ghost_val) (j : nat) :
  let par := read_params config in
  reaches par m 1 (initial_state m cv X cpu config) k s ->
  (j < m)%nat ->
  let s' := reconstruct k m (alpha par) (CV s) (GRP.X s) g (sl s) in
  let x := GRP.X s !!! 0%nat in
  let quot (v : list float) (vL vR : float) :=
    (s_L v vL x (HL g) j, s_R m v vR x (HR g) j) in
  let lim (q : float * float) (prev : float) :=
    if (k =? 1)%nat then minmod2 (fst q) (snd q)
    else minmod3 (alpha par * fst q) (alpha par * snd q) prev in
  s_u s' !!! j
  = lim (quot (U (CV s) !!! 0%nat) (UL g) (UR g)) (s_u (sl s) !!! j)
  /\ s_p s' !!! j
     = lim (quot (P (CV s) !!! 0%nat) (PL g) (PR g)) (s_p (sl s) !!! j)
  /\ s_rho s' !!! j
     = lim (quot (RHO (CV s) !!! 0%nat) (RHOL g) (RHOR g))
         (s_rho (sl s) !!! j).
Proof.
  intros par Hreach Hj.
  destruct (reaches_sized par m 1 _ k s Hreach (initial_state_sized _ _ _ _ _))
    as ((Hu & Hp & Hr) & _).
  apply ReconstructFacts.reconstruct_at; assumption.
Qed.

(** The slope carried over: a step that goes on leaves, for the next one,
    the difference quotients of the interface values it has advanced to
    the new time. *)
Lemma carried_slope (par : params) (m k : nat) (s0 s s' : state) (j : nat) :
  reaches par m 1 s0 k s -> sized m s0 ->
  step par m k s = Continue s' ->
  (j < m)%nat ->
  let dx := get2 (GRP.X s') nt (j + 1) - get2 (GRP.X s') nt j in
  s_u (sl s') !!! j
  = (U_next (nx s') !!! (j + 1)%nat - U_next (nx s') !!! j) / dx
  /\ s_p (sl s') !!! j
     = (P_next (nx s') !!! (j + 1)%nat - P_next (nx s') !!! j) / dx
  /\ s_rho (sl s') !!! j
     = (RHO_next (nx s') !!! (j + 1)%nat - RHO_next (nx s') !!! j) / dx.
Proof.
  intros Hreach Hs0 Hstep Hj.
  destruct (reaches_sized par m 1 s0 k s Hreach Hs0) as (Hsl & _).
  destruct (step_finished par m k s s' (or_introl Hstep))
    as (fb & g & msgs & i & _ & _ & Hfin).
  rewrite Hfin in Hstep. unfold finish_step in Hstep.
  destruct (time_is_up par _); [discriminate|]. injection Hstep as <-.
  cbn [sl nx GRP.X].
  destruct (reconstruct_sized k m (alpha par) (CV s) (GRP.X s) g (sl s) Hsl)
    as (Hu & Hp & Hr).
  apply UpdateFacts.update_loop_slopes; assumption.
Qed.

(** C1, as the code has it: in every step of the march that is carried
    through, with Delta_t the time step of the step, at every interface
    [j] the three fluxes are F1 = rho_hat u_hat, F2 = F1 u_hat + p_hat and
    F3 = u_hat (gamma/(gamma-1) p_hat + 1/2 F1 u_hat), where
    (rho_hat, u_hat, p_hat) is the star state the GRP solver returned for
    [j] advanced by half the time step along its time derivative; once
    the fluxes are taken the same half step is added a second time, so
    the interface state the step leaves behind is the star state advanced
    by two half steps. *)
Theorem flux_from_half_step (m : nat) (cv : cell_var_stru)
    (X : list (list float)) (cpu : list float) (config : config_array)
    (k : nat) (s s' : state) (fb : bool) (g : ghost_val)
    (msgs : list event) (j : nat) :
  let par := read_params config in
  reaches par m 1 (initial_state m cv X cpu config) k s ->
  boundary_values (bound par) m (h par) (CV s) (GRP.X s) (find_bound s) (gv s)
  = Some (fb, g, msgs) ->
  step par m k s = Continue s' \/ step par m k s = Break s' ->
  (j <= m)%nat ->
  let s1 := reconstruct k m (alpha par) (CV s) (GRP.X s) g (sl s) in
  let gsl := boundary_slopes (bound par) m s1 (gs s) in
  let dire := fst (solve_interface par m (CV s) (GRP.X s) g gsl s1 j) in
  let mid := snd (solve_interface par m (CV s) (GRP.X s) g gsl s1 j) in
  let hat := advance (tau s') dire mid in
  flux_at (fl s') j = fluxes (gamma par) hat
  /\ next_at (nx s') j = advance (tau s') dire hat.
Proof.
  intros par Hreach Hbv Hstep Hj. cbv zeta.
  destruct (reaches_sized par m 1 _ k s Hreach (initial_state_sized _ _ _ _ _))
    as (_ & Hnx & Hfl).
  destruct (finished_fields par m k s s' fb g msgs Hbv Hstep)
    as (i & Hloop & -> & -> & ->).
  unfold step_flux.
  apply (FluxClaims.flux_loop_from_star par k m (CV s) (GRP.X s) g _ _
           {| h_S_max := INFINITY; i_time_c := time_c s;
              i_nx := nx s; i_out := out s ++ msgs |} i);
    assumption.
Qed.

End WithExternals.

(** The first cell of the sample tube at the first step. *)
Lemma reconstructed_slope_witness :
  let H := Sample.ext_mean in
  let g := {| UL := 0; PL := 1; RHOL := 1; HL := 0.5;
              UR := 0; PR := 0.125; RHOR := 0.125; HR := 0.5 |} in
  let s := {| s_u := [0; 0]; s_p := [0; 0]; s_rho := [0; 0] |} in
  let s' := reconstruct 1 2 1.5 Sample.tube Sample.grid g s in
  s_u s' !!! 0%nat
  = minmod2 (s_L [0; 0] 0 [0; 0.5; 1] 0.5 0) (s_R 2 [0; 0] 0 [0; 0.5; 1] 0.5 0)
  /\ s_p s' !!! 0%nat
     = minmod2 (s_L [1; 0.125] 1 [0; 0.5; 1] 0.5 0)
         (s_R 2 [1; 0.125] 0.125 [0; 0.5; 1] 0.5 0)
  /\ s_rho s' !!! 0%nat
     = minmod2 (s_L [1; 0.125] 1 [0; 0.5; 1] 0.5 0)
         (s_R 2 [1; 0.125] 0.125 [0; 0.5; 1] 0.5 0).
Proof.
  cbv zeta.
  apply (@reconstructed_slope Sample.ext_mean 2 Sample.tube Sample.grid [0; 0]
           (Sample.sample_config (-4)) 1 (Sample.tube_state (-4))
           {| UL := 0; PL := 1; RHOL := 1; HL := 0.5;
              UR := 0; PR := 0.125; RHOR := 0.125; HR := 0.5 |} 0);
    [apply reaches_here | lia].
Defined.

(** The first step of the sample tube, at the interface between its two
    cells. *)
Lemma flux_from_half_step_witness :
  let H := Sample.ext_mean in
  let par := read_params (Sample.sample_config (-4)) in
  let g := {| UL := 0; PL := 1; RHOL := 1; HL := 0.5;
              UR := 0; PR := 0.125; RHOR := 0.125; HR := 0.5 |} in
  let s1 := reconstruct 1 2 1.5 Sample.tube Sample.grid g
              {| s_u := [0; 0]; s_p := [0; 0]; s_rho := [0; 0] |} in
  let sol := solve_interface par 2 Sample.tube Sample.grid g
               ghost_slope_init s1 1 in
  exists s',
    step par 2 1 (Sample.tube_state (-4)) = Continue s'
    /\ flux_at (fl s') 1
       = fluxes 1.5 (advance (tau s') (fst sol) (snd sol))
    /\ next_at (nx s') 1
       = advance (tau s') (fst sol) (advance (tau s') (fst sol) (snd sol)).
Proof.
  cbv zeta.
  destruct (@step Sample.ext_mean (read_params (Sample.sample_config (-4))) 2 1
              (Sample.tube_state (-4))) as [s'| |] eqn:Hstep;
    [|vm_compute in Hstep; discriminate Hstep
     |vm_compute in Hstep; discriminate Hstep].
  exists s'. split; [reflexivity|].
  apply (@flux_from_half_step Sample.ext_mean 2 Sample.tube Sample.grid [0; 0]
           (Sample.sample_config (-4)) 1 (Sample.tube_state (-4)) s' true
           {| UL := 0; PL := 1; RHOL := 1; HL := 0.5;
              UR := 0; PR := 0.125; RHOR := 0.125; HR := 0.5 |}
           [MsgBoundary (-4)] 1).
  - apply reaches_here.
  - vm_compute. reflexivity.
  - left. exact Hstep.
  - lia.
Defined.

End MarchClaims.

(** * Part III: further properties of the code *)

(** ** The order of the doubles, and [fmin] *)

Module FloatOrder.

Import CMath.
Local Open Scope float_scope.

Ltac cmp :=
  repeat match goal with
  | |- context [PosDef.Pos.compare_cont Eq ?a ?b] =>
      change (PosDef.Pos.compare_cont Eq a b) with (a ?= b)%positive
  | H : context [PosDef.Pos.compare_cont Eq ?a ?b] |- _ =>
      change (PosDef.Pos.compare_cont Eq a b) with (a ?= b)%positive in H
  end;
  repeat match goal with
  | |- context [(?a ?= ?b)%Z] => destruct (Z.compare_spec a b)
  | H : context [(?a ?= ?b)%Z] |- _ => destruct (Z.compare_spec a b)
  | |- context [(?a ?= ?b)%positive] => destruct (Pos.compare_spec a b)
  | H : context [(?a ?= ?b)%positive] |- _ => destruct (Pos.compare_spec a b)
  end; simpl in *; try discriminate; try reflexivity; try lia.

Lemma SFleb_trans (x y z : spec_float) :
  SFleb x y = true -> SFleb y z = true -> SFleb x z = true.
Proof.
  unfold SFleb, SFcompare.
  destruct x as [[]|[]| |[] mx ex], y as [[]|[]| |[] my ey],
    z as [[]|[]| |[] mz ez];
    try discriminate; try reflexivity; cmp.
Qed.

Lemma SFleb_refl (x : spec_float) : x <> S754_nan -> SFleb x x = true.
Proof.
  unfold SFleb, SFcompare.
  destruct x as [[]|[]| |[] mx ex]; try congruence; try reflexivity;
    intros _; cmp.
Qed.

Lemma SFleb_total (x y : spec_float) :
  x <> S754_nan -> y <> S754_nan -> SFltb x y = false -> SFleb y x = true.
Proof.
  unfold SFleb, SFltb, SFcompare.
  destruct x as [[]|[]| |[] mx ex], y as [[]|[]| |[] my ey];
    try congruence; try reflexivity; intros _ _; cmp.
Qed.

Lemma SFltb_leb (x y : spec_float) : SFltb x y = true -> SFleb x y = true.
Proof.
  unfold SFleb, SFltb. destruct (SFcompare x y) as [[]|]; congruence.
Qed.

Lemma is_nan_spec (x : float) : is_nan x = false <-> Prim2SF x <> S754_nan.
Proof.
  unfold is_nan. rewrite FloatAxioms.eqb_spec, negb_false_iff.
  unfold SFeqb, SFcompare.
  destruct (Prim2SF x) as [[]|[]| |[] mx ex]; split; try congruence;
    try reflexivity; try discriminate; intros _; cmp.
Qed.

Lemma leb_trans (x y z : float) :
  (x <=? y) = true -> (y <=? z) = true -> (x <=? z) = true.
Proof. rewrite !leb_spec. apply SFleb_trans. Qed.

Lemma leb_refl (x : float) : is_nan x = false -> (x <=? x) = true.
Proof. rewrite leb_spec, is_nan_spec. apply SFleb_refl. Qed.

Lemma fmin_not_nan (x y : float) :
  is_nan x = false \/ is_nan y = false -> is_nan (fmin x y) = false.
Proof.
  unfold fmin. destruct (is_nan x) eqn:Ex, (is_nan y) eqn:Ey;
    try destruct (x <? y); intros [?|?]; congruence.
Qed.

Lemma fmin_le_l (x y : float) :
  is_nan x = false -> (fmin x y <=? x) = true.
Proof.
  intros Hx. unfold fmin. rewrite Hx.
  destruct (is_nan y) eqn:Hy; [now apply leb_refl|].
  destruct (x <? y) eqn:Hlt; [now apply leb_refl|].
  rewrite leb_spec. rewrite ltb_spec in Hlt.
  apply SFleb_total; [now apply is_nan_spec..|assumption].
Qed.

Lemma fmin_le_r (x y : float) :
  is_nan y = false -> (fmin x y <=? y) = true.
Proof.
  intros Hy. unfold fmin. destruct (is_nan x) eqn:Hx; [now apply leb_refl|].
  rewrite Hy. destruct (x <? y) eqn:Hlt; [|now apply leb_refl].
  rewrite leb_spec. rewrite ltb_spec in Hlt. now apply SFltb_leb.
Qed.

Lemma fmin_choice (x y : float) : fmin x y = x \/ fmin x y = y.
Proof.
  unfold fmin. destruct (is_nan x), (is_nan y), (x <? y); auto.
Qed.

(** A chain of [fmin] that starts from a number: the result is a number,
    it is below the start and below every number of the list, and it is
    the start or an element of the list. *)
Lemma fold_fmin_lower_bound (l : list float) :
  forall acc,
    is_nan acc = false ->
    let r := fold_left fmin l acc in
    is_nan r = false
    /\ (r <=? acc) = true
    /\ (forall x, In x l -> is_nan x = false -> (r <=? x) = true)
    /\ (r = acc \/ In r l).
Proof.
  induction l as [|a l IH]; intros acc Hacc; cbv zeta; cbn [fold_left].
  - split; [assumption|]. split; [now apply leb_refl|].
    split; [intros x []|now left].
  - assert (Hn : is_nan (fmin acc a) = false) by (apply fmin_not_nan; auto).
    destruct (IH _ Hn) as (H1 & H2 & H3 & H4).
    split; [|split; [|split]].
    + assumption.
    + eapply leb_trans; [exact H2|]. now apply fmin_le_l.
    + intros x [<-|Hx] Hnx.
      * eapply leb_trans; [exact H2|]. now apply fmin_le_r.
      * now apply H3.
    + destruct H4 as [H4|H4]; [|right; now right].
      rewrite H4.
      destruct (fmin_choice acc a) as [E|E]; rewrite E; [now left|].
      right. now left.
Qed.

End FloatOrder.

(** ** The casts between [int] and [double] *)

Module CastFacts.

Import CMath.

Lemma digits2_pos_iter (p : positive) (k : positive) :
  digits2_pos (Pos.iter xO p k) = (digits2_pos p + k)%positive.
Proof.
  induction k as [|k IH] using Pos.peano_ind.
  - simpl. lia.
  - rewrite Pos.iter_succ. simpl. rewrite IH. lia.
Qed.

Lemma Zpos_iter_xO (p k : positive) :
  Z.pos (Pos.iter xO p k) = (Z.pos p * 2 ^ Z.pos k)%Z.
Proof.
  induction k as [|k IH] using Pos.peano_ind.
  - simpl. lia.
  - rewrite Pos.iter_succ, Pos2Z.inj_xO, IH, Pos2Z.inj_succ, Z.pow_succ_r by lia.
    lia.
Qed.

Lemma digits2_pos_bound (p : positive) :
  (Z.pos p < 2 ^ 53 -> Z.pos (digits2_pos p) <= 53)%Z.
Proof.
  assert (G : forall q, (2 ^ (Z.pos (digits2_pos q) - 1) <= Z.pos q)%Z).
  { induction q as [q IH|q IH|]; cbn [digits2_pos].
    - rewrite Pos2Z.inj_succ.
      replace (Z.succ (Z.pos (digits2_pos q)) - 1)%Z
        with (Z.succ (Z.pos (digits2_pos q) - 1))%Z by lia.
      rewrite Z.pow_succ_r by lia. lia.
    - rewrite Pos2Z.inj_succ.
      replace (Z.succ (Z.pos (digits2_pos q)) - 1)%Z
        with (Z.succ (Z.pos (digits2_pos q) - 1))%Z by lia.
      rewrite Z.pow_succ_r by lia. lia.
    - simpl. lia. }
  intros Hp.
  destruct (Z_le_gt_dec (Z.pos (digits2_pos p)) 53) as [|Hgt]; [assumption|].
  exfalso. specialize (G p).
  assert (2 ^ 53 <= 2 ^ (Z.pos (digits2_pos p) - 1))%Z
    by (apply Z.pow_le_mono_r; lia).
  lia.
Qed.

(** A mantissa of 53 digits is not rounded. *)
Lemma binary_round_aux_exact (m : positive) (e : Z) :
  Z.pos (digits2_pos m) = 53%Z -> (-1074 <= e <= 971)%Z ->
  binary_round_aux prec emax false (Z.pos m) e loc_Exact = S754_finite false m e.
Proof.
  intros Hd He.
  unfold binary_round_aux, shr_fexp. cbn [Zdigits2 shr_record_of_loc].
  rewrite Hd.
  assert (F : (fexp prec emax (53 + e) - e = 0)%Z).
  { unfold fexp, emin, prec, emax. lia. }
  rewrite F. cbn [shr shr_m loc_of_shr_record round_nearest_even Zdigits2
                  shr_record_of_loc].
  rewrite Hd, F. cbn [shr shr_m].
  replace (e <=? emax - prec)%Z with true; [reflexivity|].
  symmetry. apply Z.leb_le. unfold emax, prec. lia.
Qed.

(** The double of a positive [int]: the same number, with a mantissa
    shifted to 53 digits. *)
Lemma Prim2SF_of_int (n : Z) :
  (1 <= n < 2 ^ 53)%Z ->
  exists m e, Prim2SF (of_int n) = S754_finite false m e
              /\ (e <= 0)%Z /\ (Z.pos m = n * 2 ^ (- e))%Z.
Proof.
  intros Hn. unfold of_int.
  replace (n <? 0)%Z with false by (symmetry; apply Z.ltb_ge; lia).
  rewrite of_uint63_spec, Uint63.of_Z_spec.
  rewrite Z.mod_small
    by (split; [lia|apply Z.lt_trans with (2 ^ 53)%Z; [lia|reflexivity]]).
  destruct n as [|p|p]; try lia. cbn [binary_normalize].
  unfold binary_round.
  pose proof (digits2_pos_bound p (proj2 Hn)) as Hd.
  assert (F : (fexp prec emax (Z.pos (digits2_pos p) + 0)
               = Z.pos (digits2_pos p) - 53)%Z).
  { unfold fexp, emin, prec, emax. lia. }
  rewrite F. unfold shl_align.
  destruct (Z.pos (digits2_pos p) - 53 - 0)%Z as [|k|k] eqn:Ek; try lia.
  - exists p, 0%Z. split; [|split; [lia|simpl; lia]].
    apply binary_round_aux_exact; lia.
  - exists (Pos.iter xO p k), (Z.pos (digits2_pos p) - 53)%Z.
    split; [|split; [lia|]].
    + apply binary_round_aux_exact; [|lia].
      rewrite digits2_pos_iter. lia.
    + rewrite Zpos_iter_xO. f_equal. f_equal. lia.
Qed.

(** [(int)(double)n = n] for a count [n]. *)
Lemma to_int_of_int (n : Z) :
  (1 <= n < 2 ^ 53)%Z -> to_int (of_int n) = n.
Proof.
  intros Hn. destruct (Prim2SF_of_int n Hn) as (m & e & Hm & He & Hv).
  unfold to_int. rewrite Hm, Hv.
  rewrite <- (Z.opp_involutive e) at 2. rewrite Z.shiftl_opp_r.
  rewrite Z.shiftr_div_pow2 by lia.
  apply Z.div_mul. apply Z.pow_nonzero; lia.
Qed.

Lemma isinf_of_int (n : Z) :
  (1 <= n < 2 ^ 53)%Z -> isinf (of_int n) = false.
Proof.
  intros Hn. destruct (Prim2SF_of_int n Hn) as (m & e & Hm & _).
  unfold isinf, is_infinity.
  rewrite FloatAxioms.eqb_spec, abs_spec, Hm. reflexivity.
Qed.

End CastFacts.

(** ** The bound of the time step *)

Module StepSizeFacts.

Import CMath GRP Spec LoopFacts IfaceFacts FloatOrder.
Local Open Scope float_scope.

Section WithExternals.
Context `{Externals}.

(** X1.  Lines 286-289 ([h_S_max = fmin(h_S_max, h/(|u|+c))] at both sides
    of every interface, from [INFINITY]): when the interface loop gets
    through, [h_S_max] is not a NaN, it is at most the ratio of either side
    of every interface whose ratio is not a NaN, and it is [INFINITY] or
    one of these ratios. *)
Theorem step_bound_is_the_least_ratio (par : params) (k m : nat)
    (cv : cell_var_stru) (X : list (list float)) (g : ghost_val)
    (gsl : ghost_slope) (s : slopes) (st i : iface_state) :
  iface_loop par k m cv X g gsl s st = inl i ->
  h_S_max st = INFINITY ->
  is_nan (h_S_max i) = false
  /\ (forall j, (j <= m)%nat ->
        let rl := ratio (gamma par) (left_state cv X g gsl s j) in
        let rr := ratio (gamma par) (right_state m cv X g gsl s j) in
        (is_nan rl = false -> (h_S_max i <=? rl) = true)
        /\ (is_nan rr = false -> (h_S_max i <=? rr) = true))
  /\ (h_S_max i = INFINITY
      \/ exists j, (j <= m)%nat
           /\ (h_S_max i = ratio (gamma par) (left_state cv X g gsl s j)
               \/ h_S_max i
                  = ratio (gamma par) (right_state m cv X g gsl s j))).
Proof.
  intros Hloop Hst.
  apply iface_loop_turns in Hloop. subst i.
  rewrite turns_h_S_max, Hst.
  set (rs := flat_map _ _).
  destruct (fold_fmin_lower_bound rs INFINITY eq_refl) as (H1 & _ & H3 & H4).
  assert (Hin : forall j x, (j <= m)%nat ->
            x = ratio (gamma par) (left_state cv X g gsl s j)
            \/ x = ratio (gamma par) (right_state m cv X g gsl s j) ->
            In x rs).
  { intros j x Hj Hx. apply in_flat_map. exists j. split.
    - apply in_seq. lia.
    - cbn [In]. destruct Hx as [->| ->]; auto. }
  split; [exact H1|]. split.
  - intros j Hj rl rr. split; intros Hn; apply H3; try assumption;
      apply (Hin j); auto.
  - destruct H4 as [H4|H4]; [now left|right].
    apply in_flat_map in H4. destruct H4 as (j & Hj & Hx).
    apply in_seq in Hj. exists j. split; [lia|].
    cbn [In] in Hx. destruct Hx as [Hx|[Hx|[]]]; [left|right]; now symmetry.
Qed.

End WithExternals.

(** The bound of the first step of the sample tube. *)
Lemma step_bound_witness :
  let i := for_loop 3 0
             (@iface_turn Sample.ext_mean
                (read_params (Sample.sample_config (-4))) 1 2 Sample.tube
                Sample.grid Sample2.tube_ghost ghost_slope_init
                Sample2.zero_slopes)
             {| h_S_max := INFINITY; i_time_c := 0; i_nx := nx (Sample.tube_state (-4));
                i_out := [] |} in
  is_nan (h_S_max i) = false
  /\ (h_S_max i <=? ratio 1.5 (left_state Sample.tube Sample.grid
                                Sample2.tube_ghost ghost_slope_init
                                Sample2.zero_slopes 1)) = true.
Proof.
  intros i.
  destruct (@step_bound_is_the_least_ratio Sample.ext_mean
              (read_params (Sample.sample_config (-4))) 1 2 Sample.tube
              Sample.grid Sample2.tube_ghost ghost_slope_init
              Sample2.zero_slopes
              {| h_S_max := INFINITY; i_time_c := 0;
                 i_nx := nx (Sample.tube_state (-4)); i_out := [] |} i)
    as (H1 & H2 & _).
  - vm_compute. reflexivity.
  - reflexivity.
  - split; [exact H1|].
    apply (H2 1%nat); [lia|vm_compute; reflexivity].
Defined.

End StepSizeFacts.

(** ** The rows a turn of the main loop leaves *)

Module RowFacts.

Import CMath GRP Spec Rows LoopFacts IfaceFacts TimeStepFacts UpdateFacts.
Local Open Scope float_scope.

Lemma store_cell_shaped (N m j : nat) (c : float * float * float * float)
    (cv : cell_var_stru) :
  cells_shaped N m cv -> cells_shaped N m (store_cell j c cv).
Proof.
  destruct c as [[[rho_n u_n] e_n] p_n]. intros (H1 & H2 & H3 & H4).
  unfold cells_shaped, store_cell; cbn [RHO U P E].
  repeat split; try (apply GridFacts.shaped_set2; assumption);
    rewrite ?length_set2; try apply H1; try apply H2; try apply H3;
    try apply H4.
Qed.

Lemma cell_at_store_cell_eq (N m j : nat) (c : float * float * float * float)
    (cv : cell_var_stru) :
  cells_shaped N m cv -> (nt < N)%nat -> (j < m)%nat ->
  cell_at (store_cell j c cv) nt j = c.
Proof.
  destruct c as [[[rho_n u_n] e_n] p_n].
  intros ([L1 W1] & [L2 W2] & [L3 W3] & [L4 W4]) HN Hj.
  unfold cell_at, store_cell; cbn [RHO U P E].
  rewrite !get2_set2_eq; try reflexivity;
    rewrite ?L1, ?L2, ?L3, ?L4, ?W1, ?W2, ?W3, ?W4; assumption.
Qed.

Lemma cell_at_store_cell_ne (i j : nat) (c : float * float * float * float)
    (cv : cell_var_stru) :
  i <> j -> cell_at (store_cell j c cv) nt i = cell_at cv nt i.
Proof.
  destruct c as [[[rho_n u_n] e_n] p_n]. intros Hij.
  unfold cell_at, store_cell; cbn [RHO U P E].
  rewrite !get2_set2_col_ne by congruence. reflexivity.
Qed.

(** The update loop (lines 367-396) fills row [nt]: cell [j] gets the
    values computed from row [nt-1] as the loop found it. *)
Lemma update_loop_rows (par : params) (k m : nat) (nu : float)
    (nxt : iface) (f : flux) (X : list (list float)) (st : update_state)
    (N : nat) :
  cells_shaped N m (u_cv st) -> (nt < N)%nat ->
  let u := update_loop par k m nu nxt f X st in
  cells_shaped N m (u_cv u)
  /\ forall j, (j < m)%nat ->
       cell_at (u_cv u) nt j = updated_cell par nu f (u_cv st) j.
Proof.
  intros Hsh HN. cbv zeta. unfold update_loop.
  assert (G : cells_shaped N m
                (u_cv (for_loop m 0 (update_body par k nu nxt f X) st))
              /\ same_old_rows (u_cv st)
                   (u_cv (for_loop m 0 (update_body par k nu nxt f X) st))
              /\ forall j, (j < 0 + m)%nat ->
                   cell_at (u_cv (for_loop m 0 (update_body par k nu nxt f X) st))
                     nt j
                   = updated_cell par nu f (u_cv st) j).
  { apply (for_loop_inv
             (fun n st' =>
                cells_shaped N m (u_cv st')
                /\ same_old_rows (u_cv st) (u_cv st')
                /\ forall j, (j < n)%nat ->
                     cell_at (u_cv st') nt j
                     = updated_cell par nu f (u_cv st) j)
             (update_body par k nu nxt f X) m 0 st).
    - split; [exact Hsh|]. split; [apply same_old_rows_refl|]. intros j Hj. lia.
    - intros n st' Hn (Hs & Hrows & Hcells). cbn [update_body u_cv].
      split; [now apply store_cell_shaped|].
      split; [now apply store_cell_old_rows|].
      intros j Hj. destruct (Nat.eq_dec j n) as [->|Hne].
      + rewrite (cell_at_store_cell_eq N m) by (try assumption; lia).
        now apply updated_cell_old_rows.
      + rewrite cell_at_store_cell_ne by assumption. apply Hcells. lia. }
  destruct G as (G1 & _ & G3). split; [exact G1|exact G3].
Qed.

Lemma copy_back_body_shaped (N m j : nat) (cv : cell_var_stru) :
  cells_shaped N m cv -> cells_shaped N m (copy_back_body j cv).
Proof.
  intros (H1 & H2 & H3 & H4).
  unfold cells_shaped, copy_back_body; cbn [RHO U P E].
  repeat split; try (apply GridFacts.shaped_set2; assumption);
    rewrite ?length_set2; try apply H1; try apply H2; try apply H3;
    try apply H4.
Qed.

(** The last loop of a turn (lines 416-422) copies row [nt] onto row
    [nt-1] and leaves the other rows. *)
Lemma copy_back_rows (N m : nat) (cv : cell_var_stru) :
  cells_shaped N m cv -> (nt < N)%nat ->
  cells_shaped N m (copy_back m cv)
  /\ (forall j, (j < m)%nat -> cell_at (copy_back m cv) 0 j = cell_at cv nt j)
  /\ (forall r, r <> 0%nat ->
        RHO (copy_back m cv) !!! r = RHO cv !!! r
        /\ U (copy_back m cv) !!! r = U cv !!! r
        /\ P (copy_back m cv) !!! r = P cv !!! r
        /\ E (copy_back m cv) !!! r = E cv !!! r).
Proof.
  intros Hsh HN. unfold copy_back.
  assert (G : cells_shaped N m (for_loop m 0 copy_back_body cv)
              /\ (forall r, r <> 0%nat ->
                    RHO (for_loop m 0 copy_back_body cv) !!! r = RHO cv !!! r
                    /\ U (for_loop m 0 copy_back_body cv) !!! r = U cv !!! r
                    /\ P (for_loop m 0 copy_back_body cv) !!! r = P cv !!! r
                    /\ E (for_loop m 0 copy_back_body cv) !!! r = E cv !!! r)
              /\ forall j, (j < 0 + m)%nat ->
                   cell_at (for_loop m 0 copy_back_body cv) 0 j
                   = cell_at cv nt j).
  { apply (for_loop_inv
             (fun n cv' =>
                cells_shaped N m cv'
                /\ (forall r, r <> 0%nat ->
                      RHO cv' !!! r = RHO cv !!! r /\ U cv' !!! r = U cv !!! r
                      /\ P cv' !!! r = P cv !!! r /\ E cv' !!! r = E cv !!! r)
                /\ forall j, (j < n)%nat -> cell_at cv' 0 j = cell_at cv nt j)
             copy_back_body m 0 cv).
    - split; [exact Hsh|]. split; [tauto|]. intros j Hj. lia.
    - intros n cv' Hn (Hs & Hrows & Hcells).
      split; [now apply copy_back_body_shaped|]. split.
      + intros r Hr. destruct (Hrows r Hr) as (R1 & R2 & R3 & R4).
        unfold copy_back_body; cbn [RHO U P E].
        change (nt - 1)%nat with 0%nat.
        rewrite !row_set2_ne by congruence. tauto.
      + intros j Hj.
        destruct (Hrows nt) as (R1 & R2 & R3 & R4); [discriminate|].
        destruct Hs as ([L1 W1] & [L2 W2] & [L3 W3] & [L4 W4]).
        unfold cell_at, copy_back_body; cbn [RHO U P E].
        change (nt - 1)%nat with 0%nat.
        destruct (Nat.eq_dec j n) as [->|Hne].
        * rewrite !get2_set2_eq
            by (rewrite ?L1, ?L2, ?L3, ?L4, ?W1, ?W2, ?W3, ?W4;
                unfold nt in *; lia).
          unfold get2. rewrite R1, R2, R3, R4. reflexivity.
        * rewrite !get2_set2_col_ne by congruence.
          apply (Hcells j). lia. }
  destruct G as (G1 & G2 & G3). split; [exact G1|]. split; [exact G3|exact G2].
Qed.

Section WithExternals.
Context `{Externals}.

(** What a turn that runs to its end leaves, by the way it ends. *)
Lemma step_done (par : params) (m k : nat) (s s' : state) :
  step par m k s = Continue s' \/ step par m k s = Break s' ->
  exists (s1 : slopes) (i : iface_state),
    tau s' = step_tau par s i
    /\ fl s' = f_fl (step_flux par m s i)
    /\ cpu_time s' = <[ nt := (toc k - tic k) / CLOCKS_PER_SEC ]> (cpu_time s)
    /\ (step par m k s = Continue s' ->
        CV s' = copy_back m (u_cv (step_update par m k s s1 i))
        /\ config s' = config s)
    /\ (step par m k s = Break s' ->
        CV s' = u_cv (step_update par m k s s1 i)
        /\ config s' = config_set (config s) 5 (of_nat k)).
Proof.
  intros Hstep.
  destruct (step_finished par m k s s' Hstep) as (fb & g & msgs & i & _ & _ & E).
  exists (reconstruct k m (alpha par) (CV s) (X s) g (sl s)), i.
  rewrite E in *. clear E. revert Hstep. unfold finish_step.
  fold (step_tau par s i). fold (step_flux par m s i).
  fold (step_update par m k s
          (reconstruct k m (alpha par) (CV s) (X s) g (sl s)) i).
  destruct (time_is_up par _); intros [Hc|Hb]; try discriminate.
  - injection Hb as <-. cbn [tau fl cpu_time CV config].
    repeat split; intros; discriminate.
  - injection Hc as <-. cbn [tau fl cpu_time CV config].
    repeat split; intros; discriminate.
Qed.

(** X2.  Lines 367-396 and 416-422: after a turn that is followed by
    another one, cell [j] of row [nt-1] holds the conservative update of
    the values the turn found there, with the time step and the fluxes the
    turn leaves behind, and row [nt] holds the same values. *)
Theorem continued_step_rows (par : params) (m k N : nat) (s s' : state) :
  cells_shaped N m (CV s) -> (2 <= N)%nat ->
  step par m k s = Continue s' ->
  cells_shaped N m (CV s')
  /\ forall j, (j < m)%nat ->
       cell_at (CV s') 0 j
       = updated_cell par (tau s' / h par) (fl s') (CV s) j
       /\ cell_at (CV s') nt j = cell_at (CV s') 0 j.
Proof.
  intros Hsh HN Hstep.
  destruct (step_done par m k s s' (or_introl Hstep))
    as (s1 & i & Et & Ef & _ & Hc & _).
  destruct (Hc Hstep) as [Ecv _]. rewrite Ecv, Et, Ef.
  assert (HN' : (nt < N)%nat) by (unfold nt; lia).
  destruct (update_loop_rows par k m (step_tau par s i / h par)
              (f_nx (step_flux par m s i)) (f_fl (step_flux par m s i))
              (f_X (step_flux par m s i))
              {| u_cv := CV s; u_time_c := i_time_c i; u_sl := s1;
                 u_out := i_out i |} N Hsh HN') as [Ush Ucells].
  fold (step_update par m k s s1 i) in Ush, Ucells. cbn [u_cv] in Ucells.
  destruct (copy_back_rows N m _ Ush HN') as (Csh & Ccells & Crows).
  split; [exact Csh|]. intros j Hj.
  rewrite (Ccells j Hj), (Ucells j Hj). split; [reflexivity|].
  destruct (Crows nt) as (R1 & R2 & R3 & R4); [discriminate|].
  rewrite <- (Ucells j Hj). unfold cell_at, get2.
  rewrite R1, R2, R3, R4. reflexivity.
Qed.

(** X3.  Lines 409-413: a turn that ends the march leaves through [break]
    before the copy of lines 416-422, so the new values are in row [nt]
    only, and row [nt-1] still holds the values of the step before. *)
Theorem last_step_rows (par : params) (m k N : nat) (s s' : state) :
  cells_shaped N m (CV s) -> (2 <= N)%nat ->
  step par m k s = Break s' ->
  cells_shaped N m (CV s')
  /\ forall j, (j < m)%nat ->
       cell_at (CV s') nt j
       = updated_cell par (tau s' / h par) (fl s') (CV s) j
       /\ cell_at (CV s') 0 j = cell_at (CV s) 0 j.
Proof.
  intros Hsh HN Hstep.
  destruct (step_done par m k s s' (or_intror Hstep))
    as (s1 & i & Et & Ef & _ & _ & Hb).
  destruct (Hb Hstep) as [Ecv _]. rewrite Ecv, Et, Ef.
  assert (HN' : (nt < N)%nat) by (unfold nt; lia).
  destruct (update_loop_rows par k m (step_tau par s i / h par)
              (f_nx (step_flux par m s i)) (f_fl (step_flux par m s i))
              (f_X (step_flux par m s i))
              {| u_cv := CV s; u_time_c := i_time_c i; u_sl := s1;
                 u_out := i_out i |} N Hsh HN') as [Ush Ucells].
  destruct (update_loop_spec par k m (step_tau par s i / h par)
              (f_nx (step_flux par m s i)) (f_fl (step_flux par m s i))
              (f_X (step_flux par m s i))
              {| u_cv := CV s; u_time_c := i_time_c i; u_sl := s1;
                 u_out := i_out i |}) as [(R1 & R2 & R3 & R4) _].
  fold (step_update par m k s s1 i) in Ush, Ucells, R1, R2, R3, R4.
  cbn [u_cv] in Ucells, R1, R2, R3, R4.
  change (nt - 1)%nat with 0%nat in R1, R2, R3, R4.
  split; [exact Ush|]. intros j Hj. split; [exact (Ucells j Hj)|].
  unfold cell_at, get2. rewrite R1, R2, R3, R4. reflexivity.
Qed.

End WithExternals.

Lemma tube_shaped : cells_shaped 2 2 Sample.tube.
Proof.
  repeat split; intros [|[|r]] Hr; try reflexivity; lia.
Qed.

Lemma continued_step_rows_witness :
  cells_shaped 2 2 (CV Sample2.tube_step)
  /\ forall j, (j < 2)%nat ->
       cell_at (CV Sample2.tube_step) 0 j
       = updated_cell (read_params (Sample.sample_config (-4)))
           (tau Sample2.tube_step / 0.5) (fl Sample2.tube_step) Sample.tube j
       /\ cell_at (CV Sample2.tube_step) nt j
          = cell_at (CV Sample2.tube_step) 0 j.
Proof.
  apply (@continued_step_rows Sample.ext_mean
           (read_params (Sample.sample_config (-4))) 2 1 2
           (Sample.tube_state (-4)) Sample2.tube_step).
  - exact tube_shaped.
  - lia.
  - vm_compute. reflexivity.
Defined.

Lemma last_step_rows_witness :
  cells_shaped 2 2 (CV Sample2.overshoot_step)
  /\ forall j, (j < 2)%nat ->
       cell_at (CV Sample2.overshoot_step) nt j
       = updated_cell (read_params (Sample.overshoot_config (-4)))
           (tau Sample2.overshoot_step / 0.5) (fl Sample2.overshoot_step)
           Sample.tube j
       /\ cell_at (CV Sample2.overshoot_step) 0 j = cell_at Sample.tube 0 j.
Proof.
  apply (@last_step_rows Sample.ext_mean
           (read_params (Sample.overshoot_config (-4))) 2 1 2
           (Sample.overshoot_state (-4)) Sample2.overshoot_step).
  - exact tube_shaped.
  - lia.
  - vm_compute. reflexivity.
Defined.

End RowFacts.

(** ** What the march leaves alone, and how it ends *)

Module FrameFacts.

Import CMath GRP Spec Rows LoopFacts IfaceFacts TimeStepFacts UpdateFacts.
Import RowFacts.
Local Open Scope float_scope.

Lemma same_rows_from_refl (r0 : nat) (A : list (list float)) :
  same_rows_from r0 A A.
Proof. split; reflexivity. Qed.

Lemma same_rows_from_trans (r0 : nat) (A B C : list (list float)) :
  same_rows_from r0 A B -> same_rows_from r0 B C -> same_rows_from r0 A C.
Proof.
  intros [L1 R1] [L2 R2]. split; [congruence|].
  intros r Hr. rewrite R2, R1 by assumption. reflexivity.
Qed.

Lemma same_rows_from_set2 (r0 i j : nat) (v : float)
    (A B : list (list float)) :
  (i < r0)%nat -> same_rows_from r0 A B -> same_rows_from r0 A (set2 B i j v).
Proof.
  intros Hi [L R]. split; [rewrite length_set2; exact L|].
  intros r Hr. rewrite row_set2_ne by lia. now apply R.
Qed.

(** The four arrays of two records agree from row 2 on. *)
Lemma update_loop_frame (par : params) (k m : nat) (nu : float)
    (nxt : iface) (f : flux) (X : list (list float)) (st : update_state) :
  let u := update_loop par k m nu nxt f X st in
  same_rows_from 2 (RHO (u_cv st)) (RHO (u_cv u))
  /\ same_rows_from 2 (U (u_cv st)) (U (u_cv u))
  /\ same_rows_from 2 (P (u_cv st)) (P (u_cv u))
  /\ same_rows_from 2 (E (u_cv st)) (E (u_cv u)).
Proof.
  cbv zeta. unfold update_loop.
  apply (for_loop_inv
           (fun (_ : nat) st' =>
              same_rows_from 2 (RHO (u_cv st)) (RHO (u_cv st'))
              /\ same_rows_from 2 (U (u_cv st)) (U (u_cv st'))
              /\ same_rows_from 2 (P (u_cv st)) (P (u_cv st'))
              /\ same_rows_from 2 (E (u_cv st)) (E (u_cv st')))
           (update_body par k nu nxt f X) m 0 st).
  - repeat split.
  - intros n st' _ (H1 & H2 & H3 & H4). cbn [update_body u_cv].
    destruct (updated_cell par nu f (u_cv st') n) as [[[rho_n u_n] e_n] p_n].
    unfold store_cell; cbn [RHO U P E].
    split; [|split; [|split]]; apply same_rows_from_set2; try assumption;
      unfold nt; lia.
Qed.

Lemma copy_back_frame (m : nat) (cv : cell_var_stru) :
  same_rows_from 2 (RHO cv) (RHO (copy_back m cv))
  /\ same_rows_from 2 (U cv) (U (copy_back m cv))
  /\ same_rows_from 2 (P cv) (P (copy_back m cv))
  /\ same_rows_from 2 (E cv) (E (copy_back m cv)).
Proof.
  unfold copy_back.
  apply (for_loop_inv
           (fun (_ : nat) cv' =>
              same_rows_from 2 (RHO cv) (RHO cv')
              /\ same_rows_from 2 (U cv) (U cv')
              /\ same_rows_from 2 (P cv) (P cv')
              /\ same_rows_from 2 (E cv) (E cv'))
           copy_back_body m 0 cv).
  - repeat split.
  - intros n cv' _ (H1 & H2 & H3 & H4).
    unfold copy_back_body; cbn [RHO U P E].
    split; [|split; [|split]]; apply same_rows_from_set2; try assumption;
      unfold nt; lia.
Qed.

Lemma same_but_nt_refl (c : list float) : same_but_nt c c.
Proof. split; reflexivity. Qed.

Lemma same_but_nt_trans (a b c : list float) :
  same_but_nt a b -> same_but_nt b c -> same_but_nt a c.
Proof.
  intros [L1 R1] [L2 R2]. split; [congruence|].
  intros i Hi. rewrite R2, R1 by assumption. reflexivity.
Qed.

Lemma same_but_nt_insert (c : list float) (v : float) :
  same_but_nt c (<[ nt := v ]> c).
Proof.
  split; [apply length_insert|].
  intros i Hi. apply list_lookup_total_insert_ne. congruence.
Qed.

Section WithExternals.
Context `{Externals}.

(** A jump to [return_NULL] leaves everything but the output. *)
Lemma step_jump (par : params) (m k : nat) (s s' : state) :
  step par m k s = Return_NULL s' -> exists o, s' = with_out s o.
Proof.
  unfold step.
  destruct (boundary_values _ _ _ _ _ _ _) as [[[fb g] msgs]|].
  - cbv zeta. destruct (iface_loop _ _ _ _ _ _ _ _ _) as [i|o].
    + unfold finish_step. destruct (time_is_up par _); discriminate.
    + intros [= <-]. now exists o.
  - intros [= <-]. now eexists.
Qed.

(** One turn: the rows from 2 on, the entries of [cpu_time] but [nt]. *)
Lemma step_frame (par : params) (m k : nat) (s : state) :
  let s' := state_of (step par m k s) in
  (same_rows_from 2 (RHO (CV s)) (RHO (CV s'))
   /\ same_rows_from 2 (U (CV s)) (U (CV s'))
   /\ same_rows_from 2 (P (CV s)) (P (CV s'))
   /\ same_rows_from 2 (E (CV s)) (E (CV s')))
  /\ same_but_nt (cpu_time s) (cpu_time s').
Proof.
  cbv zeta. destruct (step par m k s) as [s'|s'|s'] eqn:Hstep; cbn [state_of].
  - destruct (step_done par m k s s' (or_introl Hstep))
      as (s1 & i & _ & _ & Ecpu & Hc & _).
    destruct (Hc Hstep) as [Ecv _]. rewrite Ecv, Ecpu.
    split; [|apply same_but_nt_insert].
    pose proof (update_loop_frame par k m (step_tau par s i / h par)
                  (f_nx (step_flux par m s i)) (f_fl (step_flux par m s i))
                  (f_X (step_flux par m s i))
                  {| u_cv := CV s; u_time_c := i_time_c i; u_sl := s1;
                     u_out := i_out i |}) as (A1 & A2 & A3 & A4).
    fold (step_update par m k s s1 i) in A1, A2, A3, A4.
    cbn [u_cv] in A1, A2, A3, A4.
    destruct (copy_back_frame m (u_cv (step_update par m k s s1 i)))
      as (B1 & B2 & B3 & B4).
    split; [|split; [|split]]; eapply same_rows_from_trans; eassumption.
  - destruct (step_done par m k s s' (or_intror Hstep))
      as (s1 & i & _ & _ & Ecpu & _ & Hb).
    destruct (Hb Hstep) as [Ecv _]. rewrite Ecv, Ecpu.
    split; [|apply same_but_nt_insert].
    apply (update_loop_frame par k m (step_tau par s i / h par)
             (f_nx (step_flux par m s i)) (f_fl (step_flux par m s i))
             (f_X (step_flux par m s i))
             {| u_cv := CV s; u_time_c := i_time_c i; u_sl := s1;
                u_out := i_out i |}).
  - destruct (step_jump par m k s s' Hstep) as [o ->]. cbn [with_out CV cpu_time].
    split; [repeat split|apply same_but_nt_refl].
Qed.

Lemma main_loop_frame (par : params) (m : nat) :
  forall n k s,
    let s' := snd (main_loop par m n k s) in
    (same_rows_from 2 (RHO (CV s)) (RHO (CV s'))
     /\ same_rows_from 2 (U (CV s)) (U (CV s'))
     /\ same_rows_from 2 (P (CV s)) (P (CV s'))
     /\ same_rows_from 2 (E (CV s)) (E (CV s')))
    /\ same_but_nt (cpu_time s) (cpu_time s').
Proof.
  induction n as [|n IH]; intros k s; cbv zeta; cbn [main_loop].
  - cbn [snd after_loop with_out CV cpu_time].
    split; [repeat split|apply same_but_nt_refl].
  - pose proof (step_frame par m k s) as F. cbv zeta in F.
    destruct (step par m k s) as [s1|s1|s1]; cbn [state_of] in F.
    + destruct F as [(A1 & A2 & A3 & A4) A5].
      destruct (IH (Datatypes.S k) s1) as [(B1 & B2 & B3 & B4) B5].
      split; [split; [|split; [|split]];
              eapply same_rows_from_trans; eassumption|].
      eapply same_but_nt_trans; eassumption.
    + cbn [snd after_loop with_out CV cpu_time]. exact F.
    + cbn [snd]. exact F.
Qed.

(** X4.  [nt] is 1 from the first line to the last: whatever the number
    of steps and however the march ends, it writes rows 0 and 1 of the
    four cell arrays and entry 1 of [cpu_time] only; the rows from 2 on
    and the other timings are as the caller passed them. *)
Theorem march_writes_two_rows (m : nat) (cv : cell_var_stru)
    (X : list (list float)) (cpu : list float) (config : config_array) :
  let s' := snd (GRP_solver_ALE_source_Undone m cv X cpu config) in
  (forall r, (2 <= r)%nat ->
     RHO (CV s') !!! r = RHO cv !!! r /\ U (CV s') !!! r = U cv !!! r
     /\ P (CV s') !!! r = P cv !!! r /\ E (CV s') !!! r = E cv !!! r)
  /\ length (cpu_time s') = length cpu
  /\ forall i, i <> 1%nat -> cpu_time s' !!! i = cpu !!! i.
Proof.
  cbv zeta. unfold GRP_solver_ALE_source_Undone.
  pose proof (main_loop_frame (read_params config) m
                (N (read_params config)) 1
                (initial_state m cv X cpu config)) as F.
  cbv zeta in F. cbn [initial_state CV cpu_time] in F.
  destruct F as [([_ A1] & [_ A2] & [_ A3] & [_ A4]) [B1 B2]].
  split; [|split; [exact B1|exact B2]].
  intros r Hr. repeat split; auto.
Qed.

(** A turn ends in [break] when the end test of line 409 holds for the
    time it leaves, and only then. *)
Lemma step_end_test (par : params) (m k : nat) (s s' : state) :
  (step par m k s = Break s' -> time_is_up par (time_c s') = true)
  /\ (step par m k s = Continue s' -> time_is_up par (time_c s') = false).
Proof.
  unfold step.
  destruct (boundary_values _ _ _ _ _ _ _) as [[[fb g] msgs]|];
    [|split; discriminate].
  destruct (iface_loop _ _ _ _ _ _ _ _ _) as [i|o]; [|split; discriminate].
  unfold finish_step.
  destruct (time_is_up par _) eqn:Hup; split; intros Hs; try discriminate;
    injection Hs as <-; cbn [time_c]; exact Hup.
Qed.

(** How [main_loop] ends, [n] turns before the cap. *)
Lemma main_loop_ending (par : params) (m : nat) :
  forall n k s,
    let r := main_loop par m n k s in
    (forall c, c <> 5%nat -> config (snd r) c = config s c)
    /\ match fst r with
       | TimeUp =>
           exists o k',
             out (snd r) = o ++ [MsgTimeUp k'; MsgCpuCost (cpu_time_sum (snd r))]
             /\ (k <= k' <= k + n)%nat
             /\ ((k' < k + n)%nat ->
                 time_is_up par (time_c (snd r)) = true
                 /\ config (snd r) 5%nat = of_nat k')
             /\ (k' = (k + n)%nat -> config (snd r) = config s)
       | Jumped => config (snd r) = config s
       end.
Proof.
  induction n as [|n IH]; intros k s; cbv zeta; cbn [main_loop].
  - cbn [fst snd after_loop with_out config out cpu_time_sum].
    split; [reflexivity|]. exists (out s), k.
    split; [reflexivity|]. split; [lia|]. split; [lia|reflexivity].
  - destruct (step par m k s) as [s1|s1|s1] eqn:Hstep.
    + destruct (step_done par m k s s1 (or_introl Hstep))
        as (s1' & i & _ & _ & _ & Hc & _).
      destruct (Hc Hstep) as [_ Ecfg].
      specialize (IH (Datatypes.S k) s1). cbv zeta in IH.
      destruct IH as [I1 I2]. rewrite Ecfg in I1, I2.
      split; [exact I1|].
      destruct (fst (main_loop par m n (Datatypes.S k) s1)); [|exact I2].
      destruct I2 as (o & k' & Eo & Hk & H5 & Hall).
      exists o, k'. split; [exact Eo|]. split; [lia|].
      split; intros; [apply H5|apply Hall]; lia.
    + destruct (step_done par m k s s1 (or_intror Hstep))
        as (s1' & i & _ & _ & _ & _ & Hb).
      destruct (Hb Hstep) as [_ Ecfg].
      destruct (step_end_test par m k s s1) as [Hup _].
      specialize (Hup Hstep).
      cbn [fst snd after_loop with_out config out cpu_time_sum time_c].
      rewrite Ecfg. split.
      * intros c Hc. unfold config_set.
        destruct (Nat.eqb_spec c 5); [congruence|reflexivity].
      * exists (out s1), k. split; [reflexivity|]. split; [lia|].
        split; [|lia]. intros _. split; [exact Hup|].
        unfold config_set. reflexivity.
    + destruct (step_jump par m k s s1 Hstep) as [o ->].
      cbn [fst snd with_out config]. split; reflexivity.
Qed.

(** X5.  Lines 115 and 409-413, 425-426, for a step cap [config[5]] and
    a boundary tag [config[17]] that are [int] values, so that the casts
    of lines 43 and 48 are defined: the march changes no entry of
    [config] but entry 5.  When it is not left by a jump, its last two
    lines of output are the closing ones, with the value [k] of the loop
    counter: either [k <= N], the end test of line 409 held for the time
    step [k] has left, and [config[5]] is [k]; or the cap was reached,
    [k] is [N + 1], and [config] is as it was. *)
Theorem march_ending (m : nat) (cv : cell_var_stru)
    (X : list (list float)) (cpu : list float) (config : config_array) :
  int_castable (config 5%nat) -> int_castable (config 17%nat) ->
  let par := read_params config in
  let r := GRP_solver_ALE_source_Undone m cv X cpu config in
  let n := N par in
  (forall c, c <> 5%nat -> GRP.config (snd r) c = config c)
  /\ match fst r with
     | TimeUp =>
         exists o k,
           out (snd r) = o ++ [MsgTimeUp k; MsgCpuCost (cpu_time_sum (snd r))]
           /\ (1 <= k <= n + 1)%nat
           /\ ((k <= n)%nat ->
               time_is_up par (time_c (snd r)) = true
               /\ GRP.config (snd r) 5%nat = of_nat k)
           /\ (k = (n + 1)%nat -> GRP.config (snd r) = config)
     | Jumped => GRP.config (snd r) = config
     end.
Proof.
  intros _ _. cbv zeta. unfold GRP_solver_ALE_source_Undone.
  pose proof (main_loop_ending (read_params config) m
                (N (read_params config)) 1
                (initial_state m cv X cpu config)) as F.
  cbv zeta in F. cbn [initial_state GRP.config] in F.
  destruct F as [F1 F2]. split; [exact F1|].
  destruct (fst (main_loop _ _ _ _ _)); [|exact F2].
  destruct F2 as (o & k & Eo & Hk & H5 & Hall).
  exists o, k. split; [exact Eo|]. split; [lia|].
  split; intros; [apply H5|apply Hall]; lia.
Qed.

End WithExternals.

(** The march of the sample tube with free boundaries: the end time is
    reached in step 2 of at most 10. *)
Lemma march_ending_witness :
  let H := Sample.ext_mean in
  let config := Sample.sample_config (-4) in
  let par := read_params config in
  let r := GRP_solver_ALE_source_Undone 2 Sample.tube Sample.grid [0; 0]
             config in
  (forall c, c <> 5%nat -> GRP.config (snd r) c = config c)
  /\ match fst r with
     | TimeUp =>
         exists o k,
           out (snd r) = o ++ [MsgTimeUp k; MsgCpuCost (cpu_time_sum (snd r))]
           /\ (1 <= k <= 10 + 1)%nat
           /\ ((k <= 10)%nat ->
               time_is_up par (time_c (snd r)) = true
               /\ GRP.config (snd r) 5%nat = of_nat k)
           /\ (k = (10 + 1)%nat -> GRP.config (snd r) = config)
     | Jumped => GRP.config (snd r) = config
     end.
Proof.
  cbv zeta.
  apply (@march_ending Sample.ext_mean 2 Sample.tube Sample.grid [0; 0]
           (Sample.sample_config (-4)));
    split; vm_compute; try reflexivity; split; congruence.
Defined.

End FrameFacts.

(** ** The jumps to [return_NULL] *)

Module JumpFacts.

Import CMath GRP Spec Rows LoopFacts IfaceFacts TimeStepFacts.
Local Open Scope float_scope.

(** A loop whose turns before [j0] go through and whose turn [j0] jumps. *)
Lemma for_loop_exit_first {S Err : Type} (body : nat -> S -> S + Err)
    (turn : nat -> S -> S) (err : S -> Err) (j0 : nat) :
  (forall j s, (j < j0)%nat -> body j s = inl (turn j s)) ->
  (forall s, body j0 s = inr (err s)) ->
  forall n lo s,
    (lo <= j0 < lo + n)%nat ->
    for_loop_exit n lo body s = inr (err (for_loop (j0 - lo) lo turn s)).
Proof.
  intros Hturn Herr. induction n as [|n IH]; intros lo s Hj; [lia|].
  cbn [for_loop_exit]. destruct (Nat.eq_dec lo j0) as [->|Hne].
  - rewrite Herr, Nat.sub_diag. reflexivity.
  - rewrite Hturn by lia. rewrite IH by lia.
    replace (j0 - lo)%nat with (Datatypes.S (j0 - Datatypes.S lo)) by lia.
    reflexivity.
Qed.

Lemma for_loop_exit_all {S Err : Type} (body : nat -> S -> S + Err)
    (turn : nat -> S -> S) :
  forall n lo s,
    (forall j s', (lo <= j < lo + n)%nat -> body j s' = inl (turn j s')) ->
    for_loop_exit n lo body s = inl (for_loop n lo turn s).
Proof.
  induction n as [|n IH]; intros lo s Hturn; [reflexivity|].
  cbn [for_loop_exit for_loop]. rewrite Hturn by lia.
  apply IH. intros j s' Hj. apply Hturn. lia.
Qed.

(** A loop with a turn that jumps from every state does jump. *)
Lemma for_loop_exit_some {S Err : Type} (body : nat -> S -> S + Err) :
  forall n lo s j,
    (lo <= j < lo + n)%nat ->
    (forall s', exists e, body j s' = inr e) ->
    exists e, for_loop_exit n lo body s = inr e.
Proof.
  induction n as [|n IH]; intros lo s j Hj Hjump; [lia|].
  cbn [for_loop_exit]. destruct (body lo s) as [s'|e] eqn:Hb.
  - apply (IH (Datatypes.S lo) s' j); [|exact Hjump].
    destruct (Nat.eq_dec lo j) as [->|Hne]; [|lia].
    destruct (Hjump s) as [e He]. congruence.
  - now exists e.
Qed.

Lemma none_or_some {A : Type} (f : nat -> option A) (n : nat) :
  (forall j, (j < n)%nat -> f j = None)
  \/ exists j, (j < n)%nat /\ f j <> None.
Proof.
  induction n as [|n [IH|(j & Hj & Hf)]].
  - left. intros j Hj. lia.
  - destruct (f n) as [a|] eqn:Hn.
    + right. exists n. split; [lia|congruence].
    + left. intros j Hj. destruct (Nat.eq_dec j n) as [->|]; [exact Hn|].
      apply IH. lia.
  - right. exists j. split; [lia|exact Hf].
Qed.

Section WithExternals.
Context `{Externals}.

(** One turn of the interface loop, by what its two first tests give. *)
Lemma iface_body_error (par : params) (k m : nat) (cv : cell_var_stru)
    (X : list (list float)) (g : ghost_val) (gsl : ghost_slope)
    (s : slopes) (j : nat) (st : iface_state) :
  iface_body par k m cv X g gsl s j st
  = match reconstruction_error par k m cv X g gsl s j with
    | Some e => inr (i_out st ++ [e])
    | None => inl (iface_turn par k m cv X g gsl s j st)
    end.
Proof.
  unfold iface_body, reconstruction_error, iface_turn, star_flagged,
    star_messages, ratio.
  destruct (left_state cv X g gsl s j) as [[[hL rL] uL] pL].
  destruct (right_state m cv X g gsl s j) as [[[hR rR] uR] pR].
  destruct (reconstruction_negative par rL pL rR pR); [reflexivity|].
  destruct (reconstruction_not_finite rL uL pL rR uR pR); reflexivity.
Qed.

(** X6.  Lines 275-284: at the first interface [j0] whose reconstructed
    states fail the test of line 275 or the one of line 280, the step
    jumps to [return_NULL].  The output is what was printed before, the
    messages of the star states of the interfaces before [j0], and the
    message of the failed test; the arrays, [cpu_time] and [config] are
    as the step found them, and the march is over. *)
Theorem first_failed_reconstruction (par : params) (m n k : nat) (s : state)
    (fb : bool) (g : ghost_val) (msgs : list event) (j0 : nat) (e : event) :
  boundary_values (bound par) m (h par) (CV s) (X s) (find_bound s) (gv s)
  = Some (fb, g, msgs) ->
  let s1 := reconstruct k m (alpha par) (CV s) (X s) g (sl s) in
  let gsl := boundary_slopes (bound par) m s1 (gs s) in
  (j0 <= m)%nat ->
  (forall j, (j < j0)%nat ->
     reconstruction_error par k m (CV s) (X s) g gsl s1 j = None) ->
  reconstruction_error par k m (CV s) (X s) g gsl s1 j0 = Some e ->
  let s' := with_out s
              (out s ++ msgs
               ++ flat_map (star_messages par k m (CV s) (X s) g gsl s1)
                    (seq 0 j0)
               ++ [e]) in
  step par m k s = Return_NULL s'
  /\ main_loop par m (Datatypes.S n) k s = (Jumped, s')
  /\ CV s' = CV s /\ X s' = X s /\ cpu_time s' = cpu_time s
  /\ config s' = config s.
Proof.
  intros Hbv s1 gsl Hj0 Hbefore Hat s'.
  assert (Hstep : step par m k s = Return_NULL s').
  { unfold step. rewrite Hbv. cbv zeta. fold s1. fold gsl.
    unfold iface_loop.
    rewrite (for_loop_exit_first
               (iface_body par k m (CV s) (X s) g gsl s1)
               (iface_turn par k m (CV s) (X s) g gsl s1)
               (fun st => i_out st ++ [e]) j0).
    - rewrite Nat.sub_0_r, turns_out. cbn [i_out].
      unfold s'. rewrite <- !app_assoc. reflexivity.
    - intros j st Hj. rewrite iface_body_error, Hbefore by assumption.
      reflexivity.
    - intros st. rewrite iface_body_error, Hat. reflexivity.
    - lia. }
  split; [exact Hstep|]. split; [|repeat split].
  cbn [main_loop]. rewrite Hstep. reflexivity.
Qed.

(** X7.  The whole step has two ways to [return_NULL] and no other: the
    [default] of the first switch (lines 173-175), and the two tests on
    the reconstructed states (lines 275-284).  A star state or an updated
    cell that fails its test never makes the step jump. *)
Theorem jump_only_from_reconstruction (par : params) (m k : nat) (s : state) :
  match boundary_values (bound par) m (h par) (CV s) (X s) (find_bound s)
          (gv s) with
  | None => step par m k s = Return_NULL (with_out s (out s ++ [MsgNoBoundary]))
  | Some (fb, g, msgs) =>
      let s1 := reconstruct k m (alpha par) (CV s) (X s) g (sl s) in
      let gsl := boundary_slopes (bound par) m s1 (gs s) in
      (exists s', step par m k s = Return_NULL s')
      <-> exists j, (j <= m)%nat
            /\ reconstruction_error par k m (CV s) (X s) g gsl s1 j <> None
  end.
Proof.
  unfold step.
  destruct (boundary_values _ _ _ _ _ _ _) as [[[fb g] msgs]|];
    [|reflexivity].
  cbv zeta.
  set (s1 := reconstruct k m (alpha par) (CV s) (X s) g (sl s)).
  set (gsl := boundary_slopes (bound par) m s1 (gs s)).
  set (st := {| h_S_max := INFINITY; i_time_c := time_c s; i_nx := nx s;
                i_out := out s ++ msgs |}).
  split.
  - intros [s' Hs'].
    destruct (none_or_some
                (reconstruction_error par k m (CV s) (X s) g gsl s1) (m + 1))
      as [Hall|(j & Hj & Hex)]; [|exists j; split; [lia|exact Hex]].
    exfalso. unfold iface_loop in Hs'.
    rewrite (for_loop_exit_all _ (iface_turn par k m (CV s) (X s) g gsl s1))
      in Hs'.
    + unfold finish_step in Hs'. destruct (time_is_up par _); discriminate.
    + intros j st' Hj. rewrite iface_body_error, Hall by lia. reflexivity.
  - intros (j & Hj & Herr). unfold iface_loop.
    destruct (for_loop_exit_some
                (iface_body par k m (CV s) (X s) g gsl s1) (m + 1) 0 st j)
      as [o Ho]; [lia| |].
    + intros st'. rewrite iface_body_error.
      destruct (reconstruction_error par k m (CV s) (X s) g gsl s1 j)
        as [e|]; [|congruence].
      now eexists.
    + rewrite Ho. now eexists.
Qed.

End WithExternals.

(** The tube without pressure in its second cell: interface 0 gets
    through, interface 1 fails the test of line 275. *)
Lemma first_failed_reconstruction_witness :
  let H := Sample.ext_vacuum in
  let par := read_params (Sample.sample_config (-4)) in
  let s := Sample2.broken_state in
  let s' := with_out s [MsgBoundary (-4); ErrNegative Star 1 0;
                        ErrNegative Reconstruction 1 1] in
  step par 2 1 s = Return_NULL s'
  /\ main_loop par 2 10 1 s = (Jumped, s')
  /\ CV s' = CV s /\ X s' = X s /\ cpu_time s' = cpu_time s
  /\ config s' = config s.
Proof.
  cbv zeta.
  apply (@first_failed_reconstruction Sample.ext_vacuum
           (read_params (Sample.sample_config (-4))) 2 9 1
           Sample2.broken_state true Sample2.broken_ghost
           [MsgBoundary (-4)] 1 (ErrNegative Reconstruction 1 1)).
  - vm_compute. reflexivity.
  - lia.
  - intros j Hj. assert (j = 0%nat) as -> by lia. vm_compute. reflexivity.
  - vm_compute. reflexivity.
Defined.

End JumpFacts.

(** ** [main]: the arrays it sets up and the way it ends *)

Module MainFacts.

Import CMath GRP Spec Rows LoopFacts Hydrocode1D.
Local Open Scope float_scope.

(** The energy loop of lines 219-220 writes row 0 of [E] and nothing
    else. *)
Lemma init_E0_spec (gamma : float) (m N : nat) (cv : cell_var_stru) :
  cells_shaped N m cv -> (1 <= N)%nat ->
  let cv' := init_E0 gamma m cv in
  cells_shaped N m cv'
  /\ RHO cv' = RHO cv /\ U cv' = U cv /\ P cv' = P cv
  /\ (forall r, r <> 0%nat -> E cv' !!! r = E cv !!! r)
  /\ forall j, (j < m)%nat ->
       get2 (E cv') 0 j
       = 0.5 * get2 (U cv) 0 j * get2 (U cv) 0 j
         + get2 (P cv) 0 j / (gamma - 1.0) / get2 (RHO cv) 0 j.
Proof.
  intros Hsh HN. cbv zeta. unfold init_E0.
  set (body := fun (j : nat) (cv0 : cell_var_stru) => _).
  assert (G : (fun (n : nat) cv' =>
                 cells_shaped N m cv'
                 /\ RHO cv' = RHO cv /\ U cv' = U cv /\ P cv' = P cv
                 /\ (forall r, r <> 0%nat -> E cv' !!! r = E cv !!! r)
                 /\ forall j, (j < n)%nat ->
                      get2 (E cv') 0 j
                      = 0.5 * get2 (U cv) 0 j * get2 (U cv) 0 j
                        + get2 (P cv) 0 j / (gamma - 1.0) / get2 (RHO cv) 0 j)
              (0 + m)%nat (for_loop m 0 body cv)).
  { apply for_loop_inv.
    - split; [exact Hsh|]. repeat split. intros j Hj. lia.
    - intros n cv' Hn (Hs & E1 & E2 & E3 & Hrows & Hcells).
      subst body. cbn [RHO U P E].
      destruct Hs as (S1 & S2 & S3 & S4).
      split; [|split; [exact E1|split; [exact E2|split; [exact E3|split]]]].
      + unfold cells_shaped; cbn [RHO U P E].
        split; [exact S1|]. split; [exact S2|]. split; [exact S3|].
        now apply GridFacts.shaped_set2.
      + intros r Hr. rewrite row_set2_ne by congruence. now apply Hrows.
      + intros j Hj. destruct (Nat.eq_dec j n) as [->|Hne].
        * destruct S4 as [L4 W4].
          rewrite get2_set2_eq by (rewrite ?L4, ?W4; lia).
          rewrite E1, E2, E3. reflexivity.
        * rewrite get2_set2_col_ne by congruence. apply Hcells. lia. }
  exact G.
Qed.

Lemma CV_INIT_MEM_shaped (v0 : list float) (m N : nat) :
  length v0 = m -> (1 <= N)%nat -> shaped N m (CV_INIT_MEM v0 m N).
Proof.
  intros Hv HN. unfold CV_INIT_MEM. split.
  - cbn [length]. rewrite length_replicate. lia.
  - intros [|k] Hk; [exact Hv|].
    change ((v0 :: replicate (N - 1) (replicate m 0)) !!! Datatypes.S k)
      with (replicate (N - 1) (replicate m 0) !!! k).
    rewrite lookup_total_replicate_2 by lia. apply length_replicate.
Qed.

(** X8.  [CV_INIT_MEM] and lines 219-220: of initial data of [m] cells,
    [main] makes four arrays of [N] rows of [m] cells whose row 0 holds
    the data and the specific total energy
    [u*u/2 + p/(gamma-1)/rho] of every cell. *)
Theorem initial_energy (gamma : float) (m N : nat) (FV0 : flu_var) :
  (1 <= N)%nat ->
  length (FV_RHO FV0) = m -> length (FV_U FV0) = m ->
  length (FV_P FV0) = m ->
  let cv0 := init_E0 gamma m
               {| RHO := CV_INIT_MEM (FV_RHO FV0) m N;
                  U := CV_INIT_MEM (FV_U FV0) m N;
                  P := CV_INIT_MEM (FV_P FV0) m N;
                  E := replicate N (replicate m 0) |} in
  cells_shaped N m cv0
  /\ forall j, (j < m)%nat ->
       cell_at cv0 0 j
       = (FV_RHO FV0 !!! j, FV_U FV0 !!! j,
          0.5 * (FV_U FV0 !!! j) * (FV_U FV0 !!! j)
          + (FV_P FV0 !!! j) / (gamma - 1.0) / (FV_RHO FV0 !!! j),
          FV_P FV0 !!! j).
Proof.
  intros HN H1 H2 H3. cbv zeta.
  set (cv := {| RHO := _; U := _; P := _; E := _ |}).
  assert (Hsh : cells_shaped N m cv).
  { unfold cells_shaped, cv; cbn [RHO U P E].
    repeat apply conj; try (apply CV_INIT_MEM_shaped; assumption);
      apply (GridFacts.shaped_replicate N m). }
  destruct (init_E0_spec gamma m N cv Hsh HN) as (S & E1 & E2 & E3 & _ & E4).
  split; [exact S|]. intros j Hj. unfold cell_at.
  rewrite (E4 j Hj), E1, E2, E3. reflexivity.
Qed.

Lemma initial_energy_witness :
  let cv0 := init_E0 1.5 2
               {| RHO := CV_INIT_MEM [1; 0.125] 2 2;
                  U := CV_INIT_MEM [0; 0] 2 2;
                  P := CV_INIT_MEM [1; 0.125] 2 2;
                  E := replicate 2 (replicate 2 0) |} in
  cells_shaped 2 2 cv0
  /\ forall j, (j < 2)%nat ->
       cell_at cv0 0 j
       = ([1; 0.125] !!! j, [0; 0] !!! j,
          0.5 * ([0; 0] !!! j) * ([0; 0] !!! j)
          + ([1; 0.125] !!! j) / (1.5 - 1.0) / ([1; 0.125] !!! j),
          [1; 0.125] !!! j).
Proof.
  apply (initial_energy 1.5 2 2 Sample.tube_data); [lia|reflexivity..].
Defined.

End MainFacts.

(** ** The readers: which files they accept *)

Module ReaderFacts.

Import CMath FileIn Counts CastFacts.

(** One file of the 1-D reader. *)
Lemma STR_FLU_INI_1D_read (config : config_array) (file : option data_file)
    (config' : config_array) :
  STR_FLU_INI_1D config file = Read config'
  <-> exists f,
        file = Some f /\ (1 <= column f)%Z /\ read_fails f = false
        /\ (if isinf (config 3%nat)
            then config' = config_set config 3 (of_int (column f))
            else column f = to_int (config 3%nat) /\ config' = config).
Proof.
  unfold STR_FLU_INI_1D. destruct file as [f|].
  - destruct (Z.ltb_spec (column f) 1) as [Hlt|Hge].
    + split; [discriminate|]. intros (f' & [= <-] & Hc & _). lia.
    + destruct (isinf (config 3%nat)).
      * destruct (read_fails f) eqn:Hr.
        -- split; [discriminate|]. intros (f' & [= <-] & _ & Hr' & _). congruence.
        -- split.
           ++ intros [= <-]. exists f. auto.
           ++ intros (f' & [= <-] & _ & _ & ->). reflexivity.
      * destruct (Z.eqb_spec (column f) (to_int (config 3%nat))) as [He|Hne];
          cbn [negb].
        -- destruct (read_fails f) eqn:Hr.
           ++ split; [discriminate|].
              intros (f' & [= <-] & _ & Hr' & _). congruence.
           ++ split.
              ** intros [= <-]. exists f. auto.
              ** intros (f' & [= <-] & _ & _ & _ & ->). reflexivity.
        -- split; [discriminate|].
           intros (f' & [= <-] & _ & _ & He & _). contradiction.
  - split; [discriminate|]. intros (f & Hf & _). discriminate.
Qed.

(** X10.  [_1D_initialize], the count of the file of RHO being an
    [int]: it returns exactly when the three files can be opened and
    read, hold the same number [n >= 1] of values, and [config[3]] is
    unset or is [n]; on return [(int)config[3]] is [n]. *)
Theorem reads_1D (config : config_array) (rho u p : option data_file)
    (config' : config_array) :
  (forall f, rho = Some f -> (column f < 2 ^ 31)%Z) ->
  _1D_initialize config rho u p = Read config'
  <-> exists f_rho f_u f_p n,
        rho = Some f_rho /\ u = Some f_u /\ p = Some f_p
        /\ (1 <= n)%Z
        /\ column f_rho = n /\ column f_u = n /\ column f_p = n
        /\ read_fails f_rho = false /\ read_fails f_u = false
        /\ read_fails f_p = false
        /\ to_int (config' 3%nat) = n
        /\ (if isinf (config 3%nat)
            then config' = config_set config 3 (of_int n)
            else config' = config).
Proof.
  intros Hrange. unfold _1D_initialize. cbn [read_all].
  assert (Hset : forall n, (1 <= n < 2 ^ 31)%Z ->
            isinf (config_set config 3 (of_int n) 3%nat) = false
            /\ to_int (config_set config 3 (of_int n) 3%nat) = n).
  { intros n Hn. unfold config_set. cbn [Nat.eqb].
    split; [apply isinf_of_int|apply to_int_of_int]; lia. }
  split.
  - destruct (STR_FLU_INI_1D config rho) as [c1|] eqn:H1; [|discriminate].
    destruct (STR_FLU_INI_1D c1 u) as [c2|] eqn:H2; [|discriminate].
    destruct (STR_FLU_INI_1D c2 p) as [c3|] eqn:H3; [|discriminate].
    intros [= <-].
    apply STR_FLU_INI_1D_read in H1. destruct H1 as (fr & -> & Nr & Rr & Cr).
    apply STR_FLU_INI_1D_read in H2. destruct H2 as (fu & -> & Nu & Ru & Cu).
    apply STR_FLU_INI_1D_read in H3. destruct H3 as (fp & -> & Np & Rp & Cp).
    specialize (Hrange fr eq_refl).
    exists fr, fu, fp, (column fr).
    destruct (isinf (config 3%nat)) eqn:Hinf.
    + subst c1. destruct (Hset (column fr)) as [I1 T1]; [lia|].
      rewrite I1 in Cu. destruct Cu as [Eu ->].
      rewrite I1 in Cp. destruct Cp as [Ep ->].
      rewrite T1 in Eu, Ep. repeat split; auto.
    + destruct Cr as [Er ->]. rewrite Hinf in Cu. destruct Cu as [Eu ->].
      rewrite Hinf in Cp. destruct Cp as [Ep ->].
      repeat split; auto; congruence.
  - intros (fr & fu & fp & n & -> & -> & -> & Hn & Er & Eu & Ep & Rr & Ru & Rp
            & Ht & Hc).
    specialize (Hrange fr eq_refl).
    destruct (isinf (config 3%nat)) eqn:Hinf.
    + destruct (Hset n) as [I1 T1]; [lia|].
      rewrite (proj2 (STR_FLU_INI_1D_read config (Some fr)
                        (config_set config 3 (of_int n)))).
      2:{ exists fr. rewrite Hinf, Er. repeat split; auto; lia. }
      rewrite (proj2 (STR_FLU_INI_1D_read _ (Some fu)
                        (config_set config 3 (of_int n)))).
      2:{ exists fu. rewrite I1, T1. repeat split; auto; lia. }
      rewrite (proj2 (STR_FLU_INI_1D_read _ (Some fp)
                        (config_set config 3 (of_int n)))).
      2:{ exists fp. rewrite I1, T1. repeat split; auto; lia. }
      rewrite Hc. reflexivity.
    + subst config'.
      rewrite (proj2 (STR_FLU_INI_1D_read config (Some fr) config)).
      2:{ exists fr. rewrite Hinf. repeat split; auto; lia. }
      rewrite (proj2 (STR_FLU_INI_1D_read config (Some fu) config)).
      2:{ exists fu. rewrite Hinf. repeat split; auto; lia. }
      rewrite (proj2 (STR_FLU_INI_1D_read config (Some fp) config)).
      2:{ exists fp. rewrite Hinf. repeat split; auto; lia. }
      reflexivity.
Qed.

(** X11.  The calls of [exit] in [STR_FLU_INI]: [_1D_initialize] ends the
    run with status 1 or 2 (the allocations succeeding), with 1 only when
    a file cannot be opened, and always with 1 when it is the first. *)
Theorem exit_status_1D (config : config_array) (rho u p : option data_file)
    (st : Z) :
  _1D_initialize config rho u p = Exit st ->
  (st = 1%Z \/ st = 2%Z)
  /\ (st = 1%Z -> rho = None \/ u = None \/ p = None)
  /\ (rho = None -> st = 1%Z).
Proof.
  assert (One : forall c file st',
            STR_FLU_INI_1D c file = Exit st' ->
            (st' = 1%Z /\ file = None) \/ (st' = 2%Z /\ file <> None)).
  { intros c file st'. unfold STR_FLU_INI_1D. destruct file as [f|].
    - destruct (column f <? 1)%Z;
        [intros [= <-]; right; split; [reflexivity|discriminate]|].
      destruct (isinf (c 3%nat)).
      + destruct (read_fails f); [|discriminate].
        intros [= <-]. right. split; [reflexivity|discriminate].
      + destruct (negb (column f =? to_int (c 3%nat))%Z);
          [intros [= <-]; right; split; [reflexivity|discriminate]|].
        destruct (read_fails f); [|discriminate].
        intros [= <-]. right. split; [reflexivity|discriminate].
    - intros [= <-]. left. split; reflexivity. }
  unfold _1D_initialize. cbn [read_all].
  destruct (STR_FLU_INI_1D config rho) as [c1|s1] eqn:H1.
  - assert (Hrho : rho <> None).
    { intros ->. discriminate H1. }
    destruct (STR_FLU_INI_1D c1 u) as [c2|s2] eqn:H2.
    + destruct (STR_FLU_INI_1D c2 p) as [c3|s3] eqn:H3; [discriminate|].
      intros [= <-]. destruct (One _ _ _ H3) as [[-> ->]|[-> Hp]].
      * split; [now left|]. split; [auto|contradiction].
      * split; [now right|]. split; [discriminate|contradiction].
    + intros [= <-]. destruct (One _ _ _ H2) as [[-> ->]|[-> Hu]].
      * split; [now left|]. split; [auto|contradiction].
      * split; [now right|]. split; [discriminate|contradiction].
  - intros [= <-]. destruct (One _ _ _ H1) as [[-> ->]|[-> Hr]].
    + split; [now left|]. split; [auto|reflexivity].
    + split; [now right|]. split; [discriminate|contradiction].
Qed.

(** One file of the 2-D reader. *)
Lemma flu_var_init_read (config : config_array) (f : data_file)
    (config' : config_array) :
  flu_var_init config f = Read config' ->
  let num := (line f * column f)%Z in
  let v3 := if isinf (config 3%nat) then of_int num else config 3%nat in
  let v13 := if isinf (config 13%nat) then of_int (column f)
             else config 13%nat in
  (1 <= num)%Z /\ read_fails f = false
  /\ config' 3%nat = v3 /\ config' 13%nat = v13
  /\ (if isinf (config 14%nat)
      then config' 14%nat = of_int (line f)
      else config' 14%nat = config 14%nat
           /\ num = to_int v3 /\ column f = to_int v13
           /\ line f = to_int (config 14%nat)).
Proof.
  unfold flu_var_init.
  destruct (Z.ltb_spec (line f * column f) 1) as [Hlt|Hge]; [discriminate|].
  set (c3 := if isinf (config 3%nat)
             then config_set config 3 (of_int (line f * column f))
             else config).
  set (c13 := if isinf (c3 13%nat)
              then config_set c3 13 (of_int (column f)) else c3).
  assert (E3 : c3 3%nat = (if isinf (config 3%nat)
                           then of_int (line f * column f)
                           else config 3%nat)
               /\ c3 13%nat = config 13%nat /\ c3 14%nat = config 14%nat).
  { subst c3. destruct (isinf (config 3%nat)); repeat split. }
  destruct E3 as (E3 & E3' & E3'').
  assert (E13 : c13 3%nat = c3 3%nat
                /\ c13 13%nat = (if isinf (config 13%nat)
                                 then of_int (column f) else config 13%nat)
                /\ c13 14%nat = config 14%nat).
  { subst c13. rewrite E3'. destruct (isinf (config 13%nat)).
    - unfold config_set. cbn [Nat.eqb]. repeat split. exact E3''.
    - repeat split; assumption. }
  destruct E13 as (E13 & E13' & E13''). rewrite E3 in E13.
  rewrite E13''. cbv zeta.
  destruct (isinf (config 14%nat)).
  - destruct (read_fails f); [discriminate|]. intros [= <-].
    unfold config_set at 1 2 3. cbn [Nat.eqb]. repeat split; assumption.
  - rewrite E13, E13'.
    destruct (Z.eqb_spec (line f * column f)
                (to_int (if isinf (config 3%nat)
                         then of_int (line f * column f)
                         else config 3%nat))) as [A1|A1];
      [|discriminate].
    destruct (Z.eqb_spec (column f)
                (to_int (if isinf (config 13%nat)
                         then of_int (column f) else config 13%nat)))
      as [A2|A2]; [|discriminate].
    destruct (Z.eqb_spec (line f) (to_int (config 14%nat))) as [A3|A3];
      [|discriminate].
    cbn [negb orb].
    destruct (read_fails f); [discriminate|]. intros [= <-].
    repeat split; assumption.
Qed.

(** X12.  [flu_var_init], the branch of lines 36-43: once the number of
    lines is set in [config[14]], a file is accepted only if its lines,
    its columns and its cells are the numbers in [config], and the three
    slots that were set are left as they were. *)
Theorem later_file_is_compared (config : config_array) (f : data_file)
    (config' : config_array) :
  isinf (config 14%nat) = false ->
  flu_var_init config f = Read config' ->
  agrees f config'
  /\ config' 14%nat = config 14%nat
  /\ (isinf (config 13%nat) = false -> config' 13%nat = config 13%nat)
  /\ (isinf (config 3%nat) = false -> config' 3%nat = config 3%nat).
Proof.
  intros H14 Hread. apply flu_var_init_read in Hread. cbv zeta in Hread.
  rewrite H14 in Hread.
  destruct Hread as (_ & _ & E3 & E13 & E14 & A1 & A2 & A3).
  unfold agrees. rewrite E3, E13, E14.
  split; [repeat split; assumption|]. split; [reflexivity|].
  split; intros ->; reflexivity.
Qed.

Lemma in_range_bounds (f : data_file) :
  counts_in_range f -> (1 <= line f * column f)%Z ->
  (1 <= line f < 2 ^ 53)%Z /\ (1 <= column f < 2 ^ 53)%Z
  /\ (1 <= line f * column f < 2 ^ 53)%Z.
Proof.
  intros (Hl & Hc & Hn) Hp.
  assert (2 ^ 31 < 2 ^ 53)%Z by reflexivity.
  assert (1 <= line f)%Z by nia. assert (1 <= column f)%Z by nia.
  assert (line f <= line f * column f)%Z by nia.
  assert (column f <= line f * column f)%Z by nia.
  lia.
Qed.

(** With the three counts set, an accepted file has them and leaves
    them. *)
Lemma flu_var_init_keeps (config : config_array) (f : data_file)
    (config' : config_array) :
  isinf (config 3%nat) = false -> isinf (config 13%nat) = false ->
  isinf (config 14%nat) = false ->
  flu_var_init config f = Read config' ->
  agrees f config'
  /\ config' 3%nat = config 3%nat /\ config' 13%nat = config 13%nat
  /\ config' 14%nat = config 14%nat.
Proof.
  intros H3 H13 H14 Hread. apply flu_var_init_read in Hread.
  cbv zeta in Hread. rewrite H3, H13, H14 in Hread.
  destruct Hread as (_ & _ & E3 & E13 & E14 & A1 & A2 & A3).
  unfold agrees. rewrite E3, E13, E14. repeat split; assumption.
Qed.

(** After one accepted file the three counts are set. *)
Lemma flu_var_init_settles (config : config_array) (f : data_file)
    (config' : config_array) :
  counts_in_range f ->
  flu_var_init config f = Read config' ->
  isinf (config' 3%nat) = false /\ isinf (config' 13%nat) = false
  /\ isinf (config' 14%nat) = false
  /\ line f = to_int (config' 14%nat)
  /\ (isinf (config 14%nat) = false \/ isinf (config 13%nat) = true ->
      column f = to_int (config' 13%nat))
  /\ (isinf (config 14%nat) = false \/ isinf (config 3%nat) = true ->
      (line f * column f)%Z = to_int (config' 3%nat)).
Proof.
  intros Hr Hread. apply flu_var_init_read in Hread. cbv zeta in Hread.
  destruct Hread as (Hn & _ & E3 & E13 & E14).
  destruct (in_range_bounds f Hr Hn) as (Bl & Bc & Bn).
  rewrite E3, E13.
  assert (I3 : isinf (if isinf (config 3%nat)
                      then of_int (line f * column f) else config 3%nat)
               = false).
  { destruct (isinf (config 3%nat)) eqn:H3; [now apply isinf_of_int|exact H3]. }
  assert (I13 : isinf (if isinf (config 13%nat)
                       then of_int (column f) else config 13%nat) = false).
  { destruct (isinf (config 13%nat)) eqn:H13;
      [now apply isinf_of_int|exact H13]. }
  split; [exact I3|]. split; [exact I13|].
  destruct (isinf (config 14%nat)) eqn:H14.
  - rewrite E14. split; [now apply isinf_of_int|].
    split; [symmetry; now apply to_int_of_int|].
    split; intros [?|Hs]; try discriminate; rewrite Hs; symmetry;
      now apply to_int_of_int.
  - destruct E14 as (-> & A1 & A2 & A3). split; [exact H14|].
    split; [exact A3|]. split; intros _; assumption.
Qed.

(** X13.  [initialize_2D], the counts of the file of RHO being those of
    a file: when it returns, the four files could be opened, the files of
    U, V and P have the lines, the columns and the cells that [config]
    holds on return, and so has the file of RHO in its lines; in its
    columns and its cells it has when [config[14]] was set on entry, or
    the slot of that count was not. *)
Theorem reads_2D (config : config_array) (rho u v p : option data_file)
    (config' : config_array) :
  (forall f, rho = Some f -> counts_in_range f) ->
  initialize_2D config rho u v p = Read config' ->
  exists f_rho f_u f_v f_p,
    rho = Some f_rho /\ u = Some f_u /\ v = Some f_v /\ p = Some f_p
    /\ agrees f_u config' /\ agrees f_v config' /\ agrees f_p config'
    /\ line f_rho = to_int (config' 14%nat)
    /\ (isinf (config 14%nat) = false \/ isinf (config 13%nat) = true ->
        column f_rho = to_int (config' 13%nat))
    /\ (isinf (config 14%nat) = false \/ isinf (config 3%nat) = true ->
        (line f_rho * column f_rho)%Z = to_int (config' 3%nat)).
Proof.
  intros Hrange. unfold initialize_2D. cbn [read_all].
  destruct rho as [fr|]; [|discriminate]. cbn [STR_FLU_INI_2D].
  destruct (flu_var_init config fr) as [c1|] eqn:H1; [|discriminate].
  destruct u as [fu|]; [|discriminate]. cbn [STR_FLU_INI_2D].
  destruct (flu_var_init c1 fu) as [c2|] eqn:H2; [|discriminate].
  destruct v as [fv|]; [|discriminate]. cbn [STR_FLU_INI_2D].
  destruct (flu_var_init c2 fv) as [c3|] eqn:H3; [|discriminate].
  destruct p as [fp|]; [|discriminate]. cbn [STR_FLU_INI_2D].
  destruct (flu_var_init c3 fp) as [c4|] eqn:H4; [|discriminate].
  intros [= <-].
  assert (Rr : counts_in_range fr) by (apply Hrange; reflexivity).
  destruct (flu_var_init_settles config fr c1 Rr H1)
    as (I3 & I13 & I14 & Al & Ac & An).
  destruct (flu_var_init_keeps c1 fu c2 I3 I13 I14 H2) as (Au & K3 & K13 & K14).
  assert (J14 : isinf (c2 14%nat) = false) by congruence.
  assert (J13 : isinf (c2 13%nat) = false) by congruence.
  assert (J3 : isinf (c2 3%nat) = false) by congruence.
  destruct (flu_var_init_keeps c2 fv c3 J3 J13 J14 H3) as (Av & L3 & L13 & L14).
  assert (M14 : isinf (c3 14%nat) = false) by congruence.
  assert (M13 : isinf (c3 13%nat) = false) by congruence.
  assert (M3 : isinf (c3 3%nat) = false) by congruence.
  destruct (flu_var_init_keeps c3 fp c4 M3 M13 M14 H4) as (Ap & P3 & P13 & P14).
  assert (T14 : c1 14%nat = c4 14%nat /\ c2 14%nat = c4 14%nat
                /\ c3 14%nat = c4 14%nat) by (repeat split; congruence).
  assert (T13 : c1 13%nat = c4 13%nat /\ c2 13%nat = c4 13%nat
                /\ c3 13%nat = c4 13%nat) by (repeat split; congruence).
  assert (T3 : c1 3%nat = c4 3%nat /\ c2 3%nat = c4 3%nat
               /\ c3 3%nat = c4 3%nat) by (repeat split; congruence).
  destruct T14 as (A14 & B14 & C14). destruct T13 as (A13 & B13 & C13).
  destruct T3 as (A3 & B3 & C3).
  unfold agrees in *.
  rewrite B14, B13, B3 in Au. rewrite C14, C13, C3 in Av.
  rewrite A14 in Al. rewrite A13 in Ac. rewrite A3 in An.
  exists fr, fu, fv, fp.
  split; [reflexivity|]. split; [reflexivity|]. split; [reflexivity|].
  split; [reflexivity|]. split; [exact Au|]. split; [exact Av|].
  split; [exact Ap|]. split; [exact Al|]. split; [exact Ac|exact An].
Qed.

(** Three files of 100 values, nothing configured. *)
Lemma reads_1D_witness :
  _1D_initialize Sample2.unset_config (Some Sample2.file_100)
    (Some Sample2.file_100) (Some Sample2.file_100)
  = Read (config_set Sample2.unset_config 3 (of_int 100))
  <-> exists f_rho f_u f_p n,
        Some Sample2.file_100 = Some f_rho
        /\ Some Sample2.file_100 = Some f_u
        /\ Some Sample2.file_100 = Some f_p
        /\ (1 <= n)%Z
        /\ column f_rho = n /\ column f_u = n /\ column f_p = n
        /\ read_fails f_rho = false /\ read_fails f_u = false
        /\ read_fails f_p = false
        /\ to_int (config_set Sample2.unset_config 3 (of_int 100) 3%nat) = n
        /\ (if isinf (Sample2.unset_config 3%nat)
            then config_set Sample2.unset_config 3 (of_int 100)
                 = config_set Sample2.unset_config 3 (of_int n)
            else config_set Sample2.unset_config 3 (of_int 100)
                 = Sample2.unset_config).
Proof.
  apply (reads_1D Sample2.unset_config (Some Sample2.file_100)
           (Some Sample2.file_100) (Some Sample2.file_100)).
  intros f [= <-]. reflexivity.
Defined.

(** No file of RHO. *)
Lemma exit_status_1D_witness :
  (1 = 1 \/ 1 = 2)%Z
  /\ (1%Z = 1%Z ->
      @None data_file = None \/ Some Sample2.file_100 = None
      \/ Some Sample2.file_100 = None)
  /\ (@None data_file = None -> 1%Z = 1%Z).
Proof.
  apply (exit_status_1D Sample2.unset_config None (Some Sample2.file_100)
           (Some Sample2.file_100) 1).
  reflexivity.
Defined.

(** A file of 20 lines of 10 numbers against the configuration it has
    set itself. *)
Lemma later_file_is_compared_witness :
  let config := config_set
                  (config_set (config_set Sample2.unset_config 3 200) 13 10)
                  14 20 in
  agrees Sample.file_20_by_10 config
  /\ config 14%nat = config 14%nat
  /\ (isinf (config 13%nat) = false -> config 13%nat = config 13%nat)
  /\ (isinf (config 3%nat) = false -> config 3%nat = config 3%nat).
Proof.
  intros config.
  apply (later_file_is_compared config Sample.file_20_by_10 config);
    vm_compute; reflexivity.
Defined.

(** Four files of 20 lines of 10 numbers, nothing configured. *)
Lemma reads_2D_witness :
  let config' := config_set
                   (config_set (config_set Sample2.unset_config 3 200) 13 10)
                   14 20 in
  exists f_rho f_u f_v f_p,
    Some Sample.file_20_by_10 = Some f_rho
    /\ Some Sample.file_20_by_10 = Some f_u
    /\ Some Sample.file_20_by_10 = Some f_v
    /\ Some Sample.file_20_by_10 = Some f_p
    /\ agrees f_u config' /\ agrees f_v config' /\ agrees f_p config'
    /\ line f_rho = to_int (config' 14%nat)
    /\ (isinf (Sample2.unset_config 14%nat) = false
        \/ isinf (Sample2.unset_config 13%nat) = true ->
        column f_rho = to_int (config' 13%nat))
    /\ (isinf (Sample2.unset_config 14%nat) = false
        \/ isinf (Sample2.unset_config 3%nat) = true ->
        (line f_rho * column f_rho)%Z = to_int (config' 3%nat)).
Proof.
  intros config'.
  apply (reads_2D Sample2.unset_config (Some Sample.file_20_by_10)
           (Some Sample.file_20_by_10) (Some Sample.file_20_by_10)
           (Some Sample.file_20_by_10) config').
  - intros f [= <-]. repeat split; vm_compute; congruence.
  - vm_compute. reflexivity.
Defined.

End ReaderFacts.

(** ** The first switch across the steps *)

Module BoundaryOnce.

Import CMath GRP Spec Rows TimeStepFacts.
Local Open Scope float_scope.

(** Whatever the tag, the first switch leaves [find_bound] set, and it
    prints the boundary line unless [find_bound] was set. *)
Lemma boundary_values_flag (bound : Z) (m : nat) (h : float)
    (cv : cell_var_stru) (X : list (list float)) (fb : bool) (g : ghost_val)
    (fb' : bool) (g' : ghost_val) (msgs : list event) :
  boundary_values bound m h cv X fb g = Some (fb', g', msgs) ->
  fb' = true /\ msgs = if fb then [] else [MsgBoundary bound].
Proof.
  unfold boundary_values.
  destruct (bound =? -1)%Z.
  { destruct fb; intros [= <- <- <-]; split; reflexivity. }
  destruct (bound =? -2)%Z; [intros [= <- <- <-]; split; reflexivity|].
  destruct (bound =? -4)%Z; [intros [= <- <- <-]; split; reflexivity|].
  destruct (bound =? -5)%Z; [intros [= <- <- <-]; split; reflexivity|].
  destruct (bound =? -24)%Z; [intros [= <- <- <-]; split; reflexivity|].
  discriminate.
Qed.

(** The ghost values of the tag -1. *)
Lemma boundary_values_initial (m : nat) (h : float)
    (cv : cell_var_stru) (X : list (list float)) (fb : bool) (g : ghost_val)
    (fb' : bool) (g' : ghost_val) (msgs : list event) :
  boundary_values (-1) m h cv X fb g = Some (fb', g', msgs) ->
  g' = if fb then g
       else {| UL := get2 (U cv) 0 0; UR := get2 (U cv) 0 (m - 1);
               PL := get2 (P cv) 0 0; PR := get2 (P cv) 0 (m - 1);
               RHOL := get2 (RHO cv) 0 0; RHOR := get2 (RHO cv) 0 (m - 1);
               HL := h; HR := h |}.
Proof.
  unfold boundary_values. cbn [Z.eqb Pos.eqb].
  destruct fb; intros [= <- <- <-]; reflexivity.
Qed.

Section WithExternals.
Context `{Externals}.

(** A turn that is followed by another one keeps the flag and the ghost
    values of its first switch. *)
Lemma step_ghost (par : params) (m k : nat) (s s' : state) :
  step par m k s = Continue s' ->
  exists fb g msgs,
    boundary_values (bound par) m (h par) (CV s) (X s) (find_bound s) (gv s)
    = Some (fb, g, msgs)
    /\ find_bound s' = fb /\ gv s' = g.
Proof.
  intros Hstep.
  destruct (step_finished par m k s s' (or_introl Hstep))
    as (fb & g & msgs & i & Hbv & _ & E).
  exists fb, g, msgs. split; [exact Hbv|].
  rewrite E in Hstep. revert Hstep. unfold finish_step.
  destruct (time_is_up par _); [discriminate|].
  intros [= <-]. split; reflexivity.
Qed.

(** The states of a march: the first one, or one with the flag set. *)
Lemma reaches_flag (par : params) (m k0 : nat) (s0 : state) (k : nat)
    (s : state) :
  reaches par m k0 s0 k s ->
  (k = k0 /\ s = s0) \/ ((k0 < k)%nat /\ find_bound s = true).
Proof.
  induction 1 as [k s|k s k' s' s'' Hr IH Hstep].
  - left. split; reflexivity.
  - right.
    destruct (step_ghost par m k' s' s'' Hstep) as (fb & g & msgs & Hbv & <- & _).
    apply boundary_values_flag in Hbv. destruct Hbv as [-> _].
    split; [|reflexivity]. destruct IH as [[-> _]|[Hlt _]]; lia.
Qed.

(** X14.  Lines 120-176 ([find_bound]): in a march, the line that names
    the boundary condition is printed by the first step and by no later
    step, whatever the tag. *)
Theorem boundary_line_once (m : nat) (cv : cell_var_stru)
    (X : list (list float)) (cpu : list float) (config : config_array)
    (k : nat) (s : state) (fb : bool) (g : ghost_val) (msgs : list event) :
  let par := read_params config in
  reaches par m 1 (initial_state m cv X cpu config) k s ->
  boundary_values (bound par) m (h par) (CV s) (GRP.X s) (find_bound s) (gv s)
  = Some (fb, g, msgs) ->
  msgs = if (k =? 1)%nat then [MsgBoundary (bound par)] else [].
Proof.
  intros par Hr Hbv. apply boundary_values_flag in Hbv.
  destruct Hbv as [_ ->].
  destruct (reaches_flag par m 1 _ k s Hr) as [[-> ->]|[Hlt ->]].
  - reflexivity.
  - destruct (Nat.eqb_spec k 1); [lia|reflexivity].
Qed.

(** The ghost values of the tag -1 in a march. *)
Lemma reaches_initial_ghost (par : params) (m k0 : nat) (s0 : state)
    (k : nat) (s : state) :
  bound par = (-1)%Z -> find_bound s0 = false ->
  reaches par m k0 s0 k s ->
  (k = k0 /\ s = s0)
  \/ (find_bound s = true
      /\ gv s = {| UL := get2 (U (CV s0)) 0 0;
                   UR := get2 (U (CV s0)) 0 (m - 1);
                   PL := get2 (P (CV s0)) 0 0;
                   PR := get2 (P (CV s0)) 0 (m - 1);
                   RHOL := get2 (RHO (CV s0)) 0 0;
                   RHOR := get2 (RHO (CV s0)) 0 (m - 1);
                   HL := h par; HR := h par |}).
Proof.
  intros Hb H0. induction 1 as [k s|k s k' s' s'' Hr IH Hstep].
  - left. split; reflexivity.
  - right. specialize (IH H0).
    destruct (step_ghost par m k' s' s'' Hstep)
      as (fb & g & msgs & Hbv & <- & ->).
    pose proof (boundary_values_flag _ _ _ _ _ _ _ _ _ _ Hbv) as [-> _].
    split; [reflexivity|].
    rewrite Hb in Hbv. apply boundary_values_initial in Hbv.
    destruct IH as [[-> ->]|[Hfb Hgv]].
    + rewrite H0 in Hbv. exact Hbv.
    + rewrite Hfb in Hbv. rewrite Hbv. exact Hgv.
Qed.

(** X15.  Case -1 of the first switch (lines 122-132): with the tag -1
    the ghost cells hold what the two end cells of row 0 held when the
    march began, with the width [config[10]], in every step of the march;
    they do not follow the solution. *)
Theorem initial_boundary_is_frozen (m : nat) (cv : cell_var_stru)
    (X : list (list float)) (cpu : list float) (config : config_array)
    (k : nat) (s : state) (fb : bool) (g : ghost_val) (msgs : list event) :
  let par := read_params config in
  bound par = (-1)%Z ->
  reaches par m 1 (initial_state m cv X cpu config) k s ->
  boundary_values (bound par) m (h par) (CV s) (GRP.X s) (find_bound s) (gv s)
  = Some (fb, g, msgs) ->
  g = {| UL := get2 (U cv) 0 0; UR := get2 (U cv) 0 (m - 1);
         PL := get2 (P cv) 0 0; PR := get2 (P cv) 0 (m - 1);
         RHOL := get2 (RHO cv) 0 0; RHOR := get2 (RHO cv) 0 (m - 1);
         HL := config 10%nat; HR := config 10%nat |}.
Proof.
  intros par Hb Hr Hbv. rewrite Hb in Hbv.
  apply boundary_values_initial in Hbv.
  destruct (reaches_initial_ghost par m 1 (initial_state m cv X cpu config)
              k s Hb eq_refl Hr) as [[-> ->]|[Hfb Hgv]].
  - cbn [initial_state find_bound CV] in Hbv. exact Hbv.
  - rewrite Hfb in Hbv. rewrite Hbv, Hgv. reflexivity.
Qed.

End WithExternals.

(** The second step of the sample tube prints no boundary line. *)
Lemma boundary_line_once_witness :
  match Sample2.tube_step_boundary with
  | Some (_, _, msgs) => msgs = []
  | None => False
  end.
Proof.
  destruct Sample2.tube_step_boundary as [[[fb g] msgs]|] eqn:E.
  - apply (@boundary_line_once Sample.ext_mean 2 Sample.tube Sample.grid
             [0; 0] (Sample.sample_config (-4)) 2 Sample2.tube_step fb g msgs).
    + apply (@reaches_next Sample.ext_mean _ _ 1 _ 1 (Sample.tube_state (-4))).
      * apply reaches_here.
      * vm_compute. reflexivity.
    + exact E.
  - vm_compute in E. discriminate E.
Defined.

(** The second step of the sample tube with the tag -1: the ghost cells
    are the end cells of the initial data. *)
Lemma initial_boundary_is_frozen_witness :
  match Sample2.initial_step_boundary with
  | Some (_, g, _) =>
      g = {| UL := 0; UR := 0; PL := 1; PR := 0.125;
             RHOL := 1; RHOR := 0.125; HL := 0.5; HR := 0.5 |}
  | None => False
  end.
Proof.
  destruct Sample2.initial_step_boundary as [[[fb g] msgs]|] eqn:E.
  - apply (@initial_boundary_is_frozen Sample.ext_mean 2 Sample.tube
             Sample.grid [0; 0] (Sample.sample_config (-1)) 2
             Sample2.initial_step fb g msgs).
    + vm_compute. reflexivity.
    + apply (@reaches_next Sample.ext_mean _ _ 1 _ 1 (Sample.tube_state (-1))).
      * apply reaches_here.
      * vm_compute. reflexivity.
    + exact E.
  - vm_compute in E. discriminate E.
Defined.

End BoundaryOnce.

(** ** [main] of hydrocode_Radial_Lag: the arrays it sets up *)

Module RadialFacts.

Import CMath GRP Spec Rows LoopFacts.
Import Radial.
Local Open Scope float_scope.

Lemma length_memmove_at (dst src : list float) (off n : nat) :
  (off + n <= length dst)%nat -> (n <= length src)%nat ->
  length (memmove_at dst off src n) = length dst.
Proof.
  intros Hd Hs. unfold memmove_at.
  rewrite !length_app, !length_take, length_drop. lia.
Qed.

(** [memmove] puts entry [i] of the source at entry [off + i]. *)
Lemma memmove_at_moved (dst src : list float) (off n i : nat) :
  (off <= length dst)%nat -> (n <= length src)%nat -> (i < n)%nat ->
  memmove_at dst off src n !!! (off + i)%nat = src !!! i.
Proof.
  intros Hd Hs Hi. unfold memmove_at.
  rewrite lookup_total_app_r by (rewrite length_take; lia).
  rewrite length_take, Nat.min_l by lia.
  replace (off + i - off)%nat with i by lia.
  rewrite lookup_total_app_l by (rewrite length_take; lia).
  rewrite lookup_total_take.
  destruct (decide (i < n)%nat); [reflexivity|lia].
Qed.

Lemma CV_INIT_FV_RESET_MEM_spec (v0 : list float) (Ncell N : nat) :
  length v0 = Ncell -> (1 <= N)%nat ->
  shaped N (Ncell + 2) (CV_INIT_FV_RESET_MEM v0 Ncell N)
  /\ forall j, (1 <= j <= Ncell)%nat ->
       get2 (CV_INIT_FV_RESET_MEM v0 Ncell N) 0 j = v0 !!! (j - 1)%nat.
Proof.
  intros Hv HN. unfold CV_INIT_FV_RESET_MEM. cbv zeta.
  rewrite lookup_total_replicate_2 by lia.
  assert (Hlen : length (memmove_at (replicate (Ncell + 2) 0) 1 v0 Ncell)
                 = (Ncell + 2)%nat).
  { rewrite length_memmove_at; rewrite ?length_replicate; lia. }
  split.
  - split; [rewrite length_insert; apply length_replicate|].
    intros k Hk. destruct k as [|k].
    + rewrite list_lookup_total_insert_eq by (rewrite length_replicate; lia).
      exact Hlen.
    + rewrite list_lookup_total_insert_ne by discriminate.
      rewrite lookup_total_replicate_2 by lia. apply length_replicate.
  - intros j Hj. unfold get2.
    rewrite list_lookup_total_insert_eq by (rewrite length_replicate; lia).
    replace j with (1 + (j - 1))%nat at 1 by lia.
    apply memmove_at_moved; rewrite ?length_replicate; lia.
Qed.

(** [CV.gamma]: every row is the row the macro has filled. *)
Lemma CV_gamma_spec (g0 : list float) (Ncell N : nat) :
  length g0 = Ncell -> (1 <= N)%nat ->
  shaped N (Ncell + 2) (CV_gamma g0 Ncell N)
  /\ forall k j, (k < N)%nat -> (1 <= j <= Ncell)%nat ->
       get2 (CV_gamma g0 Ncell N) k j = g0 !!! (j - 1)%nat.
Proof.
  intros Hg HN. unfold CV_gamma. cbv zeta.
  destruct (CV_INIT_FV_RESET_MEM_spec g0 Ncell N Hg HN) as [[L0 W0] V0].
  set (G0 := CV_INIT_FV_RESET_MEM g0 Ncell N) in *.
  assert (G : (fun (n : nat) G =>
                 length G = N
                 /\ G !!! 0%nat = G0 !!! 0%nat
                 /\ (forall k, (1 <= k < n)%nat -> G !!! k = G0 !!! 0%nat)
                 /\ (forall k, (n <= k)%nat -> G !!! k = G0 !!! k))
              (1 + (N - 1))%nat
              (for_loop (N - 1) 1 (fun k G => <[ k := G !!! 0%nat ]> G) G0)).
  { apply for_loop_inv.
    - split; [exact L0|]. split; [reflexivity|].
      split; [intros k Hk; lia|reflexivity].
    - intros n G' Hn (L & R0 & Rlow & Rhigh).
      split; [rewrite length_insert; exact L|]. split.
      + rewrite list_lookup_total_insert_ne by lia. exact R0.
      + split.
        * intros k Hk. destruct (Nat.eq_dec k n) as [->|Hne].
          -- rewrite list_lookup_total_insert_eq by lia. exact R0.
          -- rewrite list_lookup_total_insert_ne by congruence.
             apply Rlow. lia.
        * intros k Hk. rewrite list_lookup_total_insert_ne by lia.
          apply Rhigh. lia. }
  destruct G as (L & R0 & Rlow & _).
  assert (Hrow : forall k, (k < N)%nat ->
            for_loop (N - 1) 1 (fun k G => <[ k := G !!! 0%nat ]> G) G0 !!! k
            = G0 !!! 0%nat).
  { intros k Hk. destruct k as [|k]; [exact R0|]. apply Rlow. lia. }
  split.
  - split; [exact L|]. intros k Hk. rewrite (Hrow k Hk). apply W0. lia.
  - intros k j Hk Hj. unfold get2. rewrite (Hrow k Hk). apply (V0 j Hj).
Qed.

(** X16.  [CV_INIT_FV_RESET_MEM] and the energy loop of [main] of
    hydrocode_Radial_Lag (lines 229-264), in both builds: the arrays have
    [N] rows of [Ncell + 2] entries; value [j - 1] of the initial data is
    cell [j] of row 0, for [j = 1 .. Ncell], with its specific total
    energy [u*u/2 + p/(gamma_j - 1)/rho].  With MULTIFLUID_BASICS, the
    default, [gamma_j] is value [j - 1] of the initial ratios, which
    every row of [CV.gamma] holds in cell [j]; without it [gamma_j] is
    [config[6]] for every cell. *)
Theorem radial_initial_rows (MULTIFLUID_BASICS : bool) (gamma : float)
    (Ncell N : nat) (FV0 : flu_var) :
  (1 <= N)%nat ->
  length (FV_RHO FV0) = Ncell ->
  length (FV_U FV0) = Ncell ->
  length (FV_P FV0) = Ncell ->
  (MULTIFLUID_BASICS = true -> length (FV_gamma FV0) = Ncell) ->
  let cv0 := fst (initial_cells MULTIFLUID_BASICS gamma Ncell N FV0) in
  let G := snd (initial_cells MULTIFLUID_BASICS gamma Ncell N FV0) in
  let rho := FV_RHO FV0 in
  let u := FV_U FV0 in
  let p := FV_P FV0 in
  let gamma_at (j : nat) :=
    if MULTIFLUID_BASICS then FV_gamma FV0 !!! (j - 1)%nat else gamma in
  cells_shaped N (Ncell + 2) cv0
  /\ (MULTIFLUID_BASICS = true ->
      shaped N (Ncell + 2) G
      /\ forall k j, (k < N)%nat -> (1 <= j <= Ncell)%nat ->
           get2 G k j = FV_gamma FV0 !!! (j - 1)%nat)
  /\ (forall j, (1 <= j <= Ncell)%nat ->
        cell_at cv0 0 j
        = (rho !!! (j - 1)%nat, u !!! (j - 1)%nat,
           0.5 * (u !!! (j - 1)%nat) * (u !!! (j - 1)%nat)
           + (p !!! (j - 1)%nat) / (gamma_at j - 1.0) / (rho !!! (j - 1)%nat),
           p !!! (j - 1)%nat)).
Proof.
  intros HN H1 H2 H3 H4. cbv zeta. unfold initial_cells. cbn [fst snd].
  set (G := if MULTIFLUID_BASICS then CV_gamma (FV_gamma FV0) Ncell N else []).
  set (gamma_in := fun j : nat =>
                     if MULTIFLUID_BASICS then get2 G 0 j else gamma).
  unfold init_E0.
  set (cv := {| RHO := _; U := _; P := _; E := _ |}).
  set (body := fun (j : nat) (cv0 : cell_var_stru) => _).
  destruct (CV_INIT_FV_RESET_MEM_spec _ Ncell N H1 HN) as [S1 V1].
  destruct (CV_INIT_FV_RESET_MEM_spec _ Ncell N H2 HN) as [S2 V2].
  destruct (CV_INIT_FV_RESET_MEM_spec _ Ncell N H3 HN) as [S3 V3].
  assert (HG : MULTIFLUID_BASICS = true ->
               shaped N (Ncell + 2) G
               /\ forall k j, (k < N)%nat -> (1 <= j <= Ncell)%nat ->
                    get2 G k j = FV_gamma FV0 !!! (j - 1)%nat).
  { intros HM. subst G. rewrite HM. apply CV_gamma_spec; [|exact HN].
    apply H4. exact HM. }
  assert (F : (fun (n : nat) cv' =>
                 shaped N (Ncell + 2) (E cv')
                 /\ RHO cv' = RHO cv /\ U cv' = U cv /\ P cv' = P cv
                 /\ (forall j, (j < 1 \/ n <= j)%nat ->
                       get2 (E cv') 0 j = get2 (E cv) 0 j)
                 /\ forall j, (1 <= j < n)%nat ->
                      get2 (E cv') 0 j
                      = 0.5 * get2 (U cv) 0 j * get2 (U cv) 0 j
                        + get2 (P cv) 0 j / (gamma_in j - 1.0)
                          / get2 (RHO cv) 0 j)
              (1 + Ncell)%nat (for_loop Ncell 1 body cv)).
  { apply for_loop_inv.
    - split; [apply (GridFacts.shaped_replicate N (Ncell + 2))|].
      repeat split. intros j Hj. lia.
    - intros n cv' Hn (S4 & E1 & E2 & E3 & Hout & Hcells).
      subst body. cbv zeta. cbn [RHO U P E].
      split; [now apply GridFacts.shaped_set2|].
      split; [exact E1|]. split; [exact E2|]. split; [exact E3|]. split.
      + intros j Hj. rewrite get2_set2_col_ne by lia. apply Hout. lia.
      + intros j Hj. destruct (Nat.eq_dec j n) as [->|Hne].
        * destruct S4 as [L4 W4].
          rewrite get2_set2_eq by (rewrite ?L4, ?W4; lia).
          rewrite E1, E2, E3. reflexivity.
        * rewrite get2_set2_col_ne by congruence. apply Hcells. lia. }
  destruct F as (S4 & E1 & E2 & E3 & Hout & Hcells).
  split; [|split; [exact HG|]].
  - unfold cells_shaped. rewrite E1, E2, E3. unfold cv; cbn [RHO U P].
    repeat split; try apply S1; try apply S2; try apply S3; apply S4.
  - intros j Hj. unfold cell_at.
    rewrite (Hcells j) by lia. rewrite E1, E2, E3. unfold cv; cbn [RHO U P].
    rewrite (V1 j Hj), (V2 j Hj), (V3 j Hj). unfold gamma_in.
    destruct MULTIFLUID_BASICS; [|reflexivity].
    destruct (HG eq_refl) as [_ VG]. rewrite (VG 0%nat j) by lia.
    reflexivity.
Qed.

(** Two cells with the ratios 1.5 and 3, in the default build. *)
Lemma radial_initial_rows_witness :
  let cv0 := fst (initial_cells true 1.5 2 2 two_fluids) in
  let G := snd (initial_cells true 1.5 2 2 two_fluids) in
  cells_shaped 2 4 cv0
  /\ (true = true ->
      shaped 2 4 G
      /\ forall k j, (k < 2)%nat -> (1 <= j <= 2)%nat ->
           get2 G k j = [1.5; 3] !!! (j - 1)%nat)
  /\ (forall j, (1 <= j <= 2)%nat ->
        cell_at cv0 0 j
        = ([1; 0.125] !!! (j - 1)%nat, [0; 0] !!! (j - 1)%nat,
           0.5 * ([0; 0] !!! (j - 1)%nat) * ([0; 0] !!! (j - 1)%nat)
           + ([1; 0.125] !!! (j - 1)%nat)
             / ([1.5; 3] !!! (j - 1)%nat - 1.0)
             / ([1; 0.125] !!! (j - 1)%nat),
           [1; 0.125] !!! (j - 1)%nat)).
Proof.
  apply (radial_initial_rows true 1.5 2 2 two_fluids);
    [lia|reflexivity..].
Defined.

End RadialFacts.

(** ** What a step prints *)

Module OutputFacts.

Import CMath GRP Spec Rows LoopFacts IfaceFacts TimeStepFacts UpdateFacts.
Local Open Scope float_scope.

(** The update loop prints the messages of its cells in their order. *)
Lemma update_loop_out (par : params) (k m : nat) (nu : float)
    (nxt : iface) (f : flux) (X : list (list float)) (st : update_state) :
  u_out (update_loop par k m nu nxt f X st)
  = u_out st ++ flat_map (update_messages par k nu f (u_cv st)) (seq 0 m).
Proof.
  unfold update_loop.
  assert (G : same_old_rows (u_cv st)
                (u_cv (for_loop m 0 (update_body par k nu nxt f X) st))
              /\ u_out (for_loop m 0 (update_body par k nu nxt f X) st)
                 = u_out st
                   ++ flat_map (update_messages par k nu f (u_cv st))
                        (seq 0 (0 + m))).
  { apply (for_loop_inv
             (fun n st' =>
                same_old_rows (u_cv st) (u_cv st')
                /\ u_out st'
                   = u_out st
                     ++ flat_map (update_messages par k nu f (u_cv st))
                          (seq 0 n))
             (update_body par k nu nxt f X) m 0 st).
    - split; [apply same_old_rows_refl|]. cbn. now rewrite app_nil_r.
    - intros n st' _ [Hrows Hout]. split.
      + cbn [update_body u_cv]. now apply store_cell_old_rows.
      + rewrite seq_snoc, flat_map_app. cbn [flat_map Nat.add].
        rewrite app_nil_r. unfold update_body. cbn [u_out].
        rewrite (updated_cell_old_rows par nu f (u_cv st) (u_cv st') n Hrows).
        rewrite Hout. unfold update_messages. rewrite <- !app_assoc.
        reflexivity. }
  exact (proj2 G).
Qed.

Section WithExternals.
Context `{Externals}.

(** X17.  The [printf] calls of one step that runs to its end, in their
    order: the boundary line (first step only), the messages of the star
    states by interface, the messages of the updated cells by cell, and the
    progress display. *)
Theorem step_output (par : params) (m k : nat) (s s' : state)
    (fb : bool) (g : ghost_val) (msgs : list event) :
  boundary_values (bound par) m (h par) (CV s) (X s) (find_bound s) (gv s)
  = Some (fb, g, msgs) ->
  step par m k s = Continue s' \/ step par m k s = Break s' ->
  let s1 := reconstruct k m (alpha par) (CV s) (X s) g (sl s) in
  let gsl := boundary_slopes (bound par) m s1 (gs s) in
  out s'
  = out s ++ msgs
    ++ flat_map (star_messages par k m (CV s) (X s) g gsl s1) (seq 0 (m + 1))
    ++ flat_map (update_messages par k (tau s' / h par) (fl s') (CV s))
         (seq 0 m)
    ++ [DispPro (progress par k (time_c s')) k].
Proof.
  intros Hbv Hstep s1 gsl.
  destruct (step_finished par m k s s' Hstep)
    as (fb' & g' & msgs' & i & Hbv' & Hloop & E).
  rewrite Hbv in Hbv'. injection Hbv' as <- <- <-.
  fold s1 in Hloop, E. fold gsl in Hloop, E.
  apply iface_loop_turns in Hloop.
  assert (Hout : i_out i
                 = (out s ++ msgs)
                   ++ flat_map (star_messages par k m (CV s) (X s) g gsl s1)
                        (seq 0 (m + 1))).
  { rewrite Hloop, turns_out. reflexivity. }
  rewrite E in Hstep. clear E. revert Hstep. unfold finish_step.
  fold (step_tau par s i). fold (step_flux par m s i).
  fold (step_update par m k s s1 i).
  fold (progress par k (u_time_c (step_update par m k s s1 i)
                        + step_tau par s i)).
  assert (Hu : u_out (step_update par m k s s1 i)
               = i_out i
                 ++ flat_map (update_messages par k (step_tau par s i / h par)
                                (f_fl (step_flux par m s i)) (CV s))
                      (seq 0 m)).
  { unfold step_update. rewrite update_loop_out. reflexivity. }
  destruct (time_is_up par _); intros [Hc|Hb]; try discriminate.
  - injection Hb as <-. cbn [out tau fl time_c].
    rewrite Hu, Hout, <- !app_assoc. reflexivity.
  - injection Hc as <-. cbn [out tau fl time_c].
    rewrite Hu, Hout, <- !app_assoc. reflexivity.
Qed.

End WithExternals.

(** The first step of the sample tube. *)
Lemma step_output_witness :
  let H := Sample.ext_mean in
  let par := read_params (Sample.sample_config (-4)) in
  let s := Sample.tube_state (-4) in
  let s' := Sample2.tube_step in
  let s1 := reconstruct 1 2 1.5 Sample.tube Sample.grid Sample2.tube_ghost
              (sl s) in
  out s'
  = out s ++ [MsgBoundary (-4)]
    ++ flat_map (star_messages par 1 2 Sample.tube Sample.grid
                   Sample2.tube_ghost
                   (boundary_slopes (-4) 2 s1 (gs s)) s1) (seq 0 3)
    ++ flat_map (update_messages par 1 (tau s' / 0.5) (fl s') Sample.tube)
         (seq 0 2)
    ++ [DispPro (progress par 1 (time_c s')) 1].
Proof.
  cbv zeta.
  apply (@step_output Sample.ext_mean
           (read_params (Sample.sample_config (-4))) 2 1
           (Sample.tube_state (-4)) Sample2.tube_step true
           Sample2.tube_ghost [MsgBoundary (-4)]).
  - vm_compute. reflexivity.
  - left. vm_compute. reflexivity.
Defined.

End OutputFacts.

(** ** The time after a step *)

Module TimeFacts.

Import CMath GRP Spec Rows LoopFacts IfaceFacts TimeStepFacts UpdateFacts.
Local Open Scope float_scope.

Section WithExternals.
Context `{Externals}.

(** X18.  Lines 319-328, 381-390 and 400-413: a step that runs to its
    end adds its time step to the time it began with, or to the end time
    if the star state of one of its interfaces or the update of one of
    its cells was flagged; the march goes on when the end test of line 409
    fails for this sum and ends when it holds. *)
Theorem step_time (par : params) (m k : nat) (s s' : state)
    (fb : bool) (g : ghost_val) (msgs : list event) :
  boundary_values (bound par) m (h par) (CV s) (X s) (find_bound s) (gv s)
  = Some (fb, g, msgs) ->
  step par m k s = Continue s' \/ step par m k s = Break s' ->
  let s1 := reconstruct k m (alpha par) (CV s) (X s) g (sl s) in
  let gsl := boundary_slopes (bound par) m s1 (gs s) in
  let flagged :=
    existsb (star_flagged par m (CV s) (X s) g gsl s1) (seq 0 (m + 1))
    || existsb (update_flagged par (tau s' / h par) (fl s') (CV s))
         (seq 0 m) in
  time_c s' = (if flagged then t_all par else time_c s) + tau s'
  /\ (step par m k s = Continue s' <-> time_is_up par (time_c s') = false)
  /\ (step par m k s = Break s' <-> time_is_up par (time_c s') = true).
Proof.
  intros Hbv Hstep s1 gsl.
  destruct (step_finished par m k s s' Hstep)
    as (fb' & g' & msgs' & i & Hbv' & Hloop & E).
  rewrite Hbv in Hbv'. injection Hbv' as <- <- <-.
  fold s1 in Hloop, E. fold gsl in Hloop, E.
  apply iface_loop_turns in Hloop.
  assert (Hi : i_time_c i
               = if existsb (star_flagged par m (CV s) (X s) g gsl s1)
                      (seq 0 (m + 1))
                 then t_all par else time_c s).
  { rewrite Hloop, turns_time_c. reflexivity. }
  destruct (update_loop_spec par k m (step_tau par s i / h par)
              (f_nx (step_flux par m s i)) (f_fl (step_flux par m s i))
              (f_X (step_flux par m s i))
              {| u_cv := CV s; u_time_c := i_time_c i; u_sl := s1;
                 u_out := i_out i |}) as [_ Hu].
  fold (step_update par m k s s1 i) in Hu. cbn [u_cv u_time_c] in Hu.
  assert (Ht : u_time_c (step_update par m k s s1 i)
               = if existsb (star_flagged par m (CV s) (X s) g gsl s1)
                      (seq 0 (m + 1))
                    || existsb (update_flagged par (step_tau par s i / h par)
                                  (f_fl (step_flux par m s i)) (CV s))
                         (seq 0 m)
                 then t_all par else time_c s).
  { rewrite Hu, Hi.
    destruct (existsb (star_flagged par m (CV s) (X s) g gsl s1) _),
      (existsb (update_flagged par _ _ (CV s)) _); reflexivity. }
  rewrite E in *. clear E. revert Hstep. unfold finish_step.
  fold (step_tau par s i). fold (step_flux par m s i).
  fold (step_update par m k s s1 i).
  destruct (time_is_up par _) eqn:Hup; intros [Hc|Hb]; try discriminate.
  - injection Hb as <-. cbn [time_c tau fl]. rewrite Hup, Ht.
    split; [reflexivity|]. split; split; try discriminate; reflexivity.
  - injection Hc as <-. cbn [time_c tau fl]. rewrite Hup, Ht.
    split; [reflexivity|]. split; split; try discriminate; reflexivity.
Qed.

End WithExternals.

(** The first step of the sample tube: nothing is flagged. *)
Lemma step_time_witness :
  let H := Sample.ext_mean in
  let par := read_params (Sample.sample_config (-4)) in
  let s := Sample.tube_state (-4) in
  let s' := Sample2.tube_step in
  let s1 := reconstruct 1 2 1.5 Sample.tube Sample.grid Sample2.tube_ghost
              (sl s) in
  let flagged :=
    existsb (star_flagged par 2 Sample.tube Sample.grid Sample2.tube_ghost
               (boundary_slopes (-4) 2 s1 (gs s)) s1) (seq 0 3)
    || existsb (update_flagged par (tau s' / 0.5) (fl s') Sample.tube)
         (seq 0 2) in
  time_c s' = (if flagged then 0.25 else 0) + tau s'
  /\ (step par 2 1 s = Continue s' <-> time_is_up par (time_c s') = false)
  /\ (step par 2 1 s = Break s' <-> time_is_up par (time_c s') = true).
Proof.
  cbv zeta.
  apply (@step_time Sample.ext_mean
           (read_params (Sample.sample_config (-4))) 2 1
           (Sample.tube_state (-4)) Sample2.tube_step true
           Sample2.tube_ghost [MsgBoundary (-4)]).
  - vm_compute. reflexivity.
  - left. vm_compute. reflexivity.
Defined.

End TimeFacts.
